(** * The EventSource polyfill of sanity-io/eventsource (browser build)

    A shallow embedding of the connection state machine and of the incremental
    frame parser that live in the constructor of [EventSource]: the closure
    variables become the fields of one record, every callback ([onStart],
    [onProgress], [onFinish], [onTimeout], [close]) becomes a function on that
    record, and everything the callbacks do to the outside world (events handed
    to listeners, timers, the transport, the console) is appended to a log. *)

From Stdlib Require Import ZArith List Bool Lia String Ascii.
Import ListNotations.
Local Open Scope Z_scope.

Set Primitive Projections.

(** ** JavaScript strings

    A string is its sequence of UTF-16 code units, the numbers [charCodeAt]
    returns. *)

Definition jsstring := list Z.

Fixpoint str (s : string) : jsstring :=
  match s with
  | EmptyString => []
  | String a s' => Z.of_N (N_of_ascii a) :: str s'
  end.

Definition LF : Z := 10.
Definition CR : Z := 13.
Definition SPACE : Z := 32.
Definition COLON : Z := 58.
Definition AMP : Z := 38.
Definition EQUALS : Z := 61.
Definition QUESTION : Z := 63.

Definition jslength (s : jsstring) : Z := Z.of_nat (List.length s).

(** [s.charCodeAt(i)]; [None] stands for the NaN of an index out of range. *)
Definition charCodeAt (s : jsstring) (i : Z) : option Z :=
  if i <? 0 then None else nth_error s (Z.to_nat i).

(** [s.slice(start, end)], negative indices counting from the end. *)
Definition slice (s : jsstring) (start end_ : Z) : jsstring :=
  let len := jslength s in
  let from := if start <? 0 then Z.max (len + start) 0 else Z.min start len in
  let final := if end_ <? 0 then Z.max (len + end_) 0 else Z.min end_ len in
  firstn (Z.to_nat (Z.max (final - from) 0)) (skipn (Z.to_nat from) s).

(** [s.slice(start)]. *)
Definition slice_from (s : jsstring) (start : Z) : jsstring :=
  slice s start (jslength s).

Fixpoint str_eqb (a b : jsstring) : bool :=
  match a, b with
  | [], [] => true
  | x :: a', y :: b' => (x =? y) && str_eqb a' b'
  | _, _ => false
  end.

Definition opt_eqb (a : option Z) (b : Z) : bool :=
  match a with Some x => x =? b | None => false end.

(** [s.indexOf(c)] for a one-character needle, [-1] when absent. *)
Fixpoint indexOf_from (s : jsstring) (c : Z) (i : Z) : Z :=
  match s with
  | [] => -1
  | x :: s' => if x =? c then i else indexOf_from s' c (i + 1)
  end.

Definition indexOf (s : jsstring) (c : Z) : Z := indexOf_from s c 0.

(** The characters the regular expression class [\s] and [parseInt]'s
    leading-blank skipping accept: WhiteSpace and LineTerminator. *)
Definition isWhiteSpace (c : Z) : bool :=
  ((9 <=? c) && (c <=? 13)) || (c =? 32) || (c =? 160) || (c =? 5760)
  || ((8192 <=? c) && (c <=? 8202)) || (c =? 8232) || (c =? 8233)
  || (c =? 8239) || (c =? 8287) || (c =? 12288) || (c =? 65279).

(** [s.replace(/\s+/g, ' ')]: every maximal run of blanks becomes one space. *)
Fixpoint collapse_ws_from (in_run : bool) (s : jsstring) : jsstring :=
  match s with
  | [] => []
  | c :: s' =>
      if isWhiteSpace c
      then (if in_run then [] else [SPACE]) ++ collapse_ws_from true s'
      else c :: collapse_ws_from false s'
  end.

Definition collapse_ws (s : jsstring) : jsstring := collapse_ws_from false s.

(** ** parseInt, parseDuration, clampDuration *)

Definition isDigit (c : Z) : bool := (48 <=? c) && (c <=? 57).

Fixpoint trimStart (s : jsstring) : jsstring :=
  match s with
  | c :: s' => if isWhiteSpace c then trimStart s' else s
  | [] => []
  end.

(** The value of the longest prefix of decimal digits, read left to right
    with the accumulator [acc]; [seen] says whether a digit was read. *)
Fixpoint digits_value (s : jsstring) (acc : Z) (seen : bool) : option Z :=
  match s with
  | c :: s' =>
      if isDigit c then digits_value s' (10 * acc + (c - 48)) true
      else if seen then Some acc else None
  | [] => if seen then Some acc else None
  end.

(** [parseInt(value, 10)]: blanks are skipped, one sign is read, then the
    longest run of digits; [None] is NaN.  The result is the mathematical
    integer: a Number would round it once it exceeds 2^53, but
    [clampDuration], the only consumer, maps the rounded and the exact value
    to the same result since both bounds are exact Numbers and rounding is
    monotone. *)
Definition parseInt (value : jsstring) : option Z :=
  match trimStart value with
  | c :: s' =>
      if c =? 45 then option_map Z.opp (digits_value s' 0 false)
      else if c =? 43 then digits_value s' 0 false
      else digits_value (c :: s') 0 false
  | [] => None
  end.

Definition MINIMUM_DURATION : Z := 1000.
Definition MAXIMUM_DURATION : Z := 18000000.

Definition clampDuration (n : Z) : Z :=
  Z.min (Z.max n MINIMUM_DURATION) MAXIMUM_DURATION.

(** [value == null] is [None]; a NaN from [parseInt] falls back to [def]. *)
Definition parseDuration (value : option jsstring) (def : Z) : Z :=
  let n := match value with None => Some def | Some v => parseInt v end in
  clampDuration (match n with Some n => n | None => def end).

(** ** contentTypeRegExp

    The whole input is [text/event-stream], in any letter case, optionally
    followed by a semicolon and any characters that [.] matches. *)

(** Case folding of the [i] flag without the [u] flag: only the ASCII letters
    have a partner among the characters of the pattern. *)
Definition lower (c : Z) : Z := if (65 <=? c) && (c <=? 90) then c + 32 else c.

Fixpoint starts_with_ci (pat s : jsstring) : option jsstring :=
  match pat, s with
  | [], _ => Some s
  | p :: pat', c :: s' => if lower c =? p then starts_with_ci pat' s' else None
  | _ :: _, [] => None
  end.

(** The characters [.] does not match. *)
Definition isLineTerminator (c : Z) : bool :=
  (c =? 10) || (c =? 13) || (c =? 8232) || (c =? 8233).

Definition contentTypeRegExp_test (contentType : jsstring) : bool :=
  match starts_with_ci (str "text/event-stream") contentType with
  | Some [] => true
  | Some (c :: params) => (c =? 59) && forallb (fun x => negb (isLineTerminator x)) params
  | None => false
  end.

(** ** States, events and effects *)

Inductive ConnState := WAITING | CONNECTING | OPEN | CLOSED.

Inductive LineState := AFTER_CR | FIELD_START | FIELD | VALUE_START | VALUE.

Definition ConnState_eqb (a b : ConnState) : bool :=
  match a, b with
  | WAITING, WAITING | CONNECTING, CONNECTING | OPEN, OPEN | CLOSED, CLOSED => true
  | _, _ => false
  end.

Definition LineState_eqb (a b : LineState) : bool :=
  match a, b with
  | AFTER_CR, AFTER_CR | FIELD_START, FIELD_START | FIELD, FIELD
  | VALUE_START, VALUE_START | VALUE, VALUE => true
  | _, _ => false
  end.

Definition Headers := list (jsstring * jsstring).

(** The [Error] the watchdog builds (its message is kept as its three
    ingredients) or an error the transport reports. *)
Inductive JsError :=
| NoActivity (heartbeatTimeout : Z) (noResponse : bool) (textLength : Z)
| TransportError (message : jsstring).

Inductive Event :=
| ConnectionEvent (type : jsstring) (status : Z) (statusText : jsstring) (headers : Headers)
| MessageEvent (type : jsstring) (data : jsstring) (lastEventId : jsstring)
| ErrorEvent (error : option JsError).

Inductive Handler := onopen | onmessage | onerror.

Inductive ConsoleMessage :=
| BadStatus (status : Z) (statusText : jsstring)
| BadContentType (contentType : option jsstring)
| Reported (error : JsError).

(** What the callbacks do to the world outside: events for the listeners and
    the handler properties, timers, the transport, the console, and the call
    of the host's global [close] that line 239 makes. *)
Inductive Effect :=
| DispatchEvent (event : Event)
| Fire (handler : Handler) (event : Event)
| SetTimeout (delay : Z)
| ClearTimeout
| Abort
| ConsoleError (message : ConsoleMessage)
| TransportOpen (requestURL : jsstring) (withCredentials : bool) (requestHeaders : Headers)
| GlobalClose
| Throw.

(** A log entry: the connection state in which the effect happened, and the
    effect. *)
Definition Entry := (ConnState * Effect)%type.

(** A pending timer: when [setTimeout] was called and with which delay. *)
Record Timer := { armedAt : Z; delay : Z }.

(** The closure variables of the constructor.  [timeout] is [None] for the
    [0] of "no timer"; [abortController] is [true] when a transport handle is
    held; [wasActivity] is [None] for [false]. *)
Record EventSource := {
  readyState : ConnState;
  initialRetry : Z;
  heartbeatTimeout : Z;
  lastEventId : jsstring;
  retry : Z;
  wasActivity : option Z;
  textLength : Z;
  abortController : bool;
  timeout : option Timer;
  currentState : ConnState;
  dataBuffer : jsstring;
  lastEventIdBuffer : jsstring;
  eventTypeBuffer : jsstring;
  textBuffer : jsstring;
  state : LineState;
  fieldStart : Z;
  valueStart : Z;
  log : list Entry
}.

Definition set_readyState v (s : EventSource) : EventSource :=
  Build_EventSource v (initialRetry s) (heartbeatTimeout s) (lastEventId s) (retry s)
    (wasActivity s) (textLength s) (abortController s) (timeout s) (currentState s)
    (dataBuffer s) (lastEventIdBuffer s) (eventTypeBuffer s) (textBuffer s) (state s)
    (fieldStart s) (valueStart s) (log s).

Definition set_initialRetry v (s : EventSource) : EventSource :=
  Build_EventSource (readyState s) v (heartbeatTimeout s) (lastEventId s) (retry s)
    (wasActivity s) (textLength s) (abortController s) (timeout s) (currentState s)
    (dataBuffer s) (lastEventIdBuffer s) (eventTypeBuffer s) (textBuffer s) (state s)
    (fieldStart s) (valueStart s) (log s).

Definition set_heartbeatTimeout v (s : EventSource) : EventSource :=
  Build_EventSource (readyState s) (initialRetry s) v (lastEventId s) (retry s)
    (wasActivity s) (textLength s) (abortController s) (timeout s) (currentState s)
    (dataBuffer s) (lastEventIdBuffer s) (eventTypeBuffer s) (textBuffer s) (state s)
    (fieldStart s) (valueStart s) (log s).

Definition set_lastEventId v (s : EventSource) : EventSource :=
  Build_EventSource (readyState s) (initialRetry s) (heartbeatTimeout s) v (retry s)
    (wasActivity s) (textLength s) (abortController s) (timeout s) (currentState s)
    (dataBuffer s) (lastEventIdBuffer s) (eventTypeBuffer s) (textBuffer s) (state s)
    (fieldStart s) (valueStart s) (log s).

Definition set_retry v (s : EventSource) : EventSource :=
  Build_EventSource (readyState s) (initialRetry s) (heartbeatTimeout s) (lastEventId s) v
    (wasActivity s) (textLength s) (abortController s) (timeout s) (currentState s)
    (dataBuffer s) (lastEventIdBuffer s) (eventTypeBuffer s) (textBuffer s) (state s)
    (fieldStart s) (valueStart s) (log s).

Definition set_wasActivity v (s : EventSource) : EventSource :=
  Build_EventSource (readyState s) (initialRetry s) (heartbeatTimeout s) (lastEventId s)
    (retry s) v (textLength s) (abortController s) (timeout s) (currentState s)
    (dataBuffer s) (lastEventIdBuffer s) (eventTypeBuffer s) (textBuffer s) (state s)
    (fieldStart s) (valueStart s) (log s).

Definition set_textLength v (s : EventSource) : EventSource :=
  Build_EventSource (readyState s) (initialRetry s) (heartbeatTimeout s) (lastEventId s)
    (retry s) (wasActivity s) v (abortController s) (timeout s) (currentState s)
    (dataBuffer s) (lastEventIdBuffer s) (eventTypeBuffer s) (textBuffer s) (state s)
    (fieldStart s) (valueStart s) (log s).

Definition set_abortController v (s : EventSource) : EventSource :=
  Build_EventSource (readyState s) (initialRetry s) (heartbeatTimeout s) (lastEventId s)
    (retry s) (wasActivity s) (textLength s) v (timeout s) (currentState s) (dataBuffer s)
    (lastEventIdBuffer s) (eventTypeBuffer s) (textBuffer s) (state s) (fieldStart s)
    (valueStart s) (log s).

Definition set_timeout v (s : EventSource) : EventSource :=
  Build_EventSource (readyState s) (initialRetry s) (heartbeatTimeout s) (lastEventId s)
    (retry s) (wasActivity s) (textLength s) (abortController s) v (currentState s)
    (dataBuffer s) (lastEventIdBuffer s) (eventTypeBuffer s) (textBuffer s) (state s)
    (fieldStart s) (valueStart s) (log s).

Definition set_currentState v (s : EventSource) : EventSource :=
  Build_EventSource (readyState s) (initialRetry s) (heartbeatTimeout s) (lastEventId s)
    (retry s) (wasActivity s) (textLength s) (abortController s) (timeout s) v
    (dataBuffer s) (lastEventIdBuffer s) (eventTypeBuffer s) (textBuffer s) (state s)
    (fieldStart s) (valueStart s) (log s).

Definition set_dataBuffer v (s : EventSource) : EventSource :=
  Build_EventSource (readyState s) (initialRetry s) (heartbeatTimeout s) (lastEventId s)
    (retry s) (wasActivity s) (textLength s) (abortController s) (timeout s)
    (currentState s) v (lastEventIdBuffer s) (eventTypeBuffer s) (textBuffer s) (state s)
    (fieldStart s) (valueStart s) (log s).

Definition set_lastEventIdBuffer v (s : EventSource) : EventSource :=
  Build_EventSource (readyState s) (initialRetry s) (heartbeatTimeout s) (lastEventId s)
    (retry s) (wasActivity s) (textLength s) (abortController s) (timeout s)
    (currentState s) (dataBuffer s) v (eventTypeBuffer s) (textBuffer s) (state s)
    (fieldStart s) (valueStart s) (log s).

Definition set_eventTypeBuffer v (s : EventSource) : EventSource :=
  Build_EventSource (readyState s) (initialRetry s) (heartbeatTimeout s) (lastEventId s)
    (retry s) (wasActivity s) (textLength s) (abortController s) (timeout s)
    (currentState s) (dataBuffer s) (lastEventIdBuffer s) v (textBuffer s) (state s)
    (fieldStart s) (valueStart s) (log s).

Definition set_textBuffer v (s : EventSource) : EventSource :=
  Build_EventSource (readyState s) (initialRetry s) (heartbeatTimeout s) (lastEventId s)
    (retry s) (wasActivity s) (textLength s) (abortController s) (timeout s)
    (currentState s) (dataBuffer s) (lastEventIdBuffer s) (eventTypeBuffer s) v (state s)
    (fieldStart s) (valueStart s) (log s).

Definition set_state v (s : EventSource) : EventSource :=
  Build_EventSource (readyState s) (initialRetry s) (heartbeatTimeout s) (lastEventId s)
    (retry s) (wasActivity s) (textLength s) (abortController s) (timeout s)
    (currentState s) (dataBuffer s) (lastEventIdBuffer s) (eventTypeBuffer s)
    (textBuffer s) v (fieldStart s) (valueStart s) (log s).

Definition set_fieldStart v (s : EventSource) : EventSource :=
  Build_EventSource (readyState s) (initialRetry s) (heartbeatTimeout s) (lastEventId s)
    (retry s) (wasActivity s) (textLength s) (abortController s) (timeout s)
    (currentState s) (dataBuffer s) (lastEventIdBuffer s) (eventTypeBuffer s)
    (textBuffer s) (state s) v (valueStart s) (log s).

Definition set_valueStart v (s : EventSource) : EventSource :=
  Build_EventSource (readyState s) (initialRetry s) (heartbeatTimeout s) (lastEventId s)
    (retry s) (wasActivity s) (textLength s) (abortController s) (timeout s)
    (currentState s) (dataBuffer s) (lastEventIdBuffer s) (eventTypeBuffer s)
    (textBuffer s) (state s) (fieldStart s) v (log s).

Definition set_log v (s : EventSource) : EventSource :=
  Build_EventSource (readyState s) (initialRetry s) (heartbeatTimeout s) (lastEventId s)
    (retry s) (wasActivity s) (textLength s) (abortController s) (timeout s)
    (currentState s) (dataBuffer s) (lastEventIdBuffer s) (eventTypeBuffer s)
    (textBuffer s) (state s) (fieldStart s) (valueStart s) v.

(** The part of the constructor's arguments the callbacks read. *)
Record Config := { url : jsstring; withCredentials : bool; headers : Headers }.

(** The variables as the constructor initialises them, before its call of
    [onTimeout]. *)
Definition initial : EventSource :=
  {| readyState := CONNECTING;
     initialRetry := clampDuration 1000;
     heartbeatTimeout := parseDuration None 45000;
     lastEventId := [];
     retry := clampDuration 1000;
     wasActivity := None;
     textLength := 0;
     abortController := false;
     timeout := None;
     currentState := WAITING;
     dataBuffer := [];
     lastEventIdBuffer := [];
     eventTypeBuffer := [];
     textBuffer := [];
     state := FIELD_START;
     fieldStart := 0;
     valueStart := 0;
     log := [] |}.

Section Callbacks.

(** What the registered listeners do.  The only operation of the object that
    changes a closure variable is [close]; [closes l] says whether a listener
    run by the call that is the last entry of [l] calls it. *)
Variable closes : list Entry -> bool.

Definition emit (e : Effect) (s : EventSource) : EventSource :=
  set_log (log s ++ [(currentState s, e)]) s.

Definition setTimeout (now : Z) (d : Z) (s : EventSource) : EventSource :=
  set_timeout (Some {| armedAt := now; delay := d |}) (emit (SetTimeout d) s).

Definition clearTimeout (s : EventSource) : EventSource := emit ClearTimeout s.

(** [this.close], lines 474-485. *)
Definition close (s : EventSource) : EventSource :=
  let s := set_currentState CLOSED s in
  let s := if abortController s then set_abortController false (emit Abort s) else s in
  let s := match timeout s with
           | Some _ => set_timeout None (clearTimeout s)
           | None => s
           end in
  set_readyState CLOSED s.

Definition run_listeners (s : EventSource) : EventSource :=
  if closes (log s) then close s else s.

Definition dispatchEvent (event : Event) (s : EventSource) : EventSource :=
  run_listeners (emit (DispatchEvent event) s).

Definition fire (h : Handler) (event : Event) (s : EventSource) : EventSource :=
  run_listeners (emit (Fire h event) s).

(** [onStart], lines 202-250.

    The call [close()] of line 239 is not a call of the function above: that
    one is only ever stored in [this.close] (line 474), the method [close] of
    line 488 is a property of the prototype, and neither the constructor nor
    the module binds the name [close].  The identifier is therefore the
    host's global [close] ([window.close] in a browser, where this build
    runs).  It cannot reach the variables of the constructor, so all it
    leaves in the model is the entry [GlobalClose] of the log; it is taken to
    return. *)
Definition onStart (now : Z) (status : Z) (statusText : jsstring)
  (contentType : option jsstring) (responseHeaders : Headers) (s : EventSource)
  : EventSource :=
  match currentState s with
  | CONNECTING =>
      if (status =? 200)
         && match contentType with
            | Some ct => contentTypeRegExp_test ct
            | None => false
            end
      then
        let s := set_currentState OPEN s in
        let s := set_wasActivity (Some now) s in
        let s := set_retry (initialRetry s) s in
        let s := set_readyState OPEN s in
        let event := ConnectionEvent (str "open") status statusText responseHeaders in
        let s := dispatchEvent event s in
        fire onopen event s
      else
        let statusText' :=
          if negb (status =? 200)
          then match statusText with [] => statusText | _ => collapse_ws statusText end
          else statusText in
        let message :=
          if negb (status =? 200) then BadStatus status statusText'
          else BadContentType (option_map collapse_ws contentType) in
        let s := emit GlobalClose s in
        let event := ConnectionEvent (str "error") status statusText' responseHeaders in
        let s := dispatchEvent event s in
        let s := fire onerror event s in
        emit (ConsoleError message) s
  | _ => s
  end.

(** Lines 288-306: what a line with the given field name and value does. *)
Definition process_field (now : Z) (field value : jsstring) (s : EventSource)
  : EventSource :=
  if str_eqb field (str "data") then
    let s := set_dataBuffer (dataBuffer s ++ [LF]) s in
    set_dataBuffer (dataBuffer s ++ value) s
  else if str_eqb field (str "id") then set_lastEventIdBuffer value s
  else if str_eqb field (str "event") then set_eventTypeBuffer value s
  else if str_eqb field (str "retry") then
    let s := set_initialRetry (parseDuration (Some value) (initialRetry s)) s in
    set_retry (initialRetry s) s
  else if str_eqb field (str "heartbeatTimeout") then
    let s := set_heartbeatTimeout (parseDuration (Some value) (heartbeatTimeout s)) s in
    match timeout s with
    | Some _ => setTimeout now (heartbeatTimeout s) (clearTimeout s)
    | None => s
    end
  else s.

(** Lines 277-306: a line that is not blank ends at [position]. *)
Definition end_of_field (now : Z) (chunk : jsstring) (position : Z) (s : EventSource)
  : EventSource :=
  let s := match state s with FIELD => set_valueStart (position + 1) s | _ => s end in
  let field := slice chunk (fieldStart s) (valueStart s - 1) in
  let value :=
    slice chunk
      (valueStart s
       + (if (valueStart s <? position) && opt_eqb (charCodeAt chunk (valueStart s)) SPACE
          then 1 else 0))
      position in
  process_field now field value s.

(** Lines 314-325: the record goes to the listeners of its type, then to
    the handler property that matches the type. *)
Definition deliver (s : EventSource) : EventSource :=
  let event :=
    MessageEvent (eventTypeBuffer s) (slice_from (dataBuffer s) 1) (lastEventIdBuffer s) in
  let s := dispatchEvent event s in
  if str_eqb (eventTypeBuffer s) (str "open") then fire onopen event s
  else if str_eqb (eventTypeBuffer s) (str "message") then fire onmessage event s
  else if str_eqb (eventTypeBuffer s) (str "error") then fire onerror event s
  else s.

(** Lines 308-333: a blank line.  The boolean is [true] when the function
    returns from [onProgress] (line 328). *)
Definition dispatch_point (s : EventSource) : EventSource * bool :=
  match dataBuffer s with
  | [] => (set_eventTypeBuffer [] (set_dataBuffer [] s), false)
  | _ :: _ =>
      let s := set_lastEventId (lastEventIdBuffer s) s in
      let s := match eventTypeBuffer s with
               | [] => set_eventTypeBuffer (str "message") s
               | _ :: _ => s
               end in
      let s := deliver s in
      match currentState s with
      | CLOSED => (s, true)
      | _ => (set_eventTypeBuffer [] (set_dataBuffer [] s), false)
      end
  end.

(** The body of the scanning loop, lines 268-349, for the character [c] at
    [position] of [chunk].  The boolean is [true] when the body returns from
    [onProgress]. *)
Definition scan_char (now : Z) (chunk : jsstring) (position : Z) (c : Z)
  (s : EventSource) : EventSource * bool :=
  if LineState_eqb (state s) AFTER_CR && (c =? LF) then (set_state FIELD_START s, false)
  else
    let s := if LineState_eqb (state s) AFTER_CR then set_state FIELD_START s else s in
    if (c =? CR) || (c =? LF) then
      let s := if negb (LineState_eqb (state s) FIELD_START)
               then end_of_field now chunk position s else s in
      let (s, returned) := if LineState_eqb (state s) FIELD_START
                           then dispatch_point s else (s, false) in
      if returned then (s, true)
      else (set_state (if c =? CR then AFTER_CR else FIELD_START) s, false)
    else
      let s := if LineState_eqb (state s) FIELD_START
               then set_state FIELD (set_fieldStart position s) else s in
      let s := if LineState_eqb (state s) FIELD
               then (if c =? COLON
                     then set_state VALUE_START (set_valueStart (position + 1) s)
                     else s)
               else if LineState_eqb (state s) VALUE_START then set_state VALUE s
               else s in
      (s, false).

(** The loop of lines 267-350: [rest] is what is left of [chunk] from
    [position] on. *)
Fixpoint scan_from (now : Z) (chunk rest : jsstring) (position : Z) (s : EventSource)
  : EventSource :=
  match rest with
  | [] => s
  | c :: rest' =>
      let (s', returned) := scan_char now chunk position c s in
      if returned then s' else scan_from now chunk rest' (position + 1) s'
  end.

Definition scan (now : Z) (chunk : jsstring) (s : EventSource) : EventSource :=
  scan_from now chunk chunk 0 s.

(** The loop of lines 254-260: the index of the last line terminator of
    [textChunk] from index [i] on, [n] when there is none. *)
Fixpoint last_terminator (textChunk : jsstring) (i : Z) (n : Z) : Z :=
  match textChunk with
  | [] => n
  | c :: rest => last_terminator rest (i + 1) (if (c =? LF) || (c =? CR) then i else n)
  end.

(** [onProgress], lines 252-352. *)
Definition onProgress (now : Z) (textChunk : jsstring) (s : EventSource) : EventSource :=
  match currentState s with
  | OPEN =>
      let n := last_terminator textChunk 0 (-1) in
      let chunk := (if negb (n =? -1) then textBuffer s else []) ++ slice textChunk 0 (n + 1) in
      let s := set_textBuffer
                 ((if n =? -1 then textBuffer s else []) ++ slice_from textChunk (n + 1)) s in
      let s := match textChunk with
               | [] => s
               | _ :: _ =>
                   let s := set_wasActivity (Some now) s in
                   set_textLength (textLength s + jslength textChunk) s
               end in
      scan now chunk s
  | _ => s
  end.

(** [onFinish], lines 354-374. *)
Definition onFinish (now : Z) (error : option JsError) (s : EventSource) : EventSource :=
  match currentState s with
  | OPEN | CONNECTING =>
      let s := set_currentState WAITING s in
      let s := match timeout s with
               | Some _ => set_timeout None (clearTimeout s)
               | None => s
               end in
      let s := setTimeout now (retry s) s in
      let s := set_retry (clampDuration (Z.min (initialRetry s * 16) (retry s * 2))) s in
      let s := set_readyState CONNECTING s in
      let event := ErrorEvent error in
      let s := dispatchEvent event s in
      let s := fire onerror event s in
      match error with
      | Some e => emit (ConsoleError (Reported e)) s
      | None => s
      end
  | _ => s
  end.

(** ** The request URL, lines 428-447 *)

(** [encodeURIComponent]: the characters it leaves alone. *)
Definition uriUnescaped (c : Z) : bool :=
  ((65 <=? c) && (c <=? 90)) || ((97 <=? c) && (c <=? 122)) || isDigit c
  || (c =? 45) || (c =? 95) || (c =? 46) || (c =? 33) || (c =? 126)
  || (c =? 42) || (c =? 39) || (c =? 40) || (c =? 41).

Definition hexDigit (n : Z) : Z := if n <? 10 then 48 + n else 55 + n.

Definition percent (octet : Z) : jsstring := [37; hexDigit (octet / 16); hexDigit (octet mod 16)].

Definition utf8 (cp : Z) : list Z :=
  if cp <? 128 then [cp]
  else if cp <? 2048 then [192 + cp / 64; 128 + cp mod 64]
  else if cp <? 65536 then [224 + cp / 4096; 128 + (cp / 64) mod 64; 128 + cp mod 64]
  else [240 + cp / 262144; 128 + (cp / 4096) mod 64; 128 + (cp / 64) mod 64; 128 + cp mod 64].

Definition isLeadSurrogate (c : Z) : bool := (55296 <=? c) && (c <=? 56319).
Definition isTrailSurrogate (c : Z) : bool := (56320 <=? c) && (c <=? 57343).

(** [encodeURIComponent(s)]; [None] is the URIError of a lone surrogate. *)
Fixpoint encodeURIComponent (s : jsstring) : option jsstring :=
  match s with
  | [] => Some []
  | c :: rest =>
      if uriUnescaped c then option_map (cons c) (encodeURIComponent rest)
      else if isTrailSurrogate c then None
      else if isLeadSurrogate c then
        match rest with
        | d :: rest' =>
            if isTrailSurrogate d
            then option_map
                   (app (flat_map percent (utf8 ((c - 55296) * 1024 + (d - 56320) + 65536))))
                   (encodeURIComponent rest')
            else None
        | [] => None
        end
      else option_map (app (flat_map percent (utf8 c))) (encodeURIComponent rest)
  end.

Fixpoint take_while (p : Z -> bool) (s : jsstring) : jsstring :=
  match s with
  | c :: s' => if p c then c :: take_while p s' else []
  | [] => []
  end.

(** One attempt at index [i] of [q] of the pattern of line 437 (the start of
    the input or an ampersand; a captured run of characters other than [=]
    and [&]; optionally [=] and a run of characters other than [&]): the end
    of the match and the first group.  At index 0 the alternative [^] is
    tried first and the rest of the pattern cannot fail after it; elsewhere
    only [&] can start a match. *)
Definition match_at (q : jsstring) (i : nat) : option (nat * jsstring) :=
  let rest := skipn i q in
  let after :=
    match i with
    | O => Some (O, rest)
    | _ => match rest with
           | c :: r => if c =? AMP then Some (1%nat, r) else None
           | [] => None
           end
    end in
  match after with
  | None => None
  | Some (k, r) =>
      let paramName := take_while (fun c => negb ((c =? EQUALS) || (c =? AMP))) r in
      let r1 := skipn (List.length paramName) r in
      let value :=
        match r1 with
        | c :: r2 => if c =? EQUALS then c :: take_while (fun c => negb (c =? AMP)) r2 else []
        | [] => []
        end in
      Some ((i + k + List.length paramName + List.length value)%nat, paramName)
  end.

(** RegExpBuiltinExec for a global pattern: the first index from [lastIndex]
    on at which the pattern matches, trying at most [fuel] indices. *)
Fixpoint exec_from (fuel : nat) (q : jsstring) (lastIndex : nat)
  : option (nat * nat * jsstring) :=
  match fuel with
  | O => None
  | S fuel' =>
      if (List.length q <? lastIndex)%nat then None
      else match match_at q lastIndex with
           | Some (e, paramName) => Some (lastIndex, e, paramName)
           | None => exec_from fuel' q (S lastIndex)
           end
  end.

(** The global [replace] of line 437 with the callback of lines 437-439: a
    match whose first group is [paramToDrop] is replaced by the empty string,
    any other by itself; after an empty match [lastIndex] advances by one. *)
Fixpoint replace_from (fuel : nat) (paramToDrop q : jsstring) (lastIndex nextSourcePosition : nat)
  : jsstring :=
  match fuel with
  | O => skipn nextSourcePosition q
  | S fuel' =>
      match exec_from (S (List.length q)) q lastIndex with
      | None => skipn nextSourcePosition q
      | Some (index, e, paramName) =>
          let p := firstn (e - index) (skipn index q) in
          let replacement := if str_eqb paramName paramToDrop then [] else p in
          firstn (index - nextSourcePosition) (skipn nextSourcePosition q)
          ++ replacement
          ++ replace_from fuel' paramToDrop q (if (e =? index)%nat then S e else e) e
      end
  end.

Definition lastEventIdQueryParameterName : jsstring := str "lastEventId".

Definition remove_parameter (q : jsstring) : jsstring :=
  replace_from (S (S (List.length q))) lastEventIdQueryParameterName q 0 0.

(** The request URL; [None] when [encodeURIComponent] throws. *)
Definition requestURL (url : jsstring) (lastEventId : jsstring) : option jsstring :=
  if negb (str_eqb (slice url 0 5) (str "data:")) && negb (str_eqb (slice url 0 5) (str "blob:"))
  then
    match lastEventId with
    | [] => Some url
    | _ :: _ =>
        let i := indexOf url QUESTION in
        let requestURL :=
          if i =? -1 then url
          else slice url 0 (i + 1) ++ remove_parameter (slice_from url (i + 1)) in
        match encodeURIComponent lastEventId with
        | Some encoded =>
            Some (requestURL
                  ++ (if indexOf url QUESTION =? -1 then [QUESTION] else [AMP])
                  ++ lastEventIdQueryParameterName ++ [EQUALS] ++ encoded)
        | None => None
        end
    end
  else Some url.

(** The request headers of lines 448-456.  The object is the list of its
    own properties, in the order the object keeps them: the names that are
    array indices first, in ascending order, then the other names in the
    order of their creation.  [headers] of [Config] lists the own
    enumerable properties of the caller's object as the loop of line 451
    visits them. *)

(** The value of the own property [name], if the object has one. *)
Fixpoint own_property (name : jsstring) (h : Headers) : option jsstring :=
  match h with
  | [] => None
  | (n, v) :: h' => if str_eqb n name then Some v else own_property name h'
  end.

Fixpoint digits_only (s : jsstring) (acc : Z) : option Z :=
  match s with
  | [] => Some acc
  | c :: s' => if isDigit c then digits_only s' (10 * acc + (c - 48)) else None
  end.

(** The array index a property name stands for: a decimal numeral without a
    leading zero whose value is below 2^32 - 1. *)
Definition array_index (name : jsstring) : option Z :=
  match name with
  | [] => None
  | c :: rest =>
      if (c =? 48) && negb (match rest with [] => true | _ :: _ => false end) then None
      else match digits_only name 0 with
           | Some n => if n <=? 4294967294 then Some n else None
           | None => None
           end
  end.

Fixpoint replace_value (name value : jsstring) (h : Headers) : Headers :=
  match h with
  | [] => []
  | (n, v) :: h' =>
      if str_eqb n name then (n, value) :: h' else (n, v) :: replace_value name value h'
  end.

(** A new property with the array index [i]: after the smaller indices. *)
Fixpoint insert_index (i : Z) (name value : jsstring) (h : Headers) : Headers :=
  match h with
  | [] => [(name, value)]
  | (n, v) :: h' =>
      match array_index n with
      | Some j => if j <? i then (n, v) :: insert_index i name value h'
                  else (name, value) :: h
      | None => (name, value) :: h
      end
  end.

(** [requestHeaders[name] = value] (line 453), for the string [value] and an
    object made by [{}]: the name [__proto__] finds the setter of
    [Object.prototype], which ignores a value that is neither an object nor
    null, so that nothing is stored; an own property keeps its place and
    gets the value; any other name becomes a new own property. *)
Definition assign (name value : jsstring) (h : Headers) : Headers :=
  if str_eqb name (str "__proto__") then h
  else match own_property name h with
       | Some _ => replace_value name value h
       | None =>
           match array_index name with
           | Some i => insert_index i name value h
           | None => h ++ [(name, value)]
           end
       end.

Definition requestHeaders (headers : Headers) : Headers :=
  fold_left (fun h nv => assign (fst nv) (snd nv) h) headers
    [(str "Accept", str "text/event-stream")].

(** [onTimeout], lines 376-470.  [transport.open] is taken to return: the
    transport reports what goes wrong through [onFinish]. *)
Definition onTimeout (cfg : Config) (now : Z) (s : EventSource) : EventSource :=
  let s := set_timeout None s in
  match currentState s with
  | WAITING =>
      let s := set_wasActivity None s in
      let s := set_textLength 0 s in
      let s := setTimeout now (heartbeatTimeout s) s in
      let s := set_currentState CONNECTING s in
      let s := set_dataBuffer [] s in
      let s := set_eventTypeBuffer [] s in
      let s := set_lastEventIdBuffer (lastEventId s) s in
      let s := set_textBuffer [] s in
      let s := set_fieldStart 0 s in
      let s := set_valueStart 0 s in
      let s := set_state FIELD_START s in
      match requestURL (url cfg) (lastEventId s) with
      | Some requestURL =>
          set_abortController true
            (emit (TransportOpen requestURL (withCredentials cfg) (requestHeaders (headers cfg))) s)
      | None => emit Throw s
      end
  | _ =>
      let falsy := match wasActivity s with None => true | Some t => t =? 0 end in
      if falsy && abortController s then
        let s := onFinish now
                   (Some (NoActivity (heartbeatTimeout s)
                            (ConnState_eqb (currentState s) CONNECTING) (textLength s))) s in
        if abortController s then set_abortController false (emit Abort s) else s
      else
        let nextHeartbeat :=
          Z.max ((match wasActivity s with Some t => t | None => now end)
                 + heartbeatTimeout s - now) 1 in
        let s := set_wasActivity None s in
        setTimeout now nextHeartbeat s
  end.

End Callbacks.

(** * Strings: slices and comparisons *)

Lemma str_eqb_eq (a b : jsstring) : str_eqb a b = true <-> a = b.
Proof.
  revert b; induction a as [|x a IH]; intros [|y b]; simpl; split; try easy.
  - rewrite andb_true_iff, Z.eqb_eq, IH. now intros [-> ->].
  - intros H; injection H as -> ->. now rewrite Z.eqb_refl, (proj2 (IH b)).
Qed.

Lemma str_eqb_refl (a : jsstring) : str_eqb a a = true.
Proof. now apply str_eqb_eq. Qed.

Lemma jslength_app (a b : jsstring) : jslength (a ++ b) = jslength a + jslength b.
Proof. unfold jslength. rewrite length_app. lia. Qed.

Lemma jslength_nonneg (a : jsstring) : 0 <= jslength a.
Proof. unfold jslength. lia. Qed.

Lemma jslength_cons (c : Z) (a : jsstring) : jslength (c :: a) = jslength a + 1.
Proof. unfold jslength. simpl List.length. lia. Qed.

(** A slice between two cut points of a concatenation is the middle part. *)
Lemma slice_middle (a b c : jsstring) :
  slice (a ++ b ++ c) (jslength a) (jslength a + jslength b) = b.
Proof.
  unfold slice.
  pose proof (jslength_nonneg a); pose proof (jslength_nonneg b);
    pose proof (jslength_nonneg c).
  rewrite !jslength_app.
  destruct (Z.ltb_spec (jslength a) 0); [lia|].
  destruct (Z.ltb_spec (jslength a + jslength b) 0); [lia|].
  rewrite !Z.min_l by lia.
  replace (Z.max (jslength a + jslength b - jslength a) 0) with (jslength b) by lia.
  unfold jslength. rewrite !Nat2Z.id.
  rewrite skipn_app, skipn_all, Nat.sub_diag. simpl.
  rewrite firstn_app, firstn_all, Nat.sub_diag. simpl. now rewrite app_nil_r.
Qed.

(** A slice whose start is not before its end is empty. *)
Lemma slice_empty (s : jsstring) (i j : Z) : 0 <= j <= i -> slice s i j = [].
Proof.
  intros H. unfold slice.
  pose proof (jslength_nonneg s).
  destruct (Z.ltb_spec i 0); [lia|]. destruct (Z.ltb_spec j 0); [lia|].
  replace (Z.max (Z.min j (jslength s) - Z.min i (jslength s)) 0) with 0 by lia.
  reflexivity.
Qed.

Lemma slice_prefix (a b : jsstring) : slice (a ++ b) 0 (jslength a) = a.
Proof. apply (slice_middle [] a b). Qed.

Lemma slice_from_suffix (a b : jsstring) : slice_from (a ++ b) (jslength a) = b.
Proof.
  unfold slice_from. rewrite jslength_app.
  pose proof (slice_middle a b []) as H. now rewrite app_nil_r in H.
Qed.

Lemma charCodeAt_middle (a : jsstring) (x : Z) (b : jsstring) :
  charCodeAt (a ++ x :: b) (jslength a) = Some x.
Proof.
  unfold charCodeAt. pose proof (jslength_nonneg a).
  destruct (Z.ltb_spec (jslength a) 0); [lia|].
  unfold jslength. rewrite Nat2Z.id.
  rewrite nth_error_app2 by lia. now rewrite Nat.sub_diag.
Qed.

(** * The parser as a machine on lines

    The scanning loop finds the field name and the value of a line by
    offsets into the chunk; the machine below keeps the characters of the
    unfinished line instead, which makes it a fold over its input. *)

Definition field_of (line : jsstring) : jsstring :=
  take_while (fun c => negb (c =? COLON)) line.

Definition value_of (line : jsstring) : jsstring :=
  match skipn (List.length (field_of line)) line with
  | _ :: c :: v => if c =? SPACE then v else c :: v
  | _ => []
  end.

Definition line_state (line : jsstring) : LineState :=
  match skipn (List.length (field_of line)) line with
  | [] => FIELD
  | [_] => VALUE_START
  | _ => VALUE
  end.

(** The variables the parser's results do not depend on: the offsets, the
    time stamps, and the tail [onProgress] itself maintains. *)
Definition core (s : EventSource) : EventSource :=
  set_textBuffer [] (set_textLength 0 (set_wasActivity None
    (set_timeout (option_map (fun t => {| armedAt := 0; delay := delay t |}) (timeout s))
       (set_fieldStart 0 (set_valueStart 0 s))))).

Section LineMachine.

Variable closes : list Entry -> bool.

Definition line_step (x : EventSource * jsstring) (c : Z) : EventSource * jsstring :=
  let (a, line) := x in
  match currentState a with
  | CLOSED => x
  | _ =>
      if (c =? CR) || (c =? LF) then
        match line with
        | [] =>
            if LineState_eqb (state a) AFTER_CR && (c =? LF)
            then (set_state FIELD_START a, [])
            else
              let (a', returned) := dispatch_point closes (set_state FIELD_START a) in
              if returned then (a', [])
              else (set_state (if c =? CR then AFTER_CR else FIELD_START) a', [])
        | _ :: _ =>
            (set_state (if c =? CR then AFTER_CR else FIELD_START)
               (process_field 0 (field_of line) (value_of line) a), [])
        end
      else (set_state (line_state (line ++ [c])) a, line ++ [c])
  end.

Definition line_run (text : jsstring) (x : EventSource * jsstring)
  : EventSource * jsstring :=
  fold_left line_step text x.

Lemma line_run_app (t1 t2 : jsstring) (x : EventSource * jsstring) :
  line_run (t1 ++ t2) x = line_run t2 (line_run t1 x).
Proof. apply fold_left_app. Qed.

(** ** [core] commutes with the operations of the loop *)

Lemma core_close (s : EventSource) : core (close s) = close (core s).
Proof.
  destruct s as [? ? ? ? ? ? ? ac tm ? ? ? ? ? ? ? ? ?].
  unfold close, clearTimeout, emit, core. simpl. destruct ac, tm; reflexivity.
Qed.

Lemma core_run_listeners (s : EventSource) : core (run_listeners closes s) = run_listeners closes (core s).
Proof. unfold run_listeners. simpl. destruct (closes (log s)); [apply core_close|reflexivity]. Qed.

Lemma core_dispatchEvent (e : Event) (s : EventSource) :
  core (dispatchEvent closes e s) = dispatchEvent closes e (core s).
Proof. unfold dispatchEvent. now rewrite core_run_listeners. Qed.

Lemma core_fire (h : Handler) (e : Event) (s : EventSource) :
  core (fire closes h e s) = fire closes h e (core s).
Proof. unfold fire. now rewrite core_run_listeners. Qed.

Lemma core_process_field (now : Z) (f v : jsstring) (s : EventSource) :
  core (process_field now f v s) = process_field 0 f v (core s).
Proof.
  destruct s as [? ? ? ? ? ? ? ac tm ? ? ? ? ? ? ? ? ?].
  unfold process_field.
  repeat match goal with |- context [if ?b then _ else _] => destruct b; [reflexivity|] end.
  destruct (str_eqb f (str "heartbeatTimeout")); [|reflexivity].
  simpl. destruct tm; reflexivity.
Qed.

(** What the listeners can change: a call of [close] leaves the variables
    as [closed] does, and adds to the log. *)
Definition closed (s : EventSource) : EventSource :=
  set_readyState CLOSED
    (set_timeout None (set_abortController false (set_currentState CLOSED s))).

Definition closing_log (s : EventSource) : list Entry :=
  (if abortController s then [(CLOSED, Abort)] else [])
  ++ match timeout s with Some _ => [(CLOSED, ClearTimeout)] | None => [] end.

Lemma close_eq (s : EventSource) : close s = set_log (log s ++ closing_log s) (closed s).
Proof.
  destruct s as [? ? ? ? ? ? ? ac tm ? ? ? ? ? ? ? ? ?].
  unfold close, clearTimeout, emit, closing_log, closed. simpl.
  destruct ac, tm; simpl; rewrite <- ?app_assoc, ?app_nil_r; reflexivity.
Qed.

(** The entries a call of the listeners adds to the log. *)
Definition listener_entry (e : Entry) : Prop :=
  match snd e with
  | DispatchEvent _ | Fire _ _ | Abort | ClearTimeout => True
  | _ => False
  end.

(** [s'] is [s] after some listeners ran: more log, and maybe closed (the
    log then shows the abort of the transport that was held). *)
Definition listened (s s' : EventSource) : Prop :=
  exists l, Forall listener_entry l
            /\ (s' = set_log (log s ++ l) s
                \/ (s' = set_log (log s ++ l) (closed s)
                    /\ (abortController s = true -> In (CLOSED, Abort) l))).

Lemma listened_refl (s : EventSource) : listened s s.
Proof. exists []. split; [constructor|]. left. rewrite app_nil_r. reflexivity. Qed.

Lemma listened_trans (s1 s2 s3 : EventSource) :
  listened s1 s2 -> listened s2 s3 -> listened s1 s3.
Proof.
  intros (l1 & F1 & H1) (l2 & F2 & H2). exists (l1 ++ l2).
  split; [now apply Forall_app|].
  destruct H1 as [-> | [-> A1]], H2 as [-> | [-> A2]]; simpl; rewrite <- app_assoc.
  - now left.
  - right. split; [reflexivity|]. intros H. apply in_or_app. right. now apply A2.
  - right. split; [reflexivity|]. intros H. apply in_or_app. left. now apply A1.
  - right. split; [reflexivity|]. intros H. apply in_or_app. left. now apply A1.
Qed.

Lemma closing_log_entries (s : EventSource) : Forall listener_entry (closing_log s).
Proof.
  unfold closing_log. apply Forall_app.
  split; [destruct (abortController s)|destruct (timeout s)]; repeat constructor.
Qed.

Lemma listened_run_listeners (s : EventSource) : listened s (run_listeners closes s).
Proof.
  unfold run_listeners. destruct (closes (log s)); [|apply listened_refl].
  rewrite close_eq. eexists. split; [apply closing_log_entries|]. right.
  split; [reflexivity|]. intros H. unfold closing_log. rewrite H. now left.
Qed.

Lemma listened_dispatchEvent (e : Event) (s : EventSource) :
  listened s (dispatchEvent closes e s).
Proof.
  unfold dispatchEvent.
  eapply listened_trans; [|apply listened_run_listeners].
  eexists. split; [|left; reflexivity]. repeat constructor.
Qed.

Lemma listened_fire (h : Handler) (e : Event) (s : EventSource) :
  listened s (fire closes h e s).
Proof.
  unfold fire.
  eapply listened_trans; [|apply listened_run_listeners].
  eexists. split; [|left; reflexivity]. repeat constructor.
Qed.

Lemma listened_deliver (s : EventSource) : listened s (deliver closes s).
Proof.
  unfold deliver.
  repeat match goal with
         | |- context [if ?b then _ else _] => destruct b
         end;
    try (eapply listened_trans; [apply listened_dispatchEvent|apply listened_fire]).
  apply listened_dispatchEvent.
Qed.

Lemma core_deliver (s : EventSource) : core (deliver closes s) = deliver closes (core s).
Proof.
  unfold deliver.
  change (eventTypeBuffer (core s)) with (eventTypeBuffer s).
  change (dataBuffer (core s)) with (dataBuffer s).
  change (lastEventIdBuffer (core s)) with (lastEventIdBuffer s).
  rewrite <- core_dispatchEvent.
  match goal with
  | |- context [eventTypeBuffer (core ?x)] =>
      change (eventTypeBuffer (core x)) with (eventTypeBuffer x)
  end.
  repeat match goal with
         | |- context [if ?b then _ else _] => destruct b; [now rewrite core_fire|]
         end.
  reflexivity.
Qed.

Lemma core_dispatch_point (s : EventSource) :
  dispatch_point closes (core s)
  = (core (fst (dispatch_point closes s)), snd (dispatch_point closes s)).
Proof.
  unfold dispatch_point.
  change (dataBuffer (core s)) with (dataBuffer s).
  destruct (dataBuffer s); [reflexivity|].
  change (lastEventIdBuffer (core s)) with (lastEventIdBuffer s).
  change (set_lastEventId (lastEventIdBuffer s) (core s))
    with (core (set_lastEventId (lastEventIdBuffer s) s)).
  set (s1 := set_lastEventId (lastEventIdBuffer s) s).
  change (eventTypeBuffer (core s1)) with (eventTypeBuffer s1).
  cbv zeta.
  assert (E : match eventTypeBuffer s1 with
              | [] => set_eventTypeBuffer (str "message") (core s1)
              | _ :: _ => core s1
              end
              = core match eventTypeBuffer s1 with
                     | [] => set_eventTypeBuffer (str "message") s1
                     | _ :: _ => s1
                     end) by (destruct (eventTypeBuffer s1); reflexivity).
  rewrite E, <- core_deliver.
  match goal with
  | |- context [currentState (core ?x)] =>
      change (currentState (core x)) with (currentState x); destruct (currentState x)
  end; reflexivity.
Qed.

End LineMachine.

(** ** The field name and the value of a line *)

Definition not_colon (c : Z) : bool := negb (c =? COLON).

Lemma field_of_split (line : jsstring) :
  line = field_of line ++ skipn (List.length (field_of line)) line
  /\ forallb not_colon (field_of line) = true
  /\ (skipn (List.length (field_of line)) line = []
      \/ exists r, skipn (List.length (field_of line)) line = COLON :: r).
Proof.
  unfold field_of. induction line as [|x l IH]; simpl.
  - auto.
  - destruct (Z.eqb_spec x COLON) as [->|Hx]; simpl.
    + split; [reflexivity|]. split; [reflexivity|]. right. now exists l.
    + destruct IH as (H1 & H2 & H3). split; [now rewrite <- H1|].
      split; [|exact H3]. unfold not_colon at 1.
      destruct (Z.eqb_spec x COLON); [contradiction|]. exact H2.
Qed.

Lemma field_of_app_colon (f r : jsstring) :
  forallb not_colon f = true -> field_of (f ++ COLON :: r) = f.
Proof.
  unfold field_of. induction f as [|x f IH]; simpl; [reflexivity|].
  rewrite andb_true_iff. intros [Hx Hf]. unfold not_colon in Hx. rewrite Hx.
  now rewrite IH.
Qed.

Lemma field_of_all (f : jsstring) : forallb not_colon f = true -> field_of f = f.
Proof.
  unfold field_of. induction f as [|x f IH]; simpl; [reflexivity|].
  rewrite andb_true_iff. intros [Hx Hf]. unfold not_colon in Hx. rewrite Hx.
  now rewrite IH.
Qed.

(** The three shapes of a line: no colon yet, a colon at its end, a colon
    followed by something. *)
Inductive line_shape (line : jsstring) : Prop :=
| shape_field : forallb not_colon line = true -> field_of line = line ->
    skipn (List.length (field_of line)) line = [] -> line_shape line
| shape_colon (f r : jsstring) : forallb not_colon f = true -> line = f ++ COLON :: r ->
    field_of line = f -> skipn (List.length (field_of line)) line = COLON :: r ->
    line_shape line.

Lemma line_shape_total (line : jsstring) : line_shape line.
Proof.
  destruct (field_of_split line) as (H1 & H2 & [H3|[r H3]]).
  - assert (E : field_of line = line) by (rewrite H3, app_nil_r in H1; now symmetry).
    apply shape_field; [rewrite <- E; exact H2|exact E|exact H3].
  - apply (shape_colon line (field_of line) r); trivial. now rewrite H3 in H1.
Qed.

Lemma skipn_length_app (f r : jsstring) : skipn (List.length f) (f ++ r) = r.
Proof. rewrite skipn_app, skipn_all, Nat.sub_diag. reflexivity. Qed.

Lemma slice_at (chunk a b c : jsstring) (i j : Z) :
  chunk = a ++ b ++ c -> i = jslength a -> j = jslength a + jslength b ->
  slice chunk i j = b.
Proof. intros -> -> ->. apply slice_middle. Qed.

Lemma charCodeAt_at (chunk a : jsstring) (x : Z) (b : jsstring) (i : Z) :
  chunk = a ++ x :: b -> i = jslength a -> charCodeAt chunk i = Some x.
Proof. intros -> ->. apply charCodeAt_middle. Qed.

Ltac len_tac :=
  rewrite ?jslength_app, ?jslength_cons; change (jslength []) with 0; lia.

Section Simulation.

Variable closes : list Entry -> bool.

(** The loop at [position = length (pre ++ line)] of a chunk that starts
    with [pre ++ line], where [line] is the unfinished line. *)
Definition sim (pre line : jsstring) (s : EventSource) : Prop :=
  match line with
  | [] => state s = AFTER_CR \/ state s = FIELD_START
  | _ :: _ =>
      fieldStart s = jslength pre /\ state s = line_state line
      /\ (forall r, skipn (List.length (field_of line)) line = COLON :: r ->
                    valueStart s = jslength pre + jslength (field_of line) + 1)
  end.

Lemma end_of_field_sim (now : Z) (chunk pre line : jsstring) (c : Z) (rest : jsstring)
  (s : EventSource) :
  chunk = pre ++ line ++ c :: rest -> line <> [] -> sim pre line s ->
  core (end_of_field now chunk (jslength (pre ++ line)) s)
  = process_field 0 (field_of line) (value_of line) (core s).
Proof.
  intros Hchunk Hne Hsim. unfold sim in Hsim.
  destruct line as [|l0 ls] eqn:Eline; [contradiction|]. rewrite <- Eline in *.
  destruct Hsim as (Hfs & Hst & Hvs).
  unfold end_of_field. rewrite core_process_field.
  pose proof (jslength_nonneg pre) as Hp. pose proof (jslength_nonneg line) as Hl.
  destruct (line_shape_total line) as [Hall Hf Hsk | f r Hall Hline Hf Hsk].
  - (* no colon *)
    assert (Hs : state s = FIELD) by (rewrite Hst; unfold line_state; now rewrite Hsk).
    rewrite Hs. cbn [valueStart fieldStart set_valueStart].
    replace (jslength (pre ++ line) + 1 - 1) with (jslength pre + jslength line)
      by (rewrite jslength_app; lia).
    rewrite Hfs, (slice_at chunk pre line (c :: rest)) by trivial.
    destruct (Z.ltb_spec (jslength (pre ++ line) + 1) (jslength (pre ++ line))); [lia|].
    cbn [andb]. rewrite slice_empty by (rewrite jslength_app; lia).
    unfold value_of. rewrite Hsk, Hf. reflexivity.
  - (* a colon *)
    specialize (Hvs r Hsk). rewrite Hf in *. pose proof (jslength_nonneg f) as Hfl.
    assert (Hsame : match state s with
                    | FIELD => set_valueStart (jslength (pre ++ line) + 1) s
                    | _ => s
                    end = s).
    { rewrite Hst. unfold line_state. rewrite Hf, Hsk. now destruct r. }
    rewrite Hsame, Hfs, Hvs.
    replace (jslength pre + jslength f + 1 - 1) with (jslength pre + jslength f) by lia.
    rewrite (slice_at chunk pre f (COLON :: r ++ c :: rest));
      [|rewrite Hchunk, Hline, <- !app_assoc; reflexivity|reflexivity|reflexivity].
    assert (Hpos : jslength (pre ++ line) = jslength pre + jslength f + 1 + jslength r).
    { rewrite Hline, !jslength_app, jslength_cons. lia. }
    rewrite Hpos. unfold value_of. rewrite Hf, Hsk.
    destruct r as [|y r].
    + change (jslength []) with 0. rewrite Z.add_0_r, Z.ltb_irrefl. cbn [andb].
      rewrite Z.add_0_r. rewrite slice_empty by lia. reflexivity.
    + pose proof (jslength_nonneg r). rewrite jslength_cons.
      destruct (Z.ltb_spec (jslength pre + jslength f + 1)
                  (jslength pre + jslength f + 1 + (jslength r + 1))); [|lia].
      cbn [andb].
      rewrite (charCodeAt_at chunk (pre ++ f ++ [COLON]) y (r ++ c :: rest));
        [|rewrite Hchunk, Hline, <- !app_assoc; reflexivity|len_tac].
      cbn [opt_eqb]. destruct (Z.eqb_spec y SPACE) as [->|Hy].
      * rewrite (slice_at chunk (pre ++ f ++ [COLON; SPACE]) r (c :: rest));
          [reflexivity|rewrite Hchunk, Hline, <- !app_assoc; reflexivity
          |len_tac|len_tac].
      * rewrite (slice_at chunk (pre ++ f ++ [COLON]) (y :: r) (c :: rest));
          [reflexivity|rewrite Hchunk, Hline, <- !app_assoc; reflexivity
          |len_tac|len_tac].
Qed.

Lemma set_state_same (s : EventSource) (v : LineState) : state s = v -> set_state v s = s.
Proof. intros <-. reflexivity. Qed.

Lemma dispatch_point_returned (s : EventSource) :
  currentState s = OPEN ->
  if snd (dispatch_point closes s)
  then currentState (fst (dispatch_point closes s)) = CLOSED
  else currentState (fst (dispatch_point closes s)) = OPEN.
Proof.
  intros H. unfold dispatch_point. destruct (dataBuffer s); [exact H|].
  cbv zeta.
  match goal with |- context [deliver closes ?x] => set (x0 := x) end.
  assert (Hx : currentState x0 = OPEN)
    by (subst x0; cbn [eventTypeBuffer set_lastEventId]; now destruct (eventTypeBuffer s)).
  destruct (listened_deliver closes x0) as (l & _ & [-> | [-> _]]); cbn; [now rewrite Hx|reflexivity].
Qed.

Lemma process_field_frame (now : Z) (f v : jsstring) (s : EventSource) :
  state (process_field now f v s) = state s
  /\ currentState (process_field now f v s) = currentState s
  /\ textBuffer (process_field now f v s) = textBuffer s
  /\ textLength (process_field now f v s) = textLength s
  /\ wasActivity (process_field now f v s) = wasActivity s
  /\ abortController (process_field now f v s) = abortController s
  /\ lastEventId (process_field now f v s) = lastEventId s.
Proof.
  destruct s as [? ? ? ? ? ? ? ac tm ? ? ? ? ? ? ? ? ?].
  unfold process_field.
  destruct tm;
    repeat match goal with
           | |- context [if ?b then _ else _] => destruct b
           end; repeat split; reflexivity.
Qed.

Lemma end_of_field_state (now : Z) (chunk : jsstring) (p : Z) (s : EventSource) :
  state (end_of_field now chunk p s) = state s.
Proof.
  unfold end_of_field. rewrite (proj1 (process_field_frame _ _ _ _)).
  generalize (state s) at 1. intros []; reflexivity.
Qed.

(** The loop body, case by case. *)

Lemma scan_char_swallow (now : Z) (chunk : jsstring) (p : Z) (s : EventSource) :
  state s = AFTER_CR -> scan_char closes now chunk p LF s = (set_state FIELD_START s, false).
Proof. intros H. unfold scan_char. rewrite H. reflexivity. Qed.

Lemma scan_char_blank (now : Z) (chunk : jsstring) (p c : Z) (s : EventSource) :
  state s = AFTER_CR \/ state s = FIELD_START ->
  (c =? CR) || (c =? LF) = true ->
  LineState_eqb (state s) AFTER_CR && (c =? LF) = false ->
  scan_char closes now chunk p c s
  = let (s', returned) := dispatch_point closes (set_state FIELD_START s) in
    if returned then (s', true)
    else (set_state (if c =? CR then AFTER_CR else FIELD_START) s', false).
Proof.
  intros Hs Hc Hn. unfold scan_char. rewrite Hn, Hc.
  destruct Hs as [Hs|Hs];
    repeat (rewrite Hs; cbn [LineState_eqb state set_state negb]).
  - reflexivity.
  - now rewrite (set_state_same s FIELD_START Hs).
Qed.

Lemma scan_char_end (now : Z) (chunk : jsstring) (p c : Z) (s : EventSource) :
  state s = FIELD \/ state s = VALUE_START \/ state s = VALUE ->
  (c =? CR) || (c =? LF) = true ->
  scan_char closes now chunk p c s
  = (set_state (if c =? CR then AFTER_CR else FIELD_START) (end_of_field now chunk p s),
     false).
Proof.
  intros Hs Hc. unfold scan_char. rewrite Hc.
  destruct Hs as [Hs|[Hs|Hs]];
    repeat (rewrite Hs; cbn [LineState_eqb andb negb]);
    rewrite end_of_field_state, Hs; reflexivity.
Qed.

Lemma scan_char_first (now : Z) (chunk : jsstring) (p c : Z) (s : EventSource) :
  state s = AFTER_CR \/ state s = FIELD_START ->
  (c =? CR) || (c =? LF) = false ->
  scan_char closes now chunk p c s
  = ((if c =? COLON
      then set_state VALUE_START (set_valueStart (p + 1) (set_fieldStart p s))
      else set_state FIELD (set_fieldStart p s)), false).
Proof.
  intros Hs Hc. unfold scan_char. rewrite Hc.
  assert (Hlf : (c =? LF) = false) by (apply orb_false_iff in Hc; tauto).
  rewrite Hlf, andb_false_r.
  destruct Hs as [Hs|Hs];
    repeat (rewrite Hs; cbn [LineState_eqb state set_state set_fieldStart]);
    destruct (c =? COLON); reflexivity.
Qed.

Lemma scan_char_more (now : Z) (chunk : jsstring) (p c : Z) (s : EventSource) :
  state s = FIELD \/ state s = VALUE_START \/ state s = VALUE ->
  (c =? CR) || (c =? LF) = false ->
  scan_char closes now chunk p c s
  = (match state s with
     | FIELD => if c =? COLON then set_state VALUE_START (set_valueStart (p + 1) s) else s
     | VALUE_START => set_state VALUE s
     | _ => s
     end, false).
Proof.
  intros Hs Hc. unfold scan_char. rewrite Hc.
  destruct Hs as [Hs|[Hs|Hs]];
    repeat (rewrite Hs; cbn [LineState_eqb andb]); reflexivity.
Qed.

Lemma line_state_cases (line : jsstring) :
  line <> [] ->
  line_state line = FIELD \/ line_state line = VALUE_START \/ line_state line = VALUE.
Proof. intros _. unfold line_state. destruct (skipn _ line) as [|? [|? ?]]; auto. Qed.

(** One turn of the loop against one step of the line machine. *)
Lemma scan_char_sim (now : Z) (chunk pre line : jsstring) (c : Z) (rest : jsstring)
  (s : EventSource) :
  chunk = pre ++ line ++ c :: rest -> currentState s = OPEN -> sim pre line s ->
  let r := scan_char closes now chunk (jslength (pre ++ line)) c s in
  exists pre' line',
    line_step closes (core s, line) c = (core (fst r), line')
    /\ if snd r then currentState (fst r) = CLOSED
       else currentState (fst r) = OPEN /\ pre' ++ line' = pre ++ line ++ [c]
            /\ sim pre' line' (fst r).
Proof.
  intros Hchunk Hopen Hsim r. subst r.
  unfold line_step. change (currentState (core s)) with (currentState s). rewrite Hopen.
  change (state (core s)) with (state s).
  destruct ((c =? CR) || (c =? LF)) eqn:Hterm.
  - destruct line as [|l0 ls].
    + (* a blank line, or the line feed after a carriage return *)
      simpl in Hsim.
      destruct (LineState_eqb (state s) AFTER_CR && (c =? LF)) eqn:Hsw.
      * apply andb_true_iff in Hsw. destruct Hsw as [Hs Hc].
        apply Z.eqb_eq in Hc. subst c.
        assert (Hs' : state s = AFTER_CR) by (now destruct (state s)).
        rewrite scan_char_swallow by exact Hs'.
        exists (pre ++ [LF]), []. cbn [fst snd]. split; [reflexivity|].
        split; [exact Hopen|]. split; [now rewrite !app_nil_r|]. simpl. auto.
      * rewrite scan_char_blank by assumption.
        change (set_state FIELD_START (core s)) with (core (set_state FIELD_START s)).
        rewrite core_dispatch_point.
        pose proof (dispatch_point_returned (set_state FIELD_START s) Hopen) as Hret.
        destruct (dispatch_point closes (set_state FIELD_START s)) as [s' ret].
        cbn [fst snd] in *. destruct ret; cbn [fst snd].
        -- exists pre, []. split; [reflexivity|exact Hret].
        -- exists (pre ++ [c]), []. split; [reflexivity|]. split; [exact Hret|].
           split; [now rewrite !app_nil_r|]. simpl. destruct (c =? CR); auto.
    + (* the end of a line with a field *)
      assert (Hne : l0 :: ls <> []) by discriminate.
      pose proof Hsim as (Hfs & Hst & Hvs).
      rewrite scan_char_end; [|rewrite Hst; now apply line_state_cases|exact Hterm].
      cbn [fst snd].
      exists (pre ++ (l0 :: ls) ++ [c]), []. split.
      * change (core (set_state ?v ?x)) with (set_state v (core x)).
        now rewrite (end_of_field_sim now chunk pre (l0 :: ls) c rest s).
      * split; [|split; [now rewrite app_nil_r|simpl; destruct (c =? CR); auto]].
        cbn [currentState set_state]. unfold end_of_field.
        rewrite (proj1 (proj2 (process_field_frame _ _ _ _))).
        now destruct (state s).
  - destruct line as [|l0 ls].
    + (* the first character of a line *)
      simpl in Hsim. rewrite scan_char_first by assumption. cbn [fst snd app].
      exists pre, [c]. rewrite app_nil_r.
      unfold sim, line_state, field_of. cbn [take_while].
      destruct (Z.eqb_spec c COLON) as [->|Hc]; cbn [negb List.length skipn].
      * split; [reflexivity|]. split; [exact Hopen|]. split; [reflexivity|].
        split; [reflexivity|]. split; [reflexivity|]. intros _ _.
        change (field_of [COLON]) with (@nil Z). change (jslength []) with 0.
        unfold set_state, set_valueStart. cbn. lia.
      * split; [reflexivity|]. split; [exact Hopen|]. split; [reflexivity|].
        split; [reflexivity|]. split; [reflexivity|]. intros r Hr. discriminate Hr.
    + (* one more character of a line *)
      pose proof Hsim as (Hfs & Hst & Hvs). clear Hsim.
      set (line := l0 :: ls) in *.
      assert (Hne : line <> []) by discriminate.
      assert (Hne' : exists x xs, line ++ [c] = x :: xs) by (exists l0, (ls ++ [c]); reflexivity).
      destruct Hne' as (x & xs & Hx). clearbody line.
      rewrite scan_char_more; [|rewrite Hst; now apply line_state_cases|exact Hterm].
      cbn [fst snd]. exists pre, (line ++ [c]).
      assert (Hsimx : forall s', fieldStart s' = jslength pre ->
                 state s' = line_state (line ++ [c]) ->
                 (forall r, skipn (List.length (field_of (line ++ [c]))) (line ++ [c])
                            = COLON :: r ->
                            valueStart s' = jslength pre + jslength (field_of (line ++ [c])) + 1) ->
                 sim pre (line ++ [c]) s').
      { intros s' H1 H2 H3. unfold sim. rewrite Hx. rewrite <- Hx. auto. }
      destruct (line_shape_total line) as [Hall Hf Hsk | f r Hall Hline Hf Hsk].
      * assert (Hs : state s = FIELD) by (rewrite Hst; unfold line_state; now rewrite Hsk).
        rewrite Hs. destruct (Z.eqb_spec c COLON) as [->|Hc].
        -- assert (Hf' : field_of (line ++ [COLON]) = line) by now apply field_of_app_colon.
           assert (Hsk' : skipn (List.length (field_of (line ++ [COLON]))) (line ++ [COLON])
                          = [COLON]) by (rewrite Hf'; apply skipn_length_app).
           assert (Hls : line_state (line ++ [COLON]) = VALUE_START)
             by (unfold line_state; now rewrite Hsk').
           rewrite Hls. split; [reflexivity|]. split; [exact Hopen|].
           split; [now rewrite app_assoc|]. apply Hsimx.
           ++ exact Hfs.
           ++ now rewrite Hls.
           ++ intros _ _. rewrite Hf'. unfold set_state, set_valueStart. cbn.
              rewrite jslength_app. lia.
        -- assert (Hall' : forallb not_colon (line ++ [c]) = true).
           { rewrite forallb_app, Hall. simpl. unfold not_colon.
             destruct (Z.eqb_spec c COLON); [contradiction|reflexivity]. }
           assert (Hf' : field_of (line ++ [c]) = line ++ [c]) by now apply field_of_all.
           assert (Hsk' : skipn (List.length (field_of (line ++ [c]))) (line ++ [c]) = [])
             by (rewrite Hf'; apply skipn_all).
           assert (Hls : line_state (line ++ [c]) = FIELD)
             by (unfold line_state; now rewrite Hsk').
           rewrite Hls. split; [now rewrite set_state_same|]. split; [exact Hopen|].
           split; [now rewrite app_assoc|]. apply Hsimx.
           ++ exact Hfs.
           ++ now rewrite Hls.
           ++ intros r0 Hr0. rewrite Hsk' in Hr0. discriminate Hr0.
      * assert (Hline' : line ++ [c] = f ++ COLON :: (r ++ [c]))
          by (rewrite Hline, <- app_assoc; reflexivity).
        assert (Hf' : field_of (line ++ [c]) = f)
          by (rewrite Hline'; now apply field_of_app_colon).
        assert (Hsk' : skipn (List.length (field_of (line ++ [c]))) (line ++ [c])
                       = COLON :: r ++ [c])
          by (rewrite Hf', Hline'; apply skipn_length_app).
        assert (Hls : line_state (line ++ [c]) = VALUE)
          by (unfold line_state; rewrite Hsk'; now destruct r).
        rewrite Hls.
        assert (Hres : exists s', match state s with
                                  | FIELD => if c =? COLON
                                             then set_state VALUE_START
                                                    (set_valueStart (jslength (pre ++ line) + 1) s)
                                             else s
                                  | VALUE_START => set_state VALUE s
                                  | _ => s
                                  end = s'
                                  /\ s' = set_state VALUE s).
        { eexists. split; [reflexivity|]. rewrite Hst. unfold line_state. rewrite Hsk.
          destruct r as [|? ?]; [reflexivity|].
          symmetry. apply set_state_same. rewrite Hst. unfold line_state. now rewrite Hsk. }
        destruct Hres as (s' & -> & ->).
        split; [reflexivity|]. split; [exact Hopen|].
        split; [now rewrite app_assoc|]. apply Hsimx.
        -- exact Hfs.
        -- now rewrite Hls.
        -- intros _ _. rewrite Hf'. change (valueStart (set_state VALUE s)) with (valueStart s).
           rewrite (Hvs r) by exact Hsk. now rewrite Hf.
Qed.

End Simulation.
(** ** The loop against the line machine *)

Section Loop.

Variable closes : list Entry -> bool.

Lemma line_step_closed (a : EventSource) (line : jsstring) (c : Z) :
  currentState a = CLOSED -> line_step closes (a, line) c = (a, line).
Proof. intros H. unfold line_step. now rewrite H. Qed.

Lemma line_run_closed (text : jsstring) (a : EventSource) (line : jsstring) :
  currentState a = CLOSED -> line_run closes text (a, line) = (a, line).
Proof.
  intros H. induction text as [|c text IH]; [reflexivity|].
  unfold line_run in *. cbn [fold_left]. now rewrite line_step_closed.
Qed.

Lemma scan_from_sim (now : Z) (chunk : jsstring) :
  forall (rest pre line : jsstring) (s : EventSource),
    chunk = pre ++ line ++ rest -> currentState s = OPEN -> sim pre line s ->
    let s' := scan_from closes now chunk rest (jslength (pre ++ line)) s in
    exists line',
      line_run closes rest (core s, line) = (core s', line')
      /\ (currentState s' = CLOSED
          \/ (currentState s' = OPEN /\ exists pre', pre' ++ line' = chunk /\ sim pre' line' s')).
Proof.
  induction rest as [|c rest IH]; intros pre line s Hchunk Hopen Hsim.
  - exists line. split; [reflexivity|]. right. split; [exact Hopen|].
    exists pre. rewrite app_nil_r in Hchunk. now split.
  - cbn [scan_from].
    destruct (scan_char_sim closes now chunk pre line c rest s Hchunk Hopen Hsim)
      as (pre' & line' & Hstep & Hret).
    unfold line_run. cbn [fold_left]. rewrite Hstep.
    change (fold_left (line_step closes) ?t ?x) with (line_run closes t x).
    destruct (scan_char closes now chunk (jslength (pre ++ line)) c s) as [s1 ret].
    cbn [fst snd] in *. destruct ret.
    + exists line'. split; [|now left]. now apply line_run_closed.
    + destruct Hret as (Hopen1 & Hpre & Hsim1).
      assert (Hpos : jslength (pre ++ line) + 1 = jslength (pre' ++ line')).
      { rewrite Hpre, app_assoc, (jslength_app (pre ++ line)). reflexivity. }
      rewrite Hpos. apply IH; trivial.
      rewrite app_assoc, Hpre, Hchunk, <- !app_assoc. reflexivity.
Qed.

(** Scanning a chunk from a line boundary is running the line machine. *)
Lemma scan_line_run (now : Z) (chunk : jsstring) (s : EventSource) :
  currentState s = OPEN -> state s = AFTER_CR \/ state s = FIELD_START ->
  exists line',
    line_run closes chunk (core s, []) = (core (scan closes now chunk s), line')
    /\ (currentState (scan closes now chunk s) = CLOSED
        \/ (currentState (scan closes now chunk s) = OPEN
            /\ exists pre', pre' ++ line' = chunk /\ sim pre' line' (scan closes now chunk s))).
Proof.
  intros Hopen Hs.
  apply (scan_from_sim now chunk chunk [] [] s); trivial.
Qed.

End Loop.

(** ** What the loop can do to the variables *)

Section Operations.

Variable closes : list Entry -> bool.

(** The assignments and calls the loop body is made of. *)
Inductive parse_op (now : Z) : EventSource -> EventSource -> Prop :=
| op_refl s : parse_op now s s
| op_trans s1 s2 s3 : parse_op now s1 s2 -> parse_op now s2 s3 -> parse_op now s1 s3
| op_state v s : parse_op now s (set_state v s)
| op_fieldStart v s : parse_op now s (set_fieldStart v s)
| op_valueStart v s : parse_op now s (set_valueStart v s)
| op_field f v s : parse_op now s (process_field now f v s)
| op_dispatch s : parse_op now s (fst (dispatch_point closes s)).

Lemma end_of_field_op (now : Z) (chunk : jsstring) (p : Z) (s : EventSource) :
  parse_op now s (end_of_field now chunk p s).
Proof.
  unfold end_of_field.
  set (s1 := match state s with FIELD => set_valueStart (p + 1) s | _ => s end).
  apply op_trans with s1; [|apply op_field].
  subst s1. destruct (state s); constructor.
Qed.

Lemma scan_char_op (now : Z) (chunk : jsstring) (p c : Z) (s : EventSource) :
  parse_op now s (fst (scan_char closes now chunk p c s)).
Proof.
  unfold scan_char.
  destruct (LineState_eqb (state s) AFTER_CR && (c =? LF)); [apply op_state|].
  set (s1 := if LineState_eqb (state s) AFTER_CR then set_state FIELD_START s else s).
  assert (H1 : parse_op now s s1)
    by (subst s1; destruct (LineState_eqb (state s) AFTER_CR); constructor).
  clearbody s1. apply op_trans with s1; [exact H1|]. clear H1.
  destruct ((c =? CR) || (c =? LF)).
  - set (s2 := if negb (LineState_eqb (state s1) FIELD_START)
               then end_of_field now chunk p s1 else s1).
    assert (H2 : parse_op now s1 s2).
    { subst s2. destruct (negb (LineState_eqb (state s1) FIELD_START));
        [apply end_of_field_op|apply op_refl]. }
    clearbody s2. apply op_trans with s2; [exact H2|]. clear H2.
    destruct (LineState_eqb (state s2) FIELD_START).
    + pose proof (op_dispatch now s2) as H3.
      destruct (dispatch_point closes s2) as [s3 ret]. cbn [fst] in H3.
      destruct ret; cbn [fst]; [exact H3|].
      apply op_trans with s3; [exact H3|apply op_state].
    + cbn [fst]. apply op_state.
  - cbn [fst].
    set (s2 := if LineState_eqb (state s1) FIELD_START
               then set_state FIELD (set_fieldStart p s1) else s1).
    assert (H2 : parse_op now s1 s2).
    { subst s2. destruct (LineState_eqb (state s1) FIELD_START); [|apply op_refl].
      eapply op_trans; [apply op_fieldStart|apply op_state]. }
    clearbody s2. apply op_trans with s2; [exact H2|]. clear H2.
    destruct (LineState_eqb (state s2) FIELD).
    + destruct (c =? COLON); [|apply op_refl].
      eapply op_trans; [apply op_valueStart|apply op_state].
    + destruct (LineState_eqb (state s2) VALUE_START); [apply op_state|apply op_refl].
Qed.

Lemma scan_from_op (now : Z) (chunk : jsstring) :
  forall (rest : jsstring) (p : Z) (s : EventSource),
    parse_op now s (scan_from closes now chunk rest p s).
Proof.
  induction rest as [|c rest IH]; intros p s; cbn [scan_from]; [apply op_refl|].
  pose proof (scan_char_op now chunk p c s) as H.
  destruct (scan_char closes now chunk p c s) as [s1 ret]. cbn [fst] in H.
  destruct ret; [exact H|]. eapply op_trans; [exact H|apply IH].
Qed.

End Operations.

(** ** Cutting the text at its last line terminator *)

Definition isTerminator (c : Z) : bool := (c =? CR) || (c =? LF).

Definition no_terminator (t : jsstring) : Prop :=
  forallb (fun c => negb (isTerminator c)) t = true.

(** Empty, or ending in a line terminator. *)
Definition terminated (t : jsstring) : Prop :=
  t = [] \/ exists t' c, t = t' ++ [c] /\ isTerminator c = true.

(** [complete] is [text] up to its last line terminator and [tail] the rest. *)
Definition is_split (text complete tail : jsstring) : Prop :=
  text = complete ++ tail /\ terminated complete /\ no_terminator tail.

Lemma no_terminator_app (a b : jsstring) :
  no_terminator (a ++ b) <-> no_terminator a /\ no_terminator b.
Proof. unfold no_terminator. rewrite forallb_app, andb_true_iff. tauto. Qed.

Lemma terminated_app (a b : jsstring) : terminated a -> terminated b -> terminated (a ++ b).
Proof.
  intros Ha [->|(b' & c & -> & Hc)]; [now rewrite app_nil_r|].
  right. exists (a ++ b'), c. now rewrite app_assoc.
Qed.

(** A terminated prefix of a text whose rest has no terminator is unique. *)
Lemma is_split_unique (text a b a' b' : jsstring) :
  is_split text a b -> is_split text a' b' -> a = a' /\ b = b'.
Proof.
  intros (H1 & Ta & Nb) (H2 & Ta' & Nb'). subst text.
  assert (Hlen : List.length a = List.length a').
  { destruct (Nat.lt_total (List.length a) (List.length a')) as [Hlt|[Heq|Hlt]];
      [exfalso|exact Heq|exfalso].
    - (* the last character of a' lies in b *)
      destruct Ta' as [->|(t' & c & -> & Hc)]; [simpl in Hlt; lia|].
      assert (E : firstn (List.length a) (a ++ b) = firstn (List.length a) ((t' ++ [c]) ++ b'))
        by now rewrite H2.
      rewrite firstn_app, firstn_all, Nat.sub_diag, firstn_0, app_nil_r in E.
      rewrite firstn_app in E.
      replace (List.length a - List.length (t' ++ [c]))%nat with 0%nat in E by lia.
      rewrite firstn_0, app_nil_r in E.
      assert (E2 : skipn (List.length a) (a ++ b) = skipn (List.length a) ((t' ++ [c]) ++ b'))
        by now rewrite H2.
      rewrite skipn_length_app in E2. rewrite skipn_app in E2.
      rewrite length_app in Hlt. simpl in Hlt.
      assert (Hin : In c (skipn (List.length a) (t' ++ [c]))).
      { rewrite skipn_app. apply in_or_app. right.
        replace (List.length a - List.length t')%nat with 0%nat by lia. now left. }
      assert (Hb : In c b) by (rewrite E2; apply in_or_app; now left).
      unfold no_terminator in Nb. rewrite forallb_forall in Nb.
      specialize (Nb c Hb). now rewrite Hc in Nb.
    - destruct Ta as [->|(t' & c & -> & Hc)]; [simpl in Hlt; lia|].
      assert (E2 : skipn (List.length a') ((t' ++ [c]) ++ b) = skipn (List.length a') (a' ++ b'))
        by now rewrite H2.
      rewrite skipn_length_app in E2. rewrite skipn_app in E2.
      rewrite length_app in Hlt. simpl in Hlt.
      assert (Hin : In c (skipn (List.length a') (t' ++ [c]))).
      { rewrite skipn_app. apply in_or_app. right.
        replace (List.length a' - List.length t')%nat with 0%nat by lia. now left. }
      assert (Hb : In c b') by (rewrite <- E2; apply in_or_app; now left).
      unfold no_terminator in Nb'. rewrite forallb_forall in Nb'.
      specialize (Nb' c Hb). now rewrite Hc in Nb'. }
  assert (E1 : firstn (List.length a) (a ++ b) = firstn (List.length a) (a' ++ b'))
    by now rewrite H2.
  rewrite firstn_app, firstn_all, Nat.sub_diag, firstn_0, app_nil_r in E1.
  rewrite Hlen, firstn_app, firstn_all, Nat.sub_diag, firstn_0, app_nil_r in E1.
  subst a'. split; [reflexivity|]. now apply app_inv_head in H2.
Qed.

(** Cutting [a ++ b ++ rest] where [a] is what was cut off [a ++ b] before. *)
Lemma is_split_app (a b rest a2 b2 : jsstring) :
  terminated a -> is_split (b ++ rest) a2 b2 -> is_split (a ++ b ++ rest) (a ++ a2) b2.
Proof.
  intros Ta (H & Ta2 & Nb2). split; [now rewrite H, app_assoc|].
  split; [now apply terminated_app|exact Nb2].
Qed.

(** The loop of lines 254-260 finds the last terminator. *)
Lemma last_terminator_spec (text : jsstring) :
  forall i n,
    (no_terminator text /\ last_terminator text i n = n)
    \/ (exists a c b, text = a ++ c :: b /\ isTerminator c = true /\ no_terminator b
                      /\ last_terminator text i n = i + jslength a).
Proof.
  induction text as [|x text IH]; intros i n; [left; now split|].
  cbn [last_terminator].
  destruct (IH (i + 1) (if (x =? LF) || (x =? CR) then i else n))
    as [[Hn Hl]|(a & c & b & -> & Hc & Hb & Hl)].
  - destruct ((x =? LF) || (x =? CR)) eqn:Hx.
    + right. exists [], x, text. change (jslength []) with 0.
      split; [reflexivity|]. split; [unfold isTerminator; now rewrite orb_comm|].
      split; [exact Hn|]. rewrite Hl. lia.
    + left. split; [|exact Hl]. unfold no_terminator. cbn [forallb].
      unfold isTerminator. rewrite orb_comm, Hx. exact Hn.
  - right. exists (x :: a), c, b. split; [reflexivity|]. split; [exact Hc|].
    split; [exact Hb|]. rewrite Hl, jslength_cons. lia.
Qed.

(** ** Variables the loop leaves alone *)

Section Frame.

Variable closes : list Entry -> bool.

Lemma dispatch_point_frame (s : EventSource) :
  let s' := fst (dispatch_point closes s) in
  textBuffer s' = textBuffer s /\ textLength s' = textLength s
  /\ wasActivity s' = wasActivity s /\ lastEventIdBuffer s' = lastEventIdBuffer s
  /\ retry s' = retry s /\ initialRetry s' = initialRetry s
  /\ heartbeatTimeout s' = heartbeatTimeout s.
Proof.
  unfold dispatch_point. destruct (dataBuffer s); [repeat split; reflexivity|].
  cbv zeta.
  match goal with |- context [deliver closes ?x] => set (x0 := x) end.
  assert (Hx : textBuffer x0 = textBuffer s /\ textLength x0 = textLength s
               /\ wasActivity x0 = wasActivity s /\ lastEventIdBuffer x0 = lastEventIdBuffer s
               /\ retry x0 = retry s /\ initialRetry x0 = initialRetry s
               /\ heartbeatTimeout x0 = heartbeatTimeout s)
    by (subst x0; cbn [eventTypeBuffer set_lastEventId]; destruct (eventTypeBuffer s);
        repeat split; reflexivity).
  clearbody x0.
  destruct (listened_deliver closes x0) as (l & _ & [-> | [-> _]]); cbn;
    try destruct (currentState x0); exact Hx.
Qed.

Lemma parse_op_frame (now : Z) (s s' : EventSource) :
  parse_op closes now s s' ->
  textBuffer s' = textBuffer s /\ textLength s' = textLength s
  /\ wasActivity s' = wasActivity s.
Proof.
  induction 1 as [s|s1 s2 s3 _ IH1 _ IH2|v s|v s|v s|f v s|s].
  - auto.
  - destruct IH1 as (A & B & C), IH2 as (D & E & F). repeat split; congruence.
  - repeat split; reflexivity.
  - repeat split; reflexivity.
  - repeat split; reflexivity.
  - pose proof (process_field_frame now f v s). tauto.
  - pose proof (dispatch_point_frame s). cbv zeta in *. tauto.
Qed.

(** [onProgress] in the Open state: the text is cut at its last terminator,
    the complete lines are scanned and the rest is kept. *)
Lemma onProgress_scan (now : Z) (text : jsstring) (s : EventSource) :
  currentState s = OPEN -> no_terminator (textBuffer s) ->
  exists complete tail,
    is_split (textBuffer s ++ text) complete tail
    /\ onProgress closes now text s
       = scan closes now complete
           match text with
           | [] => set_textBuffer tail s
           | _ :: _ =>
               set_textLength (textLength s + jslength text)
                 (set_wasActivity (Some now) (set_textBuffer tail s))
           end.
Proof.
  intros Hopen Hno. unfold onProgress. rewrite Hopen.
  destruct (last_terminator_spec text 0 (-1)) as [[Hn ->]|(a & c & b & -> & Hc & Hb & ->)].
  - exists [], (textBuffer s ++ text). split.
    + split; [reflexivity|]. split; [now left|]. now apply no_terminator_app.
    + change (-1 =? -1) with true. cbn [negb]. change (-1 + 1) with 0.
      rewrite (slice_empty text 0 0) by lia.
      assert (E : slice_from text 0 = text) by apply (slice_from_suffix [] text).
      rewrite E.
      destruct text; reflexivity.
  - pose proof (jslength_nonneg a) as Ha.
    exists (textBuffer s ++ a ++ [c]), b. split.
    + split; [now rewrite <- !app_assoc|]. split; [|exact Hb].
      right. exists (textBuffer s ++ a), c. now rewrite app_assoc.
    + destruct (Z.eqb_spec (0 + jslength a) (-1)); [lia|]. cbn [negb app].
      replace (0 + jslength a + 1) with (jslength (a ++ [c])) by len_tac.
      replace (a ++ c :: b) with ((a ++ [c]) ++ b) by now rewrite <- app_assoc.
      rewrite slice_prefix, slice_from_suffix.
      destruct ((a ++ [c]) ++ b) eqn:E; [now destruct a|]. rewrite <- E. reflexivity.
Qed.

End Frame.

(** ** Feeding text in chunks *)

(** What can be seen of a connection: the log, the connection variables and,
    while the connection is open, the parser's variables.  The offsets into
    the last chunk and the time stamps are left out. *)
Definition observe (s : EventSource) :=
  (log s, currentState s, readyState s, lastEventId s,
   (initialRetry s, retry s, heartbeatTimeout s),
   option_map delay (timeout s), abortController s,
   match currentState s with
   | OPEN => Some (dataBuffer s, eventTypeBuffer s, lastEventIdBuffer s,
                   textBuffer s, state s, textLength s)
   | _ => None
   end).

Lemma observe_core (s1 s2 : EventSource) :
  core s1 = core s2 ->
  (currentState s1 = OPEN -> textBuffer s1 = textBuffer s2 /\ textLength s1 = textLength s2) ->
  observe s1 = observe s2.
Proof.
  destruct s1 as [? ? ? ? ? ? ? ? tm1 cs1 ? ? ? ? ? ? ? ?],
           s2 as [? ? ? ? ? ? ? ? tm2 cs2 ? ? ? ? ? ? ? ?].
  unfold core, observe. cbn. intros H Ht. injection H as -> -> -> -> -> -> Htm -> -> -> -> -> ->.
  assert (Hd : option_map delay tm1 = option_map delay tm2).
  { destruct tm1 as [[a1 d1]|], tm2 as [[a2 d2]|]; cbn in *; congruence. }
  rewrite Hd. destruct cs2; try reflexivity.
  destruct (Ht eq_refl) as [-> ->]. reflexivity.
Qed.

Section Chunks.

Variable closes : list Entry -> bool.

(** The chunks, each with the time at which it arrives, fed one by one. *)
Definition feed (chunks : list (Z * jsstring)) (s : EventSource) : EventSource :=
  fold_left (fun s c => onProgress closes (fst c) (snd c) s) chunks s.

Definition at_line_start (s : EventSource) : Prop :=
  state s = AFTER_CR \/ state s = FIELD_START.

Lemma line_step_terminator (a : EventSource) (l : jsstring) (c : Z) :
  isTerminator c = true ->
  currentState (fst (line_step closes (a, l) c)) = CLOSED
  \/ snd (line_step closes (a, l) c) = [].
Proof.
  intros Hc. unfold line_step. unfold isTerminator in Hc. rewrite Hc.
  destruct (currentState a) eqn:Ha; [| | |now left]; right;
    (destruct l; [|reflexivity];
     destruct (LineState_eqb (state a) AFTER_CR && (c =? LF)); [reflexivity|];
     destruct (dispatch_point closes (set_state FIELD_START a)) as [a' ret];
     now destruct ret).
Qed.

Lemma line_run_terminated (t : jsstring) (a : EventSource) :
  terminated t ->
  currentState (fst (line_run closes t (a, []))) = CLOSED
  \/ snd (line_run closes t (a, [])) = [].
Proof.
  intros [->|(t' & c & -> & Hc)]; [now right|].
  rewrite line_run_app. destruct (line_run closes t' (a, [])) as [a1 l1].
  apply (line_step_terminator a1 l1 c Hc).
Qed.

Lemma split_exists (t : jsstring) : exists a b, is_split t a b.
Proof.
  destruct (last_terminator_spec t 0 0) as [[Hn _]|(a & c & b & -> & Hc & Hb & _)].
  - exists [], t. split; [reflexivity|]. split; [now left|exact Hn].
  - exists (a ++ [c]), b. split; [now rewrite <- app_assoc|].
    split; [|exact Hb]. right. now exists a, c.
Qed.

(** One call of [onProgress] in terms of the line machine. *)
Lemma onProgress_core (now : Z) (text : jsstring) (s : EventSource) :
  currentState s = OPEN -> at_line_start s -> no_terminator (textBuffer s) ->
  exists complete tail,
    is_split (textBuffer s ++ text) complete tail
    /\ let s' := onProgress closes now text s in
       fst (line_run closes complete (core s, [])) = core s'
       /\ textBuffer s' = tail
       /\ textLength s' = textLength s + jslength text
       /\ wasActivity s' = match text with [] => wasActivity s | _ :: _ => Some now end
       /\ (currentState s' = CLOSED
           \/ (currentState s' = OPEN /\ at_line_start s'
               /\ snd (line_run closes complete (core s, [])) = [])).
Proof.
  intros Hopen Hs Hno.
  destruct (onProgress_scan closes now text s Hopen Hno) as (complete & tail & Hsplit & ->).
  exists complete, tail. split; [exact Hsplit|]. cbv zeta.
  set (s0 := match text with
             | [] => set_textBuffer tail s
             | _ :: _ => set_textLength (textLength s + jslength text)
                           (set_wasActivity (Some now) (set_textBuffer tail s))
             end).
  assert (Hcore : core s0 = core s) by (subst s0; destruct text; reflexivity).
  assert (Hopen0 : currentState s0 = OPEN) by (subst s0; destruct text; exact Hopen).
  assert (Hs0 : at_line_start s0) by (subst s0; destruct text; exact Hs).
  assert (Htb : textBuffer s0 = tail) by (subst s0; destruct text; reflexivity).
  assert (Htl : textLength s0 = textLength s + jslength text).
  { subst s0. destruct text; [|reflexivity]. change (jslength []) with 0.
    cbn. lia. }
  assert (Hwa : wasActivity s0 = match text with [] => wasActivity s | _ :: _ => Some now end)
    by (subst s0; destruct text; reflexivity).
  clearbody s0.
  destruct (parse_op_frame closes now _ _ (scan_from_op closes now complete complete 0 s0))
    as (F1 & F2 & F3). fold (scan closes now complete s0) in F1, F2, F3.
  destruct (scan_line_run closes now complete s0 Hopen0 Hs0) as (line' & Hrun & Hend).
  rewrite Hcore in Hrun. rewrite Hrun. cbn [fst snd].
  split; [reflexivity|]. split; [congruence|]. split; [congruence|]. split; [congruence|].
  destruct Hend as [Hc|(Ho & pre' & Hpre & Hsim)]; [now left|right].
  destruct Hsplit as (_ & Hterm & _).
  destruct (line_run_terminated complete (core s) Hterm) as [Hc|Hl].
  - rewrite Hrun in Hc. cbn [fst] in Hc. change (currentState (core ?x)) with (currentState x) in Hc.
    congruence.
  - rewrite Hrun in Hl. cbn [snd] in Hl. subst line'. simpl in Hsim. auto.
Qed.

Lemma feed_not_open (chunks : list (Z * jsstring)) (s : EventSource) :
  currentState s <> OPEN -> feed chunks s = s.
Proof.
  intros H. induction chunks as [|c chunks IH]; [reflexivity|].
  unfold feed in *. cbn [fold_left]. unfold onProgress at 2.
  destruct (currentState s); try exact IH. contradiction.
Qed.

(** Any number of calls in terms of the line machine: what has been scanned
    is the whole text received so far, up to its last terminator. *)
Lemma feed_core (chunks : list (Z * jsstring)) :
  forall s : EventSource,
    currentState s = OPEN -> at_line_start s -> no_terminator (textBuffer s) ->
    exists complete tail,
      is_split (textBuffer s ++ List.concat (map snd chunks)) complete tail
      /\ fst (line_run closes complete (core s, [])) = core (feed chunks s)
      /\ (currentState (feed chunks s) = OPEN ->
          textBuffer (feed chunks s) = tail
          /\ textLength (feed chunks s) = textLength s + jslength (List.concat (map snd chunks))).
Proof.
  induction chunks as [|[now text] chunks IH]; intros s Hopen Hs Hno.
  - exists [], (textBuffer s). cbn [map List.concat feed fold_left]. rewrite app_nil_r.
    split; [split; [reflexivity|split; [now left|exact Hno]]|].
    split; [reflexivity|]. intros _. change (jslength []) with 0. split; [reflexivity|lia].
  - destruct (onProgress_core now text s Hopen Hs Hno)
      as (c1 & t1 & Hsplit1 & Hcore1 & Htb1 & Htl1 & _ & Hend1).
    cbn [map List.concat snd]. change (feed ((now, text) :: chunks) s)
      with (feed chunks (onProgress closes now text s)).
    set (s1 := onProgress closes now text s) in *.
    destruct Hsplit1 as (Htext1 & Hterm1 & Hnot1).
    rewrite app_assoc, Htext1, <- app_assoc.
    destruct Hend1 as [Hclosed|(Hopen1 & Hs1 & Hline1)].
    + destruct (split_exists (t1 ++ List.concat (map snd chunks))) as (a2 & b2 & Hsplit2).
      exists (c1 ++ a2), b2. split; [now apply is_split_app|].
      rewrite feed_not_open by congruence. split; [|congruence].
      rewrite line_run_app.
      destruct (line_run closes c1 (core s, [])) as [a1 l1]. cbn [fst] in Hcore1. subst a1.
      now rewrite line_run_closed.
    + rewrite <- Htb1 in Hnot1.
      destruct (IH s1 Hopen1 Hs1 Hnot1) as (a2 & b2 & Hsplit2 & Hcore2 & Htext2).
      rewrite Htb1 in Hsplit2. exists (c1 ++ a2), b2. split; [now apply is_split_app|].
      split.
      * rewrite line_run_app.
        destruct (line_run closes c1 (core s, [])) as [a1 l1]. cbn [fst snd] in *.
        now subst a1 l1.
      * intros Ho. destruct (Htext2 Ho) as [-> ->]. split; [reflexivity|].
        rewrite Htl1, jslength_app. lia.
Qed.

End Chunks.

(** The connection after the constructor has run and the transport has
    reported a good response at time 1: the start of the examples. *)
Definition never (_ : list Entry) : bool := false.
Definition always (_ : list Entry) : bool := true.

Definition example_config : Config :=
  {| url := str "http://h/events"; withCredentials := false; headers := [] |}.

Definition connecting : EventSource := onTimeout never example_config 0 initial.

Definition opened : EventSource :=
  onStart never 1 200 (str "OK") (Some (str "text/event-stream")) [] connecting.

(** Between two chunks, feeding chunks one by one and feeding their
    concatenation cannot be told apart. *)
Lemma feed_is_whole_feed (closes : list Entry -> bool) (s : EventSource)
  (chunks : list (Z * jsstring)) (now : Z) :
  currentState s = OPEN -> at_line_start s -> no_terminator (textBuffer s) ->
  observe (feed closes chunks s)
  = observe (onProgress closes now (List.concat (map snd chunks)) s).
Proof.
  intros Hopen Hs Hno.
  destruct (feed_core closes chunks s Hopen Hs Hno) as (c1 & t1 & Hsplit1 & Hcore1 & Htext1).
  destruct (onProgress_core closes now (List.concat (map snd chunks)) s Hopen Hs Hno)
    as (c2 & t2 & Hsplit2 & Hcore2 & Htb2 & Htl2 & _).
  destruct (is_split_unique _ _ _ _ _ Hsplit1 Hsplit2) as [-> ->].
  apply observe_core; [congruence|].
  intros Ho. destruct (Htext1 Ho) as [-> ->]. split; congruence.
Qed.



(** ** Whole lines *)

Section Lines.

Variable closes : list Entry -> bool.

Lemma process_field_set_state (now : Z) (f v : jsstring) (w : LineState) (a : EventSource) :
  process_field now f v (set_state w a) = set_state w (process_field now f v a).
Proof.
  unfold process_field.
  do 4 (match goal with
        | |- context [str_eqb f ?b] => destruct (str_eqb f b); [reflexivity|]
        end).
  destruct (str_eqb f (str "heartbeatTimeout")); [|reflexivity].
  destruct a as [? ? ? ? ? ? ? ac tm ? ? ? ? ? ? ? ? ?]. cbn. now destruct tm.
Qed.

Lemma line_step_char (a : EventSource) (l : jsstring) (c : Z) :
  currentState a = OPEN -> isTerminator c = false ->
  line_step closes (a, l) c = (set_state (line_state (l ++ [c])) a, l ++ [c]).
Proof. intros Ha Hc. unfold line_step. unfold isTerminator in Hc. now rewrite Ha, Hc. Qed.

Lemma line_run_chars (line : jsstring) :
  forall (a : EventSource) (l0 : jsstring),
    no_terminator line -> currentState a = OPEN -> line <> [] ->
    line_run closes line (a, l0) = (set_state (line_state (l0 ++ line)) a, l0 ++ line).
Proof.
  induction line as [|c line IH]; intros a l0 Hno Ha Hne; [contradiction|].
  unfold no_terminator in Hno. cbn [forallb] in Hno. apply andb_true_iff in Hno.
  destruct Hno as [Hc Hno]. apply negb_true_iff in Hc.
  unfold line_run. cbn [fold_left]. rewrite line_step_char by assumption.
  change (fold_left (line_step closes) ?t ?x) with (line_run closes t x).
  destruct line as [|c' line'].
  - reflexivity.
  - rewrite IH; [|exact Hno|exact Ha|discriminate].
    now rewrite <- app_assoc.
Qed.

(** A line with a field, ended by a line feed. *)
Lemma line_run_field (line : jsstring) (a : EventSource) :
  no_terminator line -> line <> [] -> currentState a = OPEN ->
  line_run closes (line ++ [LF]) (a, [])
  = (set_state FIELD_START (process_field 0 (field_of line) (value_of line) a), []).
Proof.
  intros Hno Hne Ha. rewrite line_run_app, line_run_chars by assumption.
  cbn [app line_run fold_left]. unfold line_step.
  change (currentState (set_state ?v a)) with (currentState a). rewrite Ha.
  change ((LF =? CR) || (LF =? LF)) with true. cbv iota.
  destruct line; [contradiction|]. rewrite process_field_set_state. reflexivity.
Qed.

(** A blank line at the start of a line. *)
Lemma line_run_blank (a : EventSource) :
  currentState a = OPEN -> state a = FIELD_START ->
  line_run closes [LF] (a, [])
  = (let (a', returned) := dispatch_point closes a in
     if returned then a' else set_state FIELD_START a', []).
Proof.
  intros Ha Hs. cbn [line_run fold_left]. unfold line_step. rewrite Ha, Hs.
  change ((LF =? CR) || (LF =? LF)) with true.
  change (LineState_eqb FIELD_START AFTER_CR && (LF =? LF)) with false. cbv iota.
  rewrite (set_state_same a FIELD_START Hs).
  destruct (dispatch_point closes a) as [a' ret]. now destruct ret.
Qed.

Lemma field_value_of (f v : jsstring) :
  forallb not_colon f = true ->
  field_of (f ++ COLON :: SPACE :: v) = f /\ value_of (f ++ COLON :: SPACE :: v) = v.
Proof.
  intros Hf. assert (E : field_of (f ++ COLON :: SPACE :: v) = f) by now apply field_of_app_colon.
  split; [exact E|]. unfold value_of. rewrite E, skipn_length_app. reflexivity.
Qed.

(** [onProgress] on complete lines, from the start of a line with nothing
    buffered, is the line machine on the same text. *)
Lemma onProgress_lines (now : Z) (text : jsstring) (s : EventSource) :
  currentState s = OPEN -> at_line_start s -> textBuffer s = [] -> terminated text ->
  fst (line_run closes text (core s, [])) = core (onProgress closes now text s)
  /\ textBuffer (onProgress closes now text s) = [].
Proof.
  intros Hopen Hs Htb Hterm.
  assert (Hno : no_terminator (textBuffer s)) by now rewrite Htb.
  destruct (onProgress_core closes now text s Hopen Hs Hno)
    as (c1 & t1 & Hsplit & Hcore & Htb1 & _).
  rewrite Htb in Hsplit. cbn [app] in Hsplit.
  assert (Hsplit' : is_split text text []).
  { split; [now rewrite app_nil_r|]. split; [exact Hterm|reflexivity]. }
  destruct (is_split_unique _ _ _ _ _ Hsplit Hsplit') as [-> ->]. now split.
Qed.

End Lines.

(** * The retry interval *)

Lemma process_field_retry (now : Z) (value : jsstring) (a : EventSource) :
  process_field now (str "retry") value a
  = set_retry (parseDuration (Some value) (initialRetry a))
      (set_initialRetry (parseDuration (Some value) (initialRetry a)) a).
Proof. reflexivity. Qed.

(** A [retry] line in the Open state, seen through [core]. *)
Lemma onProgress_retry_line (closes : list Entry -> bool) (now : Z) (value : jsstring)
  (s : EventSource) :
  currentState s = OPEN -> at_line_start s -> textBuffer s = [] -> no_terminator value ->
  core (onProgress closes now (str "retry: " ++ value ++ [LF]) s)
  = set_state FIELD_START (process_field 0 (str "retry") value (core s)).
Proof.
  intros Hopen Hs Htb Hno.
  assert (Hline : str "retry: " ++ value ++ [LF] = (str "retry" ++ COLON :: SPACE :: value) ++ [LF])
    by reflexivity.
  rewrite Hline.
  destruct (onProgress_lines closes now
              ((str "retry" ++ COLON :: SPACE :: value) ++ [LF]) s Hopen Hs Htb) as [<- _].
  { right. eexists _, LF. split; reflexivity. }
  rewrite line_run_field.
  - destruct (field_value_of (str "retry") value eq_refl) as [-> ->]. reflexivity.
  - apply no_terminator_app. split; [reflexivity|]. exact Hno.
  - discriminate.
  - exact Hopen.
Qed.

Definition after_retry_5000 : EventSource :=
  onProgress never 2 (str "retry: 5000" ++ [LF]) opened.

(** C7, as stated, fails: after [retry: 5000], a [retry: 0] line is not
    ignored, it sets both intervals to the lower bound. *)
Lemma retry_zero_is_not_ignored :
  initialRetry after_retry_5000 = 5000 /\ retry after_retry_5000 = 5000
  /\ initialRetry (onProgress never 3 (str "retry: 0" ++ [LF]) after_retry_5000) = 1000
  /\ retry (onProgress never 3 (str "retry: 0" ++ [LF]) after_retry_5000) = 1000
  /\ ~ (initialRetry (onProgress never 3 (str "retry: 0" ++ [LF]) after_retry_5000)
        = initialRetry after_retry_5000
        /\ retry (onProgress never 3 (str "retry: 0" ++ [LF]) after_retry_5000)
           = retry after_retry_5000).
Proof.
  repeat split; try reflexivity. intros [H _]. vm_compute in H. discriminate H.
Qed.

(** C7, amended: a [retry] field whose value parses as the integer [n] sets
    both the stored initial retry and the current retry interval to [n]
    clamped to [1000, 18000000]: to 1000 when [n] is 0 or negative, to
    18000000 for 999999999. *)
Theorem retry_field_is_clamped (closes : list Entry -> bool) (now : Z) (value : jsstring)
  (n : Z) (s : EventSource) :
  currentState s = OPEN -> at_line_start s -> textBuffer s = [] ->
  no_terminator value -> parseInt value = Some n ->
  let s' := onProgress closes now (str "retry: " ++ value ++ [LF]) s in
  initialRetry s' = clampDuration n /\ retry s' = clampDuration n
  /\ (n <= 0 -> initialRetry s' = MINIMUM_DURATION /\ retry s' = MINIMUM_DURATION)
  /\ (value = str "999999999" ->
      initialRetry s' = MAXIMUM_DURATION /\ retry s' = MAXIMUM_DURATION).
Proof.
  intros Hopen Hs Htb Hno Hparse s'.
  assert (Hcore : core s' = set_state FIELD_START (process_field 0 (str "retry") value (core s)))
    by now apply onProgress_retry_line.
  rewrite process_field_retry in Hcore. unfold parseDuration in Hcore. rewrite Hparse in Hcore.
  assert (Hi : initialRetry s' = clampDuration n).
  { change (initialRetry s') with (initialRetry (core s')). now rewrite Hcore. }
  assert (Hr : retry s' = clampDuration n).
  { change (retry s') with (retry (core s')). now rewrite Hcore. }
  rewrite Hi, Hr. split; [reflexivity|]. split; [reflexivity|]. split.
  - intros Hn. unfold clampDuration, MINIMUM_DURATION, MAXIMUM_DURATION. lia.
  - intros ->. vm_compute in Hparse. injection Hparse as <-. now split.
Qed.

Lemma retry_field_is_clamped_witness :
  initialRetry (onProgress never 3 (str "retry: " ++ str "-5" ++ [LF]) after_retry_5000)
  = clampDuration (-5)
  /\ retry (onProgress never 3 (str "retry: " ++ str "-5" ++ [LF]) after_retry_5000)
     = clampDuration (-5).
Proof.
  destruct (retry_field_is_clamped never 3 (str "-5") (-5) after_retry_5000)
    as (H1 & H2 & _); [reflexivity|now right|reflexivity|reflexivity|reflexivity|].
  exact (conj H1 H2).
Defined.

(** [onFinish] while the connection is open or connecting: what it writes,
    before the listeners of the error event run. *)
Definition finished (now : Z) (s : EventSource) : EventSource :=
  set_readyState CONNECTING
    (set_retry (clampDuration (Z.min (initialRetry s * 16) (retry s * 2)))
       (set_timeout (Some {| armedAt := now; delay := retry s |})
          (set_log (log s
                    ++ match timeout s with Some _ => [(WAITING, ClearTimeout)] | None => [] end
                    ++ [(WAITING, SetTimeout (retry s))])
             (set_currentState WAITING s)))).

Lemma onFinish_eq (closes : list Entry -> bool) (now : Z) (error : option JsError)
  (s : EventSource) :
  currentState s = OPEN \/ currentState s = CONNECTING ->
  onFinish closes now error s
  = let s1 := fire closes onerror (ErrorEvent error)
                (dispatchEvent closes (ErrorEvent error) (finished now s)) in
    match error with
    | Some e => emit (ConsoleError (Reported e)) s1
    | None => s1
    end.
Proof.
  intros H. unfold onFinish.
  assert (E : forall X, match currentState s with
                        | OPEN | CONNECTING => X
                        | _ => s
                        end = X) by (intros X; destruct H as [-> | ->]; reflexivity).
  rewrite E. clear E H.
  destruct s as [? ? ? ? ? ? ? ac tm ? ? ? ? ? ? ? ? ?].
  unfold finished, setTimeout, clearTimeout, emit. cbn.
  destruct tm; cbn; rewrite <- ?app_assoc; reflexivity.
Qed.

Lemma onFinish_backoff (closes : list Entry -> bool) (now : Z) (error : option JsError)
  (s : EventSource) :
  currentState s = OPEN \/ currentState s = CONNECTING ->
  let s' := onFinish closes now error s in
  (exists l,
      log s' = log s
               ++ match timeout s with Some _ => [(WAITING, ClearTimeout)] | None => [] end
               ++ (WAITING, SetTimeout (retry s)) :: l
      /\ forall st d, ~ In (st, SetTimeout d) l)
  /\ retry s' = clampDuration (Z.min (16 * initialRetry s) (2 * retry s))
  /\ initialRetry s' = initialRetry s
  /\ ((currentState s' = WAITING
       /\ timeout s' = Some {| armedAt := now; delay := retry s |})
      \/ (currentState s' = CLOSED /\ timeout s' = None)).
Proof.
  intros H s'. subst s'. rewrite onFinish_eq by exact H. cbv zeta.
  assert (L : listened (finished now s)
                (fire closes onerror (ErrorEvent error)
                   (dispatchEvent closes (ErrorEvent error) (finished now s))))
    by (eapply listened_trans; [apply listened_dispatchEvent|apply listened_fire]).
  destruct L as (l & Fl & Hl).
  set (tail := match error with
               | Some e => [(currentState (fire closes onerror (ErrorEvent error)
                               (dispatchEvent closes (ErrorEvent error) (finished now s))),
                             ConsoleError (Reported e))]
               | None => []
               end).
  assert (Hno : forall st d, ~ In (st, SetTimeout d) (l ++ tail)).
  { intros st d Hin. apply in_app_or in Hin. destruct Hin as [Hin|Hin].
    - rewrite Forall_forall in Fl. apply (Fl _ Hin).
    - subst tail. destruct error; [|contradiction]. destruct Hin as [Hin|[]]. discriminate Hin. }
  rewrite (Z.mul_comm 16), (Z.mul_comm 2).
  split; [exists (l ++ tail); split; [|exact Hno]|].
  - subst tail. destruct error, Hl as [-> | [-> _]]; unfold emit, finished; cbn;
      rewrite <- ?app_assoc; cbn; rewrite ?app_nil_r; reflexivity.
  - destruct error, Hl as [-> | [-> _]]; unfold emit, finished; cbn; auto.
Qed.

(** C6: a transport finish in the Open or Connecting state arms the retry
    timer with the retry interval as it is, and only then replaces the
    interval by min(16 * initialRetry, 2 * retry) brought into the range
    from 1000 to 18000000: the new interval is never below 1000 and never
    above 18000000, it is 1000 when the doubled value is smaller and
    18000000 when it is larger.  So after a [retry: 5000] line the next
    attempt is scheduled in exactly 5000 ms and the interval becomes 10000
    for the failure after it, and after a [retry: 10000000] line the attempt
    is scheduled in 10000000 ms and the interval becomes 18000000, not
    20000000.  (A listener of the error event may still close the
    connection, which cancels the timer.) *)
Theorem onFinish_arms_then_doubles (closes : list Entry -> bool) (now : Z)
  (error : option JsError) (s : EventSource) :
  currentState s = OPEN \/ currentState s = CONNECTING ->
  let s' := onFinish closes now error s in
  (exists l,
      log s' = log s
               ++ match timeout s with Some _ => [(WAITING, ClearTimeout)] | None => [] end
               ++ (WAITING, SetTimeout (retry s)) :: l
      /\ forall st d, ~ In (st, SetTimeout d) l)
  /\ retry s' = Z.min (Z.max (Z.min (16 * initialRetry s) (2 * retry s)) 1000) 18000000
  /\ 1000 <= retry s' <= 18000000
  /\ (Z.min (16 * initialRetry s) (2 * retry s) <= 1000 -> retry s' = 1000)
  /\ (18000000 <= Z.min (16 * initialRetry s) (2 * retry s) -> retry s' = 18000000)
  /\ initialRetry s' = initialRetry s
  /\ ((currentState s' = WAITING
       /\ timeout s' = Some {| armedAt := now; delay := retry s |})
      \/ (currentState s' = CLOSED /\ timeout s' = None))
  /\ (forall now0,
        currentState s = OPEN -> at_line_start s -> textBuffer s = [] ->
        let s1 := onProgress closes now0 (str "retry: 5000" ++ [LF]) s in
        let s2 := onFinish closes now error s1 in
        In (WAITING, SetTimeout 5000) (log s2)
        /\ retry s2 = 10000
        /\ ((currentState s2 = WAITING
             /\ timeout s2 = Some {| armedAt := now; delay := 5000 |})
            \/ (currentState s2 = CLOSED /\ timeout s2 = None)))
  /\ (forall now0,
        currentState s = OPEN -> at_line_start s -> textBuffer s = [] ->
        let s1 := onProgress closes now0 (str "retry: 10000000" ++ [LF]) s in
        let s2 := onFinish closes now error s1 in
        In (WAITING, SetTimeout 10000000) (log s2)
        /\ retry s2 = 18000000
        /\ ((currentState s2 = WAITING
             /\ timeout s2 = Some {| armedAt := now; delay := 10000000 |})
            \/ (currentState s2 = CLOSED /\ timeout s2 = None))).
Proof.
  intros H s'. subst s'.
  destruct (onFinish_backoff closes now error s H) as (H1 & H2 & H3 & H4).
  cbv zeta in H4.
  assert (Hclamp : forall n, clampDuration n = Z.min (Z.max n 1000) 18000000)
    by reflexivity.
  rewrite Hclamp in H2.
  split; [exact H1|]. split; [exact H2|].
  split; [rewrite H2; lia|]. split; [intros Hlow; rewrite H2; lia|].
  split; [intros Hhigh; rewrite H2; lia|]. split; [exact H3|]. split; [exact H4|].
  assert (Line : forall now0 (value : jsstring) (n : Z),
            currentState s = OPEN -> at_line_start s -> textBuffer s = [] ->
            no_terminator value -> parseInt value = Some n -> 1000 <= n <= 18000000 ->
            let s1 := onProgress closes now0 (str "retry: " ++ value ++ [LF]) s in
            let s2 := onFinish closes now error s1 in
            In (WAITING, SetTimeout n) (log s2)
            /\ retry s2 = Z.min (Z.max (Z.min (16 * n) (2 * n)) 1000) 18000000
            /\ ((currentState s2 = WAITING
                 /\ timeout s2 = Some {| armedAt := now; delay := n |})
                \/ (currentState s2 = CLOSED /\ timeout s2 = None))).
  { intros now0 value n Hopen Hs Htb Hno Hparse Hn s1 s2.
    assert (Hcore : core s1
                    = set_state FIELD_START (process_field 0 (str "retry") value (core s)))
      by (apply (onProgress_retry_line closes now0 value s); trivial).
    rewrite process_field_retry in Hcore. unfold parseDuration in Hcore.
    rewrite Hparse, Hclamp in Hcore.
    replace (Z.min (Z.max n 1000) 18000000) with n in Hcore by lia.
    assert (Ho1 : currentState s1 = OPEN).
    { change (currentState s1) with (currentState (core s1)). now rewrite Hcore. }
    assert (Hr1 : retry s1 = n).
    { change (retry s1) with (retry (core s1)). now rewrite Hcore. }
    assert (Hi1 : initialRetry s1 = n).
    { change (initialRetry s1) with (initialRetry (core s1)). now rewrite Hcore. }
    destruct (onFinish_backoff closes now error s1 (or_introl Ho1))
      as ((l & Hl & _) & G2 & _ & G4).
    fold s2 in Hl, G2, G4. rewrite Hr1 in *. rewrite Hi1, Hclamp in G2.
    split; [|split; [exact G2|exact G4]].
    rewrite Hl. apply in_or_app. right. apply in_or_app. right. now left. }
  split.
  - intros now0 Hopen Hs Htb.
    apply (Line now0 (str "5000") 5000 Hopen Hs Htb); [reflexivity|reflexivity|lia].
  - intros now0 Hopen Hs Htb.
    apply (Line now0 (str "10000000") 10000000 Hopen Hs Htb); [reflexivity|reflexivity|lia].
Qed.

(** A state no run reaches, with a retry interval below the lower bound. *)
Definition short_retry : EventSource := set_retry 100 (set_initialRetry 100 opened).

Lemma onFinish_arms_then_doubles_witness :
  retry (onFinish never 9 None after_retry_5000) = 10000
  /\ timeout (onFinish never 9 None after_retry_5000) = Some {| armedAt := 9; delay := 5000 |}
  /\ retry (onFinish never 9 None (onProgress never 2 (str "retry: 10000000" ++ [LF]) opened))
     = 18000000
  /\ retry (onFinish never 9 None short_retry) = 1000.
Proof.
  destruct (onFinish_arms_then_doubles never 9 None after_retry_5000)
    as (_ & H2 & _); [now left|].
  destruct (onFinish_arms_then_doubles never 9 None opened)
    as (_ & _ & _ & _ & _ & _ & _ & _ & H9); [now left|].
  destruct (H9 2 eq_refl (or_intror eq_refl) eq_refl) as (_ & G2 & _).
  destruct (onFinish_arms_then_doubles never 9 None short_retry)
    as (_ & _ & _ & H4 & _); [now left|].
  split; [exact H2|]. split; [reflexivity|]. split; [exact G2|].
  apply H4. vm_compute. discriminate.
Defined.

(** * A connection that has been closed *)

Definition is_closed (s : EventSource) : Prop :=
  currentState s = CLOSED /\ readyState s = CLOSED
  /\ abortController s = false /\ timeout s = None.

Lemma run_listeners_closed (closes : list Entry -> bool) (s : EventSource) :
  is_closed s -> run_listeners closes s = s.
Proof.
  intros (H1 & H2 & H3 & H4). unfold run_listeners. destruct (closes (log s)); [|reflexivity].
  rewrite close_eq. unfold closing_log. rewrite H3, H4. cbn [app]. rewrite app_nil_r.
  destruct s. cbn in *. subst. reflexivity.
Qed.

(** * Delivery of Event Records *)

(** The Event Records a log delivers, in order: the MessageEvents handed to
    [dispatchEvent]. *)
Definition record_of (e : Entry) : list Event :=
  match snd e with
  | DispatchEvent (MessageEvent t d i) => [MessageEvent t d i]
  | _ => []
  end.

Definition records (l : list Entry) : list Event := flat_map record_of l.

(** A call of listeners: [dispatchEvent] or [fire]. *)
Definition is_call (e : Entry) : Prop :=
  match snd e with DispatchEvent _ | Fire _ _ => True | _ => False end.

Definition handler_for (type : jsstring) : option Handler :=
  if str_eqb type (str "open") then Some onopen
  else if str_eqb type (str "message") then Some onmessage
  else if str_eqb type (str "error") then Some onerror
  else None.

Lemma records_app (l1 l2 : list Entry) : records (l1 ++ l2) = records l1 ++ records l2.
Proof. apply flat_map_app. Qed.

Lemma records_closing_log (s : EventSource) : records (closing_log s) = [].
Proof. unfold closing_log. now destruct (abortController s), (timeout s). Qed.

(** An entry logged by [close]. *)
Definition closing_entry (e : Entry) : Prop :=
  fst e = CLOSED /\ (snd e = Abort \/ snd e = ClearTimeout).

(** What is logged after the call [e] whose listener closed the connection:
    the entries of [close] and then, when [e] handed an event to the
    listeners of its type, at most the call of the handler property with
    that same event, in the Closed state. *)
Definition after_close (e : Entry) (lb : list Entry) : Prop :=
  exists c hs,
    lb = c ++ hs /\ Forall closing_entry c
    /\ (hs = [] \/ exists h ev, snd e = DispatchEvent ev /\ hs = [(CLOSED, Fire h ev)]).

Lemma closing_log_closing (s : EventSource) : Forall closing_entry (closing_log s).
Proof.
  unfold closing_log. apply Forall_app. split.
  - destruct (abortController s); [|constructor].
    constructor; [|constructor]. split; [reflexivity|now left].
  - destruct (timeout s); [|constructor].
    constructor; [|constructor]. split; [reflexivity|now right].
Qed.

Section Delivery.

Variable closes : list Entry -> bool.

(** No listener called by the entries of [l], logged after [l0], closes. *)
Definition calm (l0 l : list Entry) : Prop :=
  forall l1 e l2, l = l1 ++ e :: l2 -> is_call e -> closes (l0 ++ l1 ++ [e]) = false.

(** What a piece of the loop, run in the Open state after the log [l0], has
    added to the log: either every entry was logged in the Open state and no
    listener closed the connection, or some call [e] was the first whose
    listener closed it, and no Event Record follows [e]. *)
Inductive outcome (l0 l : list Entry) : ConnState -> Prop :=
| still_open :
    calm l0 l -> Forall (fun e => fst e = OPEN) l -> outcome l0 l OPEN
| now_closed la e lb :
    l = la ++ e :: lb -> calm l0 la -> Forall (fun e => fst e = OPEN) (la ++ [e]) ->
    is_call e -> closes (l0 ++ la ++ [e]) = true -> records lb = [] ->
    after_close e lb ->
    outcome l0 l CLOSED.

Lemma calm_nil (l0 : list Entry) : calm l0 [].
Proof. intros l1 e l2 H. now destruct l1. Qed.

Lemma calm_app (l0 l1 l2 : list Entry) : calm l0 l1 -> calm (l0 ++ l1) l2 -> calm l0 (l1 ++ l2).
Proof.
  intros H1 H2 m1 e m2 E He.
  symmetry in E. apply app_eq_app in E. destruct E as (m & [[-> E]|[-> E]]).
  - specialize (H2 m e m2 E He). now rewrite <- !app_assoc in *.
  - destruct m as [|x m].
    + rewrite app_nil_r in H2. cbn [app] in E. specialize (H2 [] e m2 (eq_sym E) He).
      cbn [app] in H2. now rewrite <- app_assoc in H2.
    + injection E as Ex Em. subst. now apply (H1 m1 _ m).
Qed.



Lemma deliver_eq (s : EventSource) :
  deliver closes s
  = let event := MessageEvent (eventTypeBuffer s) (slice_from (dataBuffer s) 1)
                   (lastEventIdBuffer s) in
    match handler_for (eventTypeBuffer s) with
    | Some h => fire closes h event (dispatchEvent closes event s)
    | None => dispatchEvent closes event s
    end.
Proof.
  unfold deliver, handler_for. cbv zeta.
  set (event := MessageEvent _ _ _).
  assert (E : eventTypeBuffer (dispatchEvent closes event s) = eventTypeBuffer s)
    by (destruct (listened_dispatchEvent closes event s) as (l & _ & [-> | [-> _]]); reflexivity).
  rewrite E.
  repeat match goal with |- context [str_eqb ?a ?b] => destruct (str_eqb a b) end; reflexivity.
Qed.

Lemma calm_single (l0 : list Entry) (e : Entry) :
  closes (l0 ++ [e]) = false -> calm l0 [e].
Proof.
  intros H l1 x l2 E _. destruct l1 as [|y l1].
  - injection E as <- _. exact H.
  - injection E as _ E. now destruct l1.
Qed.

Lemma run_listeners_cases (s : EventSource) :
  (closes (log s) = true /\ run_listeners closes s = set_log (log s ++ closing_log s) (closed s))
  \/ (closes (log s) = false /\ run_listeners closes s = s).
Proof.
  unfold run_listeners. destruct (closes (log s)); [left|right]; split; trivial.
  apply close_eq.
Qed.

(** Delivering one record in the Open state. *)
Lemma deliver_outcome (s : EventSource) :
  currentState s = OPEN ->
  exists l,
    log (deliver closes s)
    = log s ++ (OPEN, DispatchEvent (MessageEvent (eventTypeBuffer s)
                                       (slice_from (dataBuffer s) 1) (lastEventIdBuffer s))) :: l
    /\ records l = []
    /\ outcome (log s)
         ((OPEN, DispatchEvent (MessageEvent (eventTypeBuffer s)
                                  (slice_from (dataBuffer s) 1) (lastEventIdBuffer s))) :: l)
         (currentState (deliver closes s)).
Proof.
  intros Hopen. rewrite deliver_eq. cbv zeta.
  set (ev := MessageEvent _ _ _). set (e0 := (OPEN, DispatchEvent ev)).
  unfold dispatchEvent.
  set (s1 := emit (DispatchEvent ev) s).
  assert (L1 : log s1 = log s ++ [e0]) by (subst s1 e0; unfold emit; cbn; now rewrite Hopen).
  assert (O1 : currentState s1 = OPEN) by exact Hopen.
  clearbody s1.
  destruct (run_listeners_cases s1) as [[B1 ->]|[B1 ->]]; rewrite L1 in B1.
  - (* a listener of the event closes *)
    assert (Hnow : forall lb, records lb = [] -> after_close e0 lb ->
                              outcome (log s) (e0 :: lb) CLOSED).
    { intros lb Hlb Hac. apply (now_closed _ _ [] e0 lb); trivial.
      - apply calm_nil.
      - repeat constructor.
      - exact I. }
    destruct (handler_for (eventTypeBuffer s)) as [h|].
    + unfold fire. rewrite run_listeners_closed by (repeat split; reflexivity).
      exists (closing_log s1 ++ [(CLOSED, Fire h ev)]).
      assert (R : records (closing_log s1 ++ [(CLOSED, Fire h ev)]) = [])
        by (rewrite records_app, records_closing_log; reflexivity).
      assert (A : after_close e0 (closing_log s1 ++ [(CLOSED, Fire h ev)])).
      { exists (closing_log s1), [(CLOSED, Fire h ev)]. split; [reflexivity|].
        split; [apply closing_log_closing|]. right. now exists h, ev. }
      split; [|split; [exact R|exact (Hnow _ R A)]].
      unfold emit. cbn. rewrite L1, <- !app_assoc. reflexivity.
    + exists (closing_log s1).
      assert (A : after_close e0 (closing_log s1)).
      { exists (closing_log s1), []. split; [now rewrite app_nil_r|].
        split; [apply closing_log_closing|now left]. }
      split; [|split; [apply records_closing_log
                      |exact (Hnow _ (records_closing_log s1) A)]].
      cbn. rewrite L1, <- !app_assoc. reflexivity.
  - (* no listener of the event closes *)
    destruct (handler_for (eventTypeBuffer s)) as [h|].
    + unfold fire. set (s2 := emit (Fire h ev) s1). set (f := (OPEN, Fire h ev)).
      assert (L2 : log s2 = log s ++ [e0; f])
        by (subst s2 f; unfold emit; cbn; rewrite O1, L1, <- app_assoc; reflexivity).
      assert (O2 : currentState s2 = OPEN) by exact O1.
      clearbody s2.
      destruct (run_listeners_cases s2) as [[B2 ->]|[B2 ->]]; rewrite L2 in B2.
      * exists (f :: closing_log s2).
        split; [cbn; rewrite L2, <- !app_assoc; reflexivity|].
        split; [cbn; apply records_closing_log|].
        apply (now_closed _ _ [e0] f (closing_log s2)); trivial.
        -- now apply calm_single.
        -- repeat constructor.
        -- exact I.
        -- apply records_closing_log.
        -- exists (closing_log s2), []. split; [now rewrite app_nil_r|].
           split; [apply closing_log_closing|now left].
      * exists [f]. split; [exact L2|]. split; [reflexivity|].
        rewrite O2.
        apply still_open; [|repeat constructor].
        apply (calm_app (log s) [e0] [f]); apply calm_single; trivial.
        now rewrite <- app_assoc.
    + exists []. split; [exact L1|]. split; [reflexivity|].
      rewrite O1. apply still_open; [now apply calm_single|repeat constructor].
Qed.

End Delivery.

Section Batch.

Variable closes : list Entry -> bool.

(** [s'] comes from [s] by a piece of the loop that ran in the Open state. *)
Definition ran (s s' : EventSource) : Prop :=
  exists l, log s' = log s ++ l /\ outcome closes (log s) l (currentState s').







Definition default_type (type : jsstring) : jsstring :=
  match type with [] => str "message" | _ :: _ => type end.

(** A blank line in the Open state: the record it delivers, if any, what
    it does to the variables, and when it makes [onProgress] return. *)
Lemma dispatch_point_spec (s : EventSource) :
  currentState s = OPEN ->
  let s' := fst (dispatch_point closes s) in
  ran s s'
  /\ (if snd (dispatch_point closes s) then currentState s' = CLOSED
      else currentState s' = OPEN /\ dataBuffer s' = [] /\ eventTypeBuffer s' = [])
  /\ match dataBuffer s with
     | [] => log s' = log s /\ lastEventId s' = lastEventId s
     | _ :: _ =>
         lastEventId s' = lastEventIdBuffer s
         /\ exists l,
             log s' = log s
                      ++ (OPEN, DispatchEvent
                                  (MessageEvent (default_type (eventTypeBuffer s))
                                     (slice_from (dataBuffer s) 1) (lastEventIdBuffer s))) :: l
             /\ records l = []
     end.
Proof.
  intros Hopen. unfold dispatch_point. destruct (dataBuffer s) as [|d db] eqn:Hdb.
  - cbn [fst snd]. split; [|repeat split; try reflexivity; exact Hopen].
    exists []. rewrite app_nil_r. split; [reflexivity|].
    change (currentState (set_eventTypeBuffer [] (set_dataBuffer [] s))) with (currentState s).
    rewrite Hopen. apply still_open; [apply calm_nil|constructor].
  - cbv zeta.
    set (s1 := match eventTypeBuffer (set_lastEventId (lastEventIdBuffer s) s) with
               | [] => set_eventTypeBuffer (str "message")
                         (set_lastEventId (lastEventIdBuffer s) s)
               | _ :: _ => set_lastEventId (lastEventIdBuffer s) s
               end).
    assert (H1 : currentState s1 = OPEN /\ log s1 = log s
                 /\ eventTypeBuffer s1 = default_type (eventTypeBuffer s)
                 /\ dataBuffer s1 = dataBuffer s /\ lastEventIdBuffer s1 = lastEventIdBuffer s
                 /\ lastEventId s1 = lastEventIdBuffer s).
    { subst s1. change (eventTypeBuffer (set_lastEventId ?v s)) with (eventTypeBuffer s).
      destruct (eventTypeBuffer s) eqn:Het; repeat split; try reflexivity;
        try exact Hopen; exact Het. }
    clearbody s1. destruct H1 as (O1 & L1 & T1 & D1 & I1 & E1).
    destruct (deliver_outcome closes s1 O1) as (l & Hl & Hr & Ho).
    rewrite L1, T1, D1, I1, Hdb in Hl, Ho.
    assert (Hid : lastEventId (deliver closes s1) = lastEventIdBuffer s).
    { destruct (listened_deliver closes s1) as (l' & _ & [-> | [-> _]]); exact E1. }
    destruct (currentState (deliver closes s1)) eqn:Hc; cbn [fst snd];
      try (inversion Ho; fail).
    + (* still open: the buffers are cleared *)
      split; [|split; [repeat split; exact Hc|split; [exact Hid|]]].
      * eexists. split; [exact Hl|].
        change (currentState (set_eventTypeBuffer [] (set_dataBuffer [] ?x)))
          with (currentState x). now rewrite Hc.
      * exists l. split; [exact Hl|exact Hr].
    + (* closed by a listener: the function returns *)
      split; [|split; [exact Hc|split; [exact Hid|]]].
      * eexists. split; [exact Hl|]. now rewrite Hc.
      * exists l. split; [exact Hl|exact Hr].
Qed.







End Batch.

(** ** The connection as a machine driven by signals *)

(** What the transport, the timer and the application can do to the
    connection. *)
Inductive Signal :=
| Start (now status : Z) (statusText : jsstring) (contentType : option jsstring)
    (responseHeaders : Headers)
| Progress (now : Z) (textChunk : jsstring)
| Finish (now : Z) (error : option JsError)
| TimerFires (now : Z)
| Close.

Definition react (closes : list Entry -> bool) (cfg : Config) (sig : Signal)
  (s : EventSource) : EventSource :=
  match sig with
  | Start now status statusText contentType responseHeaders =>
      onStart closes now status statusText contentType responseHeaders s
  | Progress now textChunk => onProgress closes now textChunk s
  | Finish now error => onFinish closes now error s
  | TimerFires now => onTimeout closes cfg now s
  | Close => close s
  end.

Section Quiet.

Variable closes : list Entry -> bool.

(** [s'] has the log of [s] and more entries, none of them an Event Record. *)
Definition quiet (s s' : EventSource) : Prop :=
  exists l, log s' = log s ++ l /\ records l = [].

Lemma quiet_same_log (s s' : EventSource) : log s' = log s -> quiet s s'.
Proof. intros H. exists []. now rewrite app_nil_r. Qed.

Lemma quiet_trans (s1 s2 s3 : EventSource) : quiet s1 s2 -> quiet s2 s3 -> quiet s1 s3.
Proof.
  intros (l1 & L1 & R1) (l2 & L2 & R2). exists (l1 ++ l2).
  split; [now rewrite L2, L1, app_assoc|]. now rewrite records_app, R1, R2.
Qed.

Lemma quiet_emit (e : Effect) (s : EventSource) :
  record_of (currentState s, e) = [] -> quiet s (emit e s).
Proof.
  intros H. exists [(currentState s, e)]. split; [reflexivity|].
  cbn [records flat_map]. now rewrite H.
Qed.

Lemma quiet_close (s : EventSource) : quiet s (close s).
Proof. rewrite close_eq. exists (closing_log s). split; [reflexivity|apply records_closing_log]. Qed.

Lemma quiet_run_listeners (s : EventSource) : quiet s (run_listeners closes s).
Proof.
  unfold run_listeners. destruct (closes (log s)); [apply quiet_close|now apply quiet_same_log].
Qed.

Lemma quiet_dispatchEvent (e : Event) (s : EventSource) :
  record_of (currentState s, DispatchEvent e) = [] -> quiet s (dispatchEvent closes e s).
Proof.
  intros H. unfold dispatchEvent.
  apply quiet_trans with (emit (DispatchEvent e) s);
    [now apply quiet_emit|apply quiet_run_listeners].
Qed.

Lemma quiet_fire (h : Handler) (e : Event) (s : EventSource) : quiet s (fire closes h e s).
Proof.
  unfold fire.
  apply quiet_trans with (emit (Fire h e) s); [now apply quiet_emit|apply quiet_run_listeners].
Qed.

Lemma quiet_onStart (now status : Z) (statusText : jsstring) (contentType : option jsstring)
  (responseHeaders : Headers) (s : EventSource) :
  quiet s (onStart closes now status statusText contentType responseHeaders s).
Proof.
  unfold onStart. destruct (currentState s); try now apply quiet_same_log.
  match goal with |- context [if ?b then _ else _] => destruct b end; cbv zeta.
  - eapply quiet_trans; [|apply quiet_fire].
    eapply quiet_trans; [|now apply quiet_dispatchEvent]. now apply quiet_same_log.
  - eapply quiet_trans; [|now apply quiet_emit].
    eapply quiet_trans; [|apply quiet_fire].
    eapply quiet_trans; [|now apply quiet_dispatchEvent]. now apply quiet_emit.
Qed.

Lemma quiet_onFinish (now : Z) (error : option JsError) (s : EventSource) :
  quiet s (onFinish closes now error s).
Proof.
  assert (H : forall s0, currentState s0 = OPEN \/ currentState s0 = CONNECTING ->
                         quiet s0 (onFinish closes now error s0)).
  { intros s0 H0. rewrite onFinish_eq by exact H0. cbv zeta.
    assert (Q : quiet s0 (fire closes onerror (ErrorEvent error)
                            (dispatchEvent closes (ErrorEvent error) (finished now s0)))).
    { eapply quiet_trans; [|apply quiet_fire].
      eapply quiet_trans; [|now apply quiet_dispatchEvent].
      eexists. split; [reflexivity|]. now destruct (timeout s0). }
    destruct error; [|exact Q]. eapply quiet_trans; [exact Q|now apply quiet_emit]. }
  destruct (currentState s) eqn:E; try solve [apply H; auto];
    unfold onFinish; rewrite E; now apply quiet_same_log.
Qed.

Lemma quiet_onTimeout (cfg : Config) (now : Z) (s : EventSource) :
  quiet s (onTimeout closes cfg now s).
Proof.
  unfold onTimeout. cbv zeta.
  assert (Hset : forall d x, quiet x (setTimeout now d x))
    by (intros d x; unfold setTimeout;
        apply quiet_trans with (emit (SetTimeout d) x);
        [now apply quiet_emit|now apply quiet_same_log]).
  assert (Hother :
    quiet s
      (if match wasActivity (set_timeout None s) with None => true | Some t => t =? 0 end
          && abortController (set_timeout None s)
       then
         if abortController
              (onFinish closes now
                 (Some (NoActivity (heartbeatTimeout (set_timeout None s))
                          (ConnState_eqb (currentState (set_timeout None s)) CONNECTING)
                          (textLength (set_timeout None s)))) (set_timeout None s))
         then set_abortController false
                (emit Abort
                   (onFinish closes now
                      (Some (NoActivity (heartbeatTimeout (set_timeout None s))
                               (ConnState_eqb (currentState (set_timeout None s)) CONNECTING)
                               (textLength (set_timeout None s)))) (set_timeout None s)))
         else onFinish closes now
                (Some (NoActivity (heartbeatTimeout (set_timeout None s))
                         (ConnState_eqb (currentState (set_timeout None s)) CONNECTING)
                         (textLength (set_timeout None s)))) (set_timeout None s)
       else setTimeout now
              (Z.max (match wasActivity (set_timeout None s) with
                      | Some t => t
                      | None => now
                      end + heartbeatTimeout (set_timeout None s) - now) 1)
              (set_wasActivity None (set_timeout None s)))).
  { match goal with |- context [if ?b then _ else _] => destruct b end.
    - set (s1 := onFinish closes now _ (set_timeout None s)).
      assert (Q : quiet s s1)
        by (eapply quiet_trans; [|apply quiet_onFinish]; now apply quiet_same_log).
      destruct (abortController s1); [|exact Q].
      eapply quiet_trans; [exact Q|].
      apply quiet_trans with (emit Abort s1); [now apply quiet_emit|now apply quiet_same_log].
    - eapply quiet_trans; [|apply Hset]. now apply quiet_same_log. }
  change (currentState (set_timeout None s)) with (currentState s) in *.
  destruct (currentState s); try exact Hother.
  match goal with
  | |- context [requestURL ?u ?i] => destruct (requestURL u i)
  end.
  - eapply quiet_trans; [|now apply quiet_same_log].
    eapply quiet_trans; [|now apply quiet_emit].
    eapply quiet_trans; [|now apply quiet_same_log].
    eapply quiet_trans; [|apply Hset]. now apply quiet_same_log.
  - eapply quiet_trans; [|now apply quiet_emit].
    eapply quiet_trans; [|now apply quiet_same_log].
    eapply quiet_trans; [|apply Hset]. now apply quiet_same_log.
Qed.

End Quiet.
(** ** Records and the handler properties *)








Section Silent.

Variable closes : list Entry -> bool.












End Silent.


Lemma records_nil_each (l : list Entry) :
  records l = [] -> Forall (fun e => record_of e = []) l.
Proof.
  induction l as [|e l IH]; intros H; constructor; cbn [records flat_map] in H;
    apply app_eq_nil in H; destruct H as [H1 H2]; auto.
Qed.




Section Handlers.

Variable closes : list Entry -> bool.



End Handlers.





(** * The dispatch point *)


Lemma quiet_process_field (now : Z) (f v : jsstring) (s : EventSource) :
  quiet s (process_field now f v s).
Proof.
  unfold process_field.
  repeat match goal with
         | |- context [if str_eqb ?a ?b then _ else _] =>
             destruct (str_eqb a b); [now apply quiet_same_log|]
         end.
  destruct (str_eqb f (str "heartbeatTimeout")); [|now apply quiet_same_log].
  cbv zeta. set (s1 := set_heartbeatTimeout _ s).
  change (timeout s1) with (timeout s). destruct (timeout s); [|now apply quiet_same_log].
  exists [(currentState s, ClearTimeout); (currentState s, SetTimeout (heartbeatTimeout s1))].
  split; [|reflexivity].
  unfold setTimeout, clearTimeout, emit. cbn. now rewrite <- app_assoc.
Qed.


Lemma slice_from_1 (x : Z) (l : jsstring) : slice_from (x :: l) 1 = l.
Proof. apply (slice_from_suffix [x] l). Qed.





(** * The data of a record *)

(** v1 LF v2 LF ... LF vk. *)
Definition join_lines (vs : list jsstring) : jsstring :=
  match vs with
  | [] => []
  | v :: rest => v ++ List.concat (map (cons LF) rest)
  end.

Definition data_lines (vs : list jsstring) : jsstring :=
  List.concat (map (fun v => str "data: " ++ v ++ [LF]) vs).

Lemma process_field_data (now : Z) (v : jsstring) (a : EventSource) :
  process_field now (str "data") v a = set_dataBuffer ((dataBuffer a ++ [LF]) ++ v) a.
Proof. reflexivity. Qed.

Lemma line_run_data_lines (closes : list Entry -> bool) (vs : list jsstring) :
  forall a : EventSource,
    currentState a = OPEN -> Forall no_terminator vs ->
    line_run closes (data_lines vs) (a, [])
    = (match vs with
       | [] => a
       | _ :: _ =>
           set_state FIELD_START
             (set_dataBuffer (dataBuffer a ++ List.concat (map (cons LF) vs)) a)
       end, []).
Proof.
  induction vs as [|v vs IH]; intros a Ha Hno; [reflexivity|].
  inversion Hno as [|? ? Hv Hvs]; subst.
  unfold data_lines. cbn [map List.concat].
  change (str "data: " ++ v ++ [LF]) with ((str "data" ++ COLON :: SPACE :: v) ++ [LF]).
  rewrite line_run_app, line_run_field;
    [|apply no_terminator_app; split; [reflexivity|exact Hv]|discriminate|exact Ha].
  destruct (field_value_of (str "data") v eq_refl) as [-> ->].
  rewrite process_field_data. fold (data_lines vs). rewrite IH; [|exact Ha|exact Hvs].
  destruct vs as [|w vs].
  - cbn [map List.concat]. rewrite app_nil_r, <- app_assoc. reflexivity.
  - match goal with
    | |- context [dataBuffer (set_state FIELD_START (set_dataBuffer ?x a))] =>
        change (dataBuffer (set_state FIELD_START (set_dataBuffer x a))) with x
    end.
    cbn [map List.concat]. rewrite <- !app_assoc. reflexivity.
Qed.

Lemma concat_cons_join (vs : list jsstring) :
  vs <> [] -> List.concat (map (cons LF) vs) = LF :: join_lines vs.
Proof. destruct vs; [contradiction|reflexivity]. Qed.

(** C5, as stated, fails: when the first data line is empty and another
    follows, the payload starts with the newline that joins them. *)
Lemma payload_may_start_with_newline :
  records (log (onProgress never 2 (data_lines [[]; str "x"] ++ [LF]) opened))
  = [MessageEvent (str "message") (LF :: str "x") []]
  /\ hd_error (LF :: str "x") = Some LF.
Proof. split; reflexivity. Qed.

(** C5, amended: for data lines with values v1, ..., vk (k >= 1), each line
    appends a newline and its value to [dataBuffer], and the one record
    delivered at the blank line has the payload v1 LF ... LF vk: the buffer
    without its first newline.  The payload starts with a newline exactly
    when v1 is empty and k >= 2. *)
Theorem data_lines_are_joined (closes : list Entry -> bool) (now : Z)
  (vs : list jsstring) (s : EventSource) :
  currentState s = OPEN -> at_line_start s -> textBuffer s = [] -> dataBuffer s = [] ->
  Forall no_terminator vs -> vs <> [] ->
  dataBuffer (onProgress closes now (data_lines vs) s) = LF :: join_lines vs
  /\ (exists l,
         log (onProgress closes now (data_lines vs ++ [LF]) s)
         = log s
           ++ (OPEN, DispatchEvent (MessageEvent (default_type (eventTypeBuffer s))
                                      (join_lines vs) (lastEventIdBuffer s))) :: l
         /\ records l = [])
  /\ (hd_error (join_lines vs) = Some LF <-> exists rest, vs = [] :: rest /\ rest <> []).
Proof.
  intros Hopen Hs Htb Hdb Hno Hne.
  assert (Hterm : terminated (data_lines vs)).
  { destruct vs as [|v vs]; [contradiction|]. right.
    clear -vs. revert v. induction vs as [|w vs IH]; intros v.
    - exists (str "data: " ++ v), LF. unfold data_lines. cbn [map List.concat].
      now rewrite app_nil_r, <- app_assoc.
    - destruct (IH w) as (t & c & E & Hc). exists ((str "data: " ++ v ++ [LF]) ++ t), c.
      unfold data_lines in *. cbn [map List.concat] in *. rewrite E.
      now rewrite <- !app_assoc. }
  assert (Ha : currentState (core s) = OPEN) by exact Hopen.
  assert (Hrun := line_run_data_lines closes vs (core s) Ha Hno).
  change (dataBuffer (core s)) with (dataBuffer s) in Hrun. rewrite Hdb in Hrun.
  cbn [app] in Hrun. rewrite concat_cons_join in Hrun by exact Hne.
  assert (Hvs : match vs with
                | [] => core s
                | _ :: _ => set_state FIELD_START (set_dataBuffer (LF :: join_lines vs) (core s))
                end = set_state FIELD_START (set_dataBuffer (LF :: join_lines vs) (core s)))
    by (destruct vs; [contradiction|reflexivity]).
  rewrite Hvs in Hrun. clear Hvs.
  split; [|split].
  - destruct (onProgress_lines closes now (data_lines vs) s Hopen Hs Htb Hterm) as [Hc _].
    rewrite Hrun in Hc. cbn [fst] in Hc.
    change (dataBuffer (onProgress closes now (data_lines vs) s))
      with (dataBuffer (core (onProgress closes now (data_lines vs) s))).
    now rewrite <- Hc.
  - destruct (onProgress_lines closes now (data_lines vs ++ [LF]) s Hopen Hs Htb) as [Hc _].
    { right. now exists (data_lines vs), LF. }
    rewrite line_run_app, Hrun, line_run_blank in Hc; [|exact Hopen|reflexivity].
    set (a := set_state FIELD_START (set_dataBuffer (LF :: join_lines vs) (core s))) in *.
    destruct (dispatch_point_spec closes a Hopen) as (_ & _ & Hd).
    change (dataBuffer a) with (LF :: join_lines vs) in Hd.
    change (eventTypeBuffer a) with (eventTypeBuffer s) in Hd.
    change (lastEventIdBuffer a) with (lastEventIdBuffer s) in Hd.
    change (log a) with (log s) in Hd.
    rewrite slice_from_1 in Hd. destruct Hd as (_ & l & Hl & Hr).
    exists l. split; [|exact Hr].
    change (log (onProgress closes now (data_lines vs ++ [LF]) s))
      with (log (core (onProgress closes now (data_lines vs ++ [LF]) s))).
    rewrite <- Hc. destruct (dispatch_point closes a) as [a' ret]. cbn [fst] in *.
    destruct ret; exact Hl.
  - destruct vs as [|v rest]; [contradiction|]. cbn [join_lines]. split.
    + intros H. inversion Hno as [|? ? Hv _]; subst.
      destruct v as [|x v].
      * exists rest. split; [reflexivity|]. intros ->. discriminate H.
      * cbn in H. injection H as ->. unfold no_terminator in Hv. cbn in Hv. discriminate Hv.
    + intros (rest' & E & Hr). injection E as -> ->. destruct rest'; [contradiction|reflexivity].
Qed.

Lemma data_lines_are_joined_witness :
  dataBuffer (onProgress never 2 (data_lines [str "a"; str "b"]) opened)
  = LF :: join_lines [str "a"; str "b"].
Proof.
  apply (data_lines_are_joined never 2 [str "a"; str "b"] opened);
    [reflexivity|now right|reflexivity|reflexivity|repeat constructor|discriminate].
Defined.

(** * The pending event id *)

(** Lines, each ended by a line feed. *)
Definition serialize (lines : list jsstring) : jsstring :=
  List.concat (map (fun l => l ++ [LF]) lines).

(** Every record of the log carries the event id [id]. *)
Definition records_have_id (id : jsstring) (l : list Entry) : Prop :=
  Forall (fun ev => exists t d, ev = MessageEvent t d id) (records l).

Lemma process_field_keeps_id (now : Z) (f v : jsstring) (a : EventSource) :
  f <> str "id" -> lastEventIdBuffer (process_field now f v a) = lastEventIdBuffer a.
Proof.
  intros Hf. unfold process_field.
  destruct (str_eqb f (str "data")); [reflexivity|].
  destruct (str_eqb f (str "id")) eqn:E; [apply str_eqb_eq in E; contradiction|].
  destruct (str_eqb f (str "event")); [reflexivity|].
  destruct (str_eqb f (str "retry")); [reflexivity|].
  destruct (str_eqb f (str "heartbeatTimeout")); [|reflexivity].
  cbv zeta. set (a1 := set_heartbeatTimeout _ a).
  change (timeout a1) with (timeout a). now destruct (timeout a).
Qed.

Section PendingId.

Variable closes : list Entry -> bool.

(** One line without an [id] field, on the line machine. *)
Lemma line_run_keeps_id (l : jsstring) (a : EventSource) :
  currentState a = OPEN -> no_terminator l -> field_of l <> str "id" ->
  let a' := fst (line_run closes (l ++ [LF]) (a, [])) in
  snd (line_run closes (l ++ [LF]) (a, [])) = []
  /\ lastEventIdBuffer a' = lastEventIdBuffer a
  /\ (currentState a' = OPEN \/ currentState a' = CLOSED)
  /\ exists lg, log a' = log a ++ lg /\ records_have_id (lastEventIdBuffer a) lg.
Proof.
  intros Ha Hno Hf. destruct l as [|x l].
  - (* a blank line, or the line feed of a CR LF pair *)
    cbn [app line_run fold_left fst snd]. unfold line_step. rewrite Ha.
    change ((LF =? CR) || (LF =? LF)) with true. cbv iota.
    destruct (LineState_eqb (state a) AFTER_CR && (LF =? LF)).
    + cbn [fst snd]. repeat split; auto. exists []. rewrite app_nil_r. split; [reflexivity|constructor].
    + destruct (dispatch_point_spec closes (set_state FIELD_START a) Ha) as (_ & Hret & Hd).
      pose proof (dispatch_point_frame closes (set_state FIELD_START a)) as Hfr.
      cbv zeta in Hfr. destruct Hfr as (_ & _ & _ & Hid & _).
      change (lastEventIdBuffer (set_state FIELD_START a)) with (lastEventIdBuffer a) in *.
      change (dataBuffer (set_state FIELD_START a)) with (dataBuffer a) in Hd.
      change (log (set_state FIELD_START a)) with (log a) in Hd.
      destruct (dispatch_point closes (set_state FIELD_START a)) as [a' ret].
      cbn [fst snd] in *.
      assert (Hlog : exists lg, log a' = log a ++ lg /\ records_have_id (lastEventIdBuffer a) lg).
      { destruct (dataBuffer a).
        - exists []. rewrite app_nil_r. split; [tauto|constructor].
        - destruct Hd as (_ & lg & Hl & Hr). eexists. split; [exact Hl|].
          unfold records_have_id. cbn [records flat_map record_of snd app].
          change (flat_map record_of lg) with (records lg). rewrite Hr.
          constructor; [|constructor]. eauto. }
      destruct ret; cbn [fst snd]; repeat split; auto; tauto.
  - rewrite line_run_field; [|exact Hno|discriminate|exact Ha]. cbn [fst snd].
    set (f := field_of (x :: l)) in *. set (v := value_of (x :: l)).
    split; [reflexivity|]. split; [now apply process_field_keeps_id|].
    split; [left; change (currentState (set_state ?w ?y)) with (currentState y);
            now rewrite (proj1 (proj2 (process_field_frame 0 f v a)))|].
    destruct (quiet_process_field 0 f v a) as (lg & Hl & Hr).
    exists lg. split; [exact Hl|]. unfold records_have_id. rewrite Hr. constructor.
Qed.

Lemma line_run_lines_keep_id (ls : list jsstring) :
  forall a : EventSource,
    currentState a = OPEN -> Forall no_terminator ls ->
    Forall (fun l => field_of l <> str "id") ls ->
    let a' := fst (line_run closes (serialize ls) (a, [])) in
    lastEventIdBuffer a' = lastEventIdBuffer a
    /\ exists lg, log a' = log a ++ lg /\ records_have_id (lastEventIdBuffer a) lg.
Proof.
  induction ls as [|l ls IH]; intros a Ha Hno Hf.
  - cbn. split; [reflexivity|]. exists []. rewrite app_nil_r. split; [reflexivity|constructor].
  - inversion Hno as [|? ? Hl Hls]; inversion Hf as [|? ? Hfl Hfls]; subst.
    unfold serialize. cbn [map List.concat]. fold (serialize ls). rewrite line_run_app.
    destruct (line_run_keeps_id l a Ha Hl Hfl) as (Hnil & Hid & Hc & lg1 & L1 & R1).
    destruct (line_run closes (l ++ [LF]) (a, [])) as [a1 l1]. cbn [fst snd] in *. subst l1.
    destruct Hc as [Hc|Hc].
    + destruct (IH a1 Hc Hls Hfls) as (Hid2 & lg2 & L2 & R2). cbv zeta.
      split; [exact (eq_trans Hid2 Hid)|]. exists (lg1 ++ lg2).
      split; [rewrite L1, <- app_assoc in L2; exact L2|].
      unfold records_have_id in *. rewrite records_app. apply Forall_app.
      rewrite Hid in R2. now split.
    + rewrite line_run_closed by exact Hc. cbn [fst]. split; [exact Hid|].
      exists lg1. now split.
Qed.

End PendingId.

Lemma serialize_terminated (ls : list jsstring) : terminated (serialize ls).
Proof.
  induction ls as [|l ls IH]; [now left|].
  unfold serialize in *. cbn [map List.concat].
  apply terminated_app; [|exact IH]. right. now exists l, LF.
Qed.

Definition after_id_7 : EventSource := onProgress never 2 (str "id: 7" ++ [LF]) opened.

(** C10: the pending event id is not cleared by a flush.  While lines
    without an [id] field are read, however many records they flush, every
    record delivered carries the pending id and the pending id stays; an
    [id] line sets it to its value; and an attempt starts with the
    [lastEventId] of the connection as the pending id. *)
Theorem pending_id_survives_flush (closes : list Entry -> bool) (now : Z)
  (ls : list jsstring) (s : EventSource) :
  currentState s = OPEN -> at_line_start s -> textBuffer s = [] ->
  Forall no_terminator ls -> Forall (fun l => field_of l <> str "id") ls ->
  (lastEventIdBuffer (onProgress closes now (serialize ls) s) = lastEventIdBuffer s
   /\ exists lg,
       log (onProgress closes now (serialize ls) s) = log s ++ lg
       /\ records_have_id (lastEventIdBuffer s) lg)
  /\ (forall v, no_terminator v ->
                lastEventIdBuffer (onProgress closes now (str "id: " ++ v ++ [LF]) s) = v)
  /\ (forall cfg now0 s0,
         currentState s0 = WAITING ->
         lastEventIdBuffer (onTimeout closes cfg now0 s0) = lastEventId s0).
Proof.
  intros Hopen Hs Htb Hno Hf. split; [|split].
  - destruct (onProgress_lines closes now (serialize ls) s Hopen Hs Htb (serialize_terminated ls))
      as [Hc _].
    destruct (line_run_lines_keep_id closes ls (core s) Hopen Hno Hf) as (Hid & lg & Hl & Hr).
    rewrite Hc in Hid, Hl. split; [exact Hid|]. exists lg. split; [exact Hl|exact Hr].
  - intros v Hv.
    change (str "id: " ++ v ++ [LF]) with ((str "id" ++ COLON :: SPACE :: v) ++ [LF]).
    destruct (onProgress_lines closes now ((str "id" ++ COLON :: SPACE :: v) ++ [LF]) s
                Hopen Hs Htb) as [Hc _].
    { right. eexists _, LF. split; reflexivity. }
    rewrite line_run_field in Hc;
      [|apply no_terminator_app; split; [reflexivity|exact Hv]|discriminate|exact Hopen].
    destruct (field_value_of (str "id") v eq_refl) as [Ef Ev]. rewrite Ef, Ev in Hc.
    change (lastEventIdBuffer (onProgress closes now ((str "id" ++ COLON :: SPACE :: v) ++ [LF]) s))
      with (lastEventIdBuffer
              (core (onProgress closes now ((str "id" ++ COLON :: SPACE :: v) ++ [LF]) s))).
    now rewrite <- Hc.
  - intros cfg now0 s0 Hw. unfold onTimeout.
    change (currentState (set_timeout None s0)) with (currentState s0). rewrite Hw. cbv zeta.
    match goal with |- context [requestURL ?u ?i] => destruct (requestURL u i) end; reflexivity.
Qed.

Lemma pending_id_survives_flush_witness :
  lastEventIdBuffer
    (onProgress never 3 (serialize [str "data: a"; []; str "data: b"; []]) after_id_7)
  = lastEventIdBuffer after_id_7
  /\ records (log (onProgress never 3 (serialize [str "data: a"; []; str "data: b"; []])
                     after_id_7))
     = [MessageEvent (str "message") (str "a") (str "7");
        MessageEvent (str "message") (str "b") (str "7")].
Proof.
  assert (Hopen : currentState after_id_7 = OPEN) by (vm_compute; reflexivity).
  assert (Hstate : state after_id_7 = FIELD_START) by (vm_compute; reflexivity).
  assert (Htb : textBuffer after_id_7 = []) by (vm_compute; reflexivity).
  pose proof (pending_id_survives_flush never 3 [str "data: a"; []; str "data: b"; []]
                after_id_7 Hopen (or_intror Hstate) Htb) as H.
  destruct H as ((H & _) & _).
  - repeat constructor.
  - repeat constructor; vm_compute; discriminate.
  - split; [exact H|]. vm_compute. reflexivity.
Defined.

(** * The heartbeat watchdog *)


(** The test of lines 379-380: the watchdog fires, and the connection is
    taken to be stalled. *)
Definition watchdog_stalls (s : EventSource) : bool :=
  negb (ConnState_eqb (currentState s) WAITING)
  && match wasActivity s with None => true | Some t => t =? 0 end
  && abortController s.

Definition stall_error (s : EventSource) : JsError :=
  NoActivity (heartbeatTimeout s) (ConnState_eqb (currentState s) CONNECTING) (textLength s).

Definition run (closes : list Entry -> bool) (cfg : Config) (sigs : list Signal)
  (s : EventSource) : EventSource :=
  fold_left (fun s sig => react closes cfg sig s) sigs s.



(** The calls of [abort] in a log, and the transports not yet aborted. *)
Definition is_abort (e : Entry) : bool :=
  match snd e with Abort => true | _ => false end.

Definition aborts (l : list Entry) : nat := List.length (filter is_abort l).

Definition held (s : EventSource) : nat :=
  (aborts (log s) + if abortController s then 1 else 0)%nat.

Section Watchdog.

Variable closes : list Entry -> bool.
Variable cfg : Config.

Lemma onTimeout_stalled (now : Z) (s : EventSource) :
  watchdog_stalls s = true ->
  onTimeout closes cfg now s
  = let s1 := onFinish closes now (Some (stall_error s)) (set_timeout None s) in
    if abortController s1 then set_abortController false (emit Abort s1) else s1.
Proof.
  unfold watchdog_stalls, onTimeout, stall_error. intros H.
  apply andb_true_iff in H. destruct H as [H Hac].
  apply andb_true_iff in H. destruct H as [Hw Hf].
  change (currentState (set_timeout None s)) with (currentState s).
  change (wasActivity (set_timeout None s)) with (wasActivity s).
  change (abortController (set_timeout None s)) with (abortController s).
  change (heartbeatTimeout (set_timeout None s)) with (heartbeatTimeout s).
  change (textLength (set_timeout None s)) with (textLength s).
  cbv zeta. rewrite Hf, Hac. destruct (currentState s); try reflexivity. discriminate Hw.
Qed.

Lemma onTimeout_rearms (now : Z) (s : EventSource) :
  currentState s <> WAITING -> watchdog_stalls s = false ->
  onTimeout closes cfg now s
  = setTimeout now
      (Z.max (match wasActivity s with Some t => t | None => now end
              + heartbeatTimeout s - now) 1)
      (set_wasActivity None (set_timeout None s)).
Proof.
  unfold watchdog_stalls, onTimeout. intros Hw H.
  change (currentState (set_timeout None s)) with (currentState s).
  change (wasActivity (set_timeout None s)) with (wasActivity s).
  change (abortController (set_timeout None s)) with (abortController s).
  cbv zeta.
  destruct (currentState s); try contradiction; cbn [ConnState_eqb negb andb] in H;
    rewrite H; reflexivity.
Qed.







(** ** Aborts are counted with the transports *)

Lemma aborts_app (l1 l2 : list Entry) : aborts (l1 ++ l2) = (aborts l1 + aborts l2)%nat.
Proof. unfold aborts. now rewrite filter_app, length_app. Qed.

Lemma held_close (s : EventSource) : held (close s) = held s.
Proof.
  rewrite close_eq. unfold held, closing_log, closed.
  destruct s as [? ? ? ? ? ? ? ac tm ? ? ? ? ? ? ? ? ?]. cbn.
  unfold aborts. rewrite !filter_app, !length_app. destruct ac, tm; cbn; lia.
Qed.

Lemma held_run_listeners (s : EventSource) : held (run_listeners closes s) = held s.
Proof. unfold run_listeners. destruct (closes (log s)); [apply held_close|reflexivity]. Qed.

Lemma held_emit (e : Effect) (s : EventSource) :
  e <> Abort -> held (emit e s) = held s.
Proof.
  intros H. unfold held, emit, aborts. cbn. rewrite filter_app, length_app.
  destruct e; try contradiction; cbn; lia.
Qed.

Lemma held_dispatchEvent (e : Event) (s : EventSource) : held (dispatchEvent closes e s) = held s.
Proof.
  unfold dispatchEvent. rewrite held_run_listeners. apply held_emit. discriminate.
Qed.

Lemma held_fire (h : Handler) (e : Event) (s : EventSource) : held (fire closes h e s) = held s.
Proof.
  unfold fire. rewrite held_run_listeners. apply held_emit. discriminate.
Qed.

Lemma held_onFinish (now : Z) (error : option JsError) (s : EventSource) :
  held (onFinish closes now error s) = held s.
Proof.
  destruct (currentState s) eqn:E.
  1, 4: unfold onFinish; rewrite E; reflexivity.
  all: rewrite onFinish_eq by (rewrite E; auto); cbv zeta.
  all: assert (F : held (finished now s) = held s)
         by (unfold held, finished, aborts; cbn; rewrite !filter_app, !length_app;
             destruct (timeout s); cbn; lia).
  all: destruct error; rewrite ?held_emit by discriminate;
       rewrite held_fire, held_dispatchEvent; exact F.
Qed.


(** ** Bytes that keep arriving *)




(** ** Silence *)


Lemma onTimeout_reconnects (now : Z) (s : EventSource) :
  currentState s = WAITING -> currentState (onTimeout closes cfg now s) = CONNECTING.
Proof.
  intros H. unfold onTimeout.
  change (currentState (set_timeout None s)) with (currentState s). rewrite H. cbv zeta.
  match goal with |- context [requestURL ?u ?i] => destruct (requestURL u i) end; reflexivity.
Qed.

End Watchdog.



(** * The request URL of a reconnect *)

(** The query string as the pattern of line 437 walks it: segments between
    ampersands, each one a name up to the first equals sign. *)
Definition amp (seg : jsstring) : jsstring := AMP :: seg.

Definition name_of (seg : jsstring) : jsstring :=
  take_while (fun c => negb ((c =? EQUALS) || (c =? AMP))) seg.

Definition is_stale (seg : jsstring) : bool :=
  str_eqb (name_of seg) lastEventIdQueryParameterName.

(** What the callback of lines 437-439 makes of a segment with its
    ampersand. *)
Definition kept (seg : jsstring) : jsstring :=
  if is_stale seg then [] else amp seg.

(** The schemes that line 429 leaves alone. *)
Definition inline_scheme (url : jsstring) : bool :=
  str_eqb (slice url 0 5) (str "data:") || str_eqb (slice url 0 5) (str "blob:").

(** A text that is empty or begins with an ampersand: what follows a
    segment. *)
Definition segment_end (tail : jsstring) : Prop :=
  match tail with [] => True | c :: _ => c = AMP end.

Lemma segment_end_flat_map (rest : list jsstring) : segment_end (flat_map amp rest).
Proof. destruct rest; cbn; auto. Qed.

Lemma take_while_length (p : Z -> bool) (s : jsstring) :
  (List.length (take_while p s) <= List.length s)%nat.
Proof. induction s as [|c s IH]; cbn; [lia|]. destruct (p c); cbn; lia. Qed.

Lemma name_of_app (s tail : jsstring) :
  ~ In AMP s -> segment_end tail -> name_of (s ++ tail) = name_of s.
Proof.
  intros Hs Ht. unfold name_of. induction s as [|c s IH]; cbn.
  - destruct tail as [|c tail]; [reflexivity|]. cbn in Ht. subst c. reflexivity.
  - destruct (negb _); [|reflexivity]. f_equal. apply IH. intros H. apply Hs. now right.
Qed.

(** After its name a segment is over, or goes on with an equals sign. *)
Lemma after_name (s : jsstring) :
  ~ In AMP s ->
  skipn (List.length (name_of s)) s = []
  \/ exists v, skipn (List.length (name_of s)) s = EQUALS :: v /\ ~ In AMP v.
Proof.
  intros Hs. unfold name_of. induction s as [|c s IH]; cbn; [now left|].
  destruct (Z.eqb_spec c EQUALS) as [->|Hc]; cbn.
  - right. exists s. split; [reflexivity|]. intros H. apply Hs. now right.
  - destruct (Z.eqb_spec c AMP) as [->|Hc']; cbn.
    + exfalso. apply Hs. now left.
    + apply IH. intros H. apply Hs. now right.
Qed.

Lemma value_app (v tail : jsstring) :
  ~ In AMP v -> segment_end tail ->
  take_while (fun c => negb (c =? AMP)) (v ++ tail) = v.
Proof.
  intros Hv Ht. induction v as [|c v IH]; cbn.
  - destruct tail as [|c tail]; [reflexivity|]. cbn in Ht. subst c. reflexivity.
  - destruct (Z.eqb_spec c AMP) as [->|Hc]; cbn.
    + exfalso. apply Hv. now left.
    + f_equal. apply IH. intros H. apply Hv. now right.
Qed.

(** The two groups of the pattern take a whole segment. *)
Lemma groups_take_segment (s tail : jsstring) :
  ~ In AMP s -> segment_end tail ->
  let paramName := take_while (fun c => negb ((c =? EQUALS) || (c =? AMP))) (s ++ tail) in
  let r1 := skipn (List.length paramName) (s ++ tail) in
  let value :=
    match r1 with
    | c :: r2 => if c =? EQUALS then c :: take_while (fun c => negb (c =? AMP)) r2 else []
    | [] => []
    end in
  paramName = name_of s
  /\ (List.length paramName + List.length value = List.length s)%nat.
Proof.
  intros Hs Ht paramName r1 value.
  assert (Hn : paramName = name_of s) by (apply name_of_app; assumption).
  split; [exact Hn|].
  pose proof (take_while_length (fun c => negb ((c =? EQUALS) || (c =? AMP))) s) as Hle.
  fold (name_of s) in Hle.
  assert (Hr : r1 = skipn (List.length (name_of s)) s ++ tail).
  { subst r1. rewrite Hn, skipn_app.
    replace (List.length (name_of s) - List.length s)%nat with 0%nat by lia. reflexivity. }
  pose proof (length_skipn (List.length (name_of s)) s) as Hlen.
  subst value. rewrite Hr, Hn.
  destruct (after_name s Hs) as [E|(v & E & Hv)]; rewrite E in *; cbn [app].
  - cbn in Hlen.
    destruct tail as [|c tail]; [cbn; lia|]. cbn in Ht. subst c. cbn. lia.
  - change (EQUALS =? EQUALS) with true. cbv iota. rewrite value_app by assumption.
    cbn in Hlen |- *. lia.
Qed.

Lemma match_at_start (s tail : jsstring) :
  ~ In AMP s -> segment_end tail ->
  match_at (s ++ tail) 0 = Some (List.length s, name_of s).
Proof.
  intros Hs Ht. unfold match_at. cbn [skipn].
  destruct (groups_take_segment s tail Hs Ht) as [Hn Hl]. cbv zeta in Hn, Hl.
  rewrite Hn in *. rewrite Nat.add_0_l. cbn [Nat.add]. now rewrite Hl.
Qed.

Lemma match_at_amp (pre s tail : jsstring) :
  pre <> [] -> ~ In AMP s -> segment_end tail ->
  match_at (pre ++ AMP :: s ++ tail) (List.length pre)
  = Some ((List.length pre + 1 + List.length s)%nat, name_of s).
Proof.
  intros Hp Hs Ht. unfold match_at.
  rewrite skipn_app, skipn_all, Nat.sub_diag. cbn [app skipn].
  destruct (List.length pre) eqn:E; [now destruct pre|]. rewrite <- E.
  change (AMP =? AMP) with true. cbv iota.
  destruct (groups_take_segment s tail Hs Ht) as [Hn Hl]. cbv zeta in Hn, Hl.
  rewrite Hn in *. now rewrite <- Hl, !Nat.add_assoc.
Qed.

Lemma match_at_inside (pre : jsstring) (c : Z) (tail : jsstring) :
  pre <> [] -> c <> AMP -> match_at (pre ++ c :: tail) (List.length pre) = None.
Proof.
  intros Hp Hc. unfold match_at.
  rewrite skipn_app, skipn_all, Nat.sub_diag. cbn [app skipn].
  destruct (List.length pre) eqn:E; [now destruct pre|].
  destruct (Z.eqb_spec c AMP); [contradiction|reflexivity].
Qed.

Lemma match_at_end (q : jsstring) : q <> [] -> match_at q (List.length q) = None.
Proof.
  intros Hq. unfold match_at. rewrite skipn_all.
  destruct (List.length q) eqn:E; [now destruct q|reflexivity].
Qed.

Lemma exec_from_found (fuel : nat) (q : jsstring) (i e : nat) (name : jsstring) :
  (i <= List.length q)%nat -> match_at q i = Some (e, name) ->
  exec_from (S fuel) q i = Some (i, e, name).
Proof.
  intros Hi Hm. cbn [exec_from]. destruct (Nat.ltb_spec (List.length q) i); [lia|].
  now rewrite Hm.
Qed.

Lemma exec_from_end (fuel : nat) (q : jsstring) :
  q <> [] -> exec_from (S (S fuel)) q (List.length q) = None.
Proof.
  intros Hq. cbn [exec_from]. rewrite Nat.ltb_irrefl, match_at_end by exact Hq.
  destruct (Nat.ltb_spec (List.length q) (S (List.length q))); [reflexivity|lia].
Qed.

Lemma exec_from_at_end (q : jsstring) :
  q <> [] -> exec_from (S (List.length q)) q (List.length q) = None.
Proof.
  intros Hq. destruct (List.length q) eqn:E; [now destruct q|].
  pose proof (exec_from_end n q Hq) as H. now rewrite E in H.
Qed.

(** From inside a segment the search goes on to the end of the segment. *)
Lemma exec_from_skip (s : jsstring) :
  forall (pre tail : jsstring) (fuel : nat),
    pre <> [] -> ~ In AMP s ->
    exec_from (List.length s + fuel) (pre ++ s ++ tail) (List.length pre)
    = exec_from fuel (pre ++ s ++ tail) (List.length pre + List.length s).
Proof.
  induction s as [|c s IH]; intros pre tail fuel Hp Hs.
  { cbn. now rewrite Nat.add_0_r. }
  cbn [List.length Nat.add exec_from app].
  destruct (Nat.ltb_spec (List.length (pre ++ c :: s ++ tail)) (List.length pre)) as [H|_].
  { rewrite length_app in H. lia. }
  rewrite match_at_inside; [|exact Hp|intros ->; apply Hs; now left].
  replace (pre ++ c :: s ++ tail) with ((pre ++ [c]) ++ s ++ tail)
    by (rewrite <- app_assoc; reflexivity).
  replace (S (List.length pre)) with (List.length (pre ++ [c]))
    by (rewrite length_app; cbn; lia).
  rewrite IH; [|now destruct pre|intros H; apply Hs; now right].
  f_equal. rewrite length_app. cbn. lia.
Qed.

Lemma replace_from_step (fuel : nat) (paramToDrop q : jsstring)
  (lastIndex nextSourcePosition index e : nat) (paramName : jsstring) :
  exec_from (S (List.length q)) q lastIndex = Some (index, e, paramName) ->
  replace_from (S fuel) paramToDrop q lastIndex nextSourcePosition
  = firstn (index - nextSourcePosition) (skipn nextSourcePosition q)
    ++ (if str_eqb paramName paramToDrop then []
        else firstn (e - index) (skipn index q))
    ++ replace_from fuel paramToDrop q (if (e =? index)%nat then S e else e) e.
Proof. intros H. cbn [replace_from]. rewrite H. reflexivity. Qed.

Lemma replace_from_done (fuel : nat) (paramToDrop q : jsstring)
  (lastIndex nextSourcePosition : nat) :
  exec_from (S (List.length q)) q lastIndex = None ->
  replace_from fuel paramToDrop q lastIndex nextSourcePosition = skipn nextSourcePosition q.
Proof. intros H. destruct fuel; cbn [replace_from]; [reflexivity|]. now rewrite H. Qed.

(** From the end of a segment on, every segment is matched with its
    ampersand, and dropped when its name is [lastEventId]. *)
Lemma replace_from_segments (rest : list jsstring) :
  forall (pre : jsstring) (fuel : nat),
    pre <> [] -> Forall (fun s => ~ In AMP s) rest -> (List.length rest < fuel)%nat ->
    replace_from fuel lastEventIdQueryParameterName (pre ++ flat_map amp rest)
      (List.length pre) (List.length pre)
    = flat_map kept rest.
Proof.
  induction rest as [|s rest IH]; intros pre fuel Hp Hr Hf.
  - cbn [flat_map]. rewrite app_nil_r. rewrite replace_from_done.
    + now rewrite skipn_all.
    + now apply exec_from_at_end.
  - inversion Hr as [|? ? Hs Hr']; subst.
    cbn [flat_map]. unfold amp at 1. cbn [app].
    set (q := pre ++ AMP :: s ++ flat_map amp rest).
    assert (Hm : exec_from (S (List.length q)) q (List.length pre)
                 = Some (List.length pre, (List.length pre + 1 + List.length s)%nat, name_of s)).
    { apply exec_from_found.
      - subst q. rewrite length_app. lia.
      - apply match_at_amp; [exact Hp|exact Hs|apply segment_end_flat_map]. }
    destruct fuel as [|fuel]; [cbn in Hf; lia|].
    rewrite (replace_from_step _ _ _ _ _ _ _ _ Hm).
    rewrite Nat.sub_diag. cbn [firstn app].
    destruct (Nat.eqb_spec (List.length pre + 1 + List.length s) (List.length pre)); [lia|].
    replace (List.length pre + 1 + List.length s - List.length pre)%nat
      with (List.length (AMP :: s)) by (cbn; lia).
    assert (Hq : q = (pre ++ AMP :: s) ++ flat_map amp rest)
      by (subst q; rewrite <- app_assoc; reflexivity).
    assert (Hsk : skipn (List.length pre) q = (AMP :: s) ++ flat_map amp rest)
      by (subst q; rewrite skipn_app, skipn_all, Nat.sub_diag; reflexivity).
    rewrite Hsk, firstn_app, firstn_all, Nat.sub_diag, firstn_0, app_nil_r.
    replace (List.length pre + 1 + List.length s)%nat with (List.length (pre ++ AMP :: s))
      by (rewrite length_app; cbn; lia).
    rewrite Hq, IH; [|now destruct pre|exact Hr'|cbn in Hf; lia].
    unfold kept at 2, is_stale, amp. reflexivity.
Qed.

Lemma segments_length (rest : list jsstring) :
  (List.length rest <= List.length (flat_map amp rest))%nat.
Proof.
  induction rest as [|s rest IH]; cbn; [lia|]. rewrite length_app. lia.
Qed.

(** A query that begins with a segment of its own: every segment named
    [lastEventId] goes, the others stay as they are and where they are. *)
Lemma remove_parameter_segments (s0 : jsstring) (rest : list jsstring) :
  s0 <> [] -> ~ In AMP s0 -> Forall (fun s => ~ In AMP s) rest ->
  remove_parameter (s0 ++ flat_map amp rest)
  = (if is_stale s0 then [] else s0) ++ flat_map kept rest.
Proof.
  intros H0 Hs Hr. unfold remove_parameter.
  set (q := s0 ++ flat_map amp rest).
  assert (Hm : exec_from (S (List.length q)) q 0 = Some (0%nat, List.length s0, name_of s0)).
  { apply exec_from_found; [lia|].
    apply match_at_start; [exact Hs|apply segment_end_flat_map]. }
  rewrite (replace_from_step _ _ _ _ _ _ _ _ Hm).
  cbn [Nat.sub firstn app skipn]. rewrite Nat.sub_0_r.
  destruct (Nat.eqb_spec (List.length s0) 0) as [E|_]; [now destruct s0|].
  subst q. rewrite firstn_app, firstn_all, Nat.sub_diag, firstn_0, app_nil_r.
  rewrite replace_from_segments; [reflexivity|exact H0|exact Hr|].
  pose proof (segments_length rest). rewrite length_app. lia.
Qed.

Lemma exec_from_after_amp (s1 : jsstring) (rest : list jsstring) :
  ~ In AMP s1 -> Forall (fun s => ~ In AMP s) rest ->
  exec_from (S (List.length (AMP :: s1 ++ flat_map amp rest)))
    (AMP :: s1 ++ flat_map amp rest) 1
  = match rest with
    | [] => None
    | s2 :: _ =>
        Some (S (List.length s1), (S (List.length s1) + 1 + List.length s2)%nat, name_of s2)
    end.
Proof.
  intros Hs Hr.
  set (tail := flat_map amp rest).
  replace (S (List.length (AMP :: s1 ++ tail)))
    with (List.length s1 + S (S (List.length tail)))%nat
    by (cbn [List.length]; rewrite length_app; lia).
  change (AMP :: s1 ++ tail) with ([AMP] ++ s1 ++ tail).
  change 1%nat with (List.length [AMP]) at 2.
  rewrite exec_from_skip; [|discriminate|exact Hs].
  subst tail. destruct rest as [|s2 rest].
  - cbn [flat_map]. rewrite app_nil_r.
    replace (List.length [AMP] + List.length s1)%nat with (List.length ([AMP] ++ s1))
      by (rewrite length_app; reflexivity).
    apply exec_from_end. discriminate.
  - inversion Hr as [|? ? Hs2 Hr']; subst.
    cbn [flat_map]. unfold amp at 1 3. cbn [app].
    change (AMP :: s1 ++ AMP :: s2 ++ flat_map amp rest)
      with ((AMP :: s1) ++ AMP :: s2 ++ flat_map amp rest).
    change (List.length [AMP] + List.length s1)%nat with (List.length (AMP :: s1)).
    apply exec_from_found.
    + rewrite length_app. cbn [List.length]. lia.
    + change (List.length [AMP]) with 1%nat.
      apply (match_at_amp (AMP :: s1)); [discriminate|exact Hs2|apply segment_end_flat_map].
Qed.

(** A query that begins with an ampersand: the pattern matches the empty
    text at its start, the search goes on from index 1, and the segment
    after the ampersand is never looked at. *)
Lemma remove_parameter_leading_amp (s1 : jsstring) (rest : list jsstring) :
  ~ In AMP s1 -> Forall (fun s => ~ In AMP s) rest ->
  remove_parameter (AMP :: s1 ++ flat_map amp rest)
  = AMP :: s1 ++ flat_map kept rest.
Proof.
  intros Hs Hr. unfold remove_parameter.
  pose proof (exec_from_after_amp s1 rest Hs Hr) as Hx.
  set (q := AMP :: s1 ++ flat_map amp rest) in *.
  assert (Hm : exec_from (S (List.length q)) q 0 = Some (0%nat, 0%nat, [])).
  { apply exec_from_found; [lia|].
    apply (match_at_start [] q); [intros []|reflexivity]. }
  rewrite (replace_from_step _ _ _ _ _ _ _ _ Hm).
  change (str_eqb [] lastEventIdQueryParameterName) with false.
  cbn [Nat.sub firstn app Nat.eqb].
  destruct rest as [|s2 rest].
  - rewrite (replace_from_done _ _ _ _ _ Hx). subst q. cbn [skipn flat_map]. reflexivity.
  - inversion Hr as [|? ? Hs2 Hr']; subst.
    rewrite (replace_from_step _ _ _ _ _ _ _ _ Hx).
    rewrite Nat.sub_0_r. change (skipn 0 q) with q.
    destruct (Nat.eqb_spec (S (List.length s1) + 1 + List.length s2) (S (List.length s1)));
      [lia|].
    assert (Hq : q = (AMP :: s1) ++ (AMP :: s2) ++ flat_map amp rest) by reflexivity.
    assert (Hq' : q = ((AMP :: s1) ++ AMP :: s2) ++ flat_map amp rest)
      by (rewrite Hq, <- app_assoc; reflexivity).
    change (S (List.length s1)) with (List.length (AMP :: s1)).
    rewrite Hq at 1. rewrite firstn_app, firstn_all, Nat.sub_diag, firstn_0, app_nil_r.
    rewrite Hq at 1. rewrite skipn_app, skipn_all, Nat.sub_diag.
    change (skipn 0 ?x) with x. cbn [app].
    replace (List.length (AMP :: s1) + 1 + List.length s2 - List.length (AMP :: s1))%nat
      with (List.length (AMP :: s2)) by (cbn [List.length]; lia).
    change (AMP :: s2 ++ flat_map amp rest) with ((AMP :: s2) ++ flat_map amp rest).
    rewrite firstn_app, firstn_all, Nat.sub_diag, firstn_0, app_nil_r.
    replace (List.length (AMP :: s1) + 1 + List.length s2)%nat
      with (List.length ((AMP :: s1) ++ AMP :: s2))
      by (rewrite length_app; cbn [List.length]; lia).
    rewrite Hq' at 2. rewrite replace_from_segments; [|discriminate|exact Hr'|].
    + cbn [flat_map]. unfold kept, is_stale, amp. reflexivity.
    + pose proof (segments_length rest) as Hlen. clear Hx Hm.
      assert (Hl : List.length q
                   = (List.length ((AMP :: s1) ++ AMP :: s2)
                      + List.length (flat_map amp rest))%nat)
        by (rewrite Hq' at 1; apply length_app).
      rewrite length_app in Hl. cbn [List.length] in Hl. lia.
Qed.

(** Every query is a first segment and segments with their ampersands. *)
Lemma query_shape (q : jsstring) :
  exists (s0 : jsstring) (rest : list jsstring),
    q = s0 ++ flat_map amp rest /\ ~ In AMP s0 /\ Forall (fun s => ~ In AMP s) rest.
Proof.
  induction q as [|c q (s0 & rest & -> & H0 & Hr)].
  - exists [], []. repeat split; [intros []|constructor].
  - destruct (Z.eqb_spec c AMP) as [->|Hc].
    + exists [], (s0 :: rest). repeat split; [intros []|now constructor].
    + exists (c :: s0), rest. repeat split; [|exact Hr].
      intros [E|H]; [now apply Hc|now apply H0].
Qed.

(** What the replacement of line 437 returns, for every query. *)
Lemma remove_parameter_spec (q : jsstring) :
  exists (s0 : jsstring) (rest : list jsstring),
    q = s0 ++ flat_map amp rest /\ ~ In AMP s0 /\ Forall (fun s => ~ In AMP s) rest
    /\ remove_parameter q
       = match s0, rest with
         | [], [] => []
         | [], s1 :: rest' => AMP :: s1 ++ flat_map kept rest'
         | _ :: _, _ => (if is_stale s0 then [] else s0) ++ flat_map kept rest
         end.
Proof.
  destruct (query_shape q) as (s0 & rest & -> & H0 & Hr).
  exists s0, rest. repeat split; try assumption.
  destruct s0 as [|c s0].
  - destruct rest as [|s1 rest]; [reflexivity|].
    inversion Hr; subst. now apply remove_parameter_leading_amp.
  - now apply remove_parameter_segments.
Qed.

(** ** The whole URL *)

Lemma indexOf_from_absent (url : jsstring) (c i : Z) :
  ~ In c url -> indexOf_from url c i = -1.
Proof.
  revert i. induction url as [|x url IH]; intros i H; cbn; [reflexivity|].
  destruct (Z.eqb_spec x c) as [->|_]; [exfalso; apply H; now left|].
  apply IH. intros H'. apply H. now right.
Qed.

Lemma indexOf_from_first (base : jsstring) (c : Z) (rest : jsstring) (i : Z) :
  ~ In c base -> indexOf_from (base ++ c :: rest) c i = i + jslength base.
Proof.
  revert i. induction base as [|x base IH]; intros i H; cbn [app indexOf_from].
  - rewrite Z.eqb_refl. unfold jslength. cbn. lia.
  - destruct (Z.eqb_spec x c) as [->|_]; [exfalso; apply H; now left|].
    rewrite IH by (intros H'; apply H; now right). rewrite jslength_cons. lia.
Qed.

Lemma requestURL_unchanged (url lastEventId : jsstring) :
  lastEventId = [] \/ inline_scheme url = true -> requestURL url lastEventId = Some url.
Proof.
  unfold requestURL, inline_scheme. rewrite <- negb_orb.
  intros [-> | ->]; [|reflexivity]. now destruct (negb _).
Qed.

Lemma requestURL_without_query (url lastEventId encoded : jsstring) :
  inline_scheme url = false -> ~ In QUESTION url -> lastEventId <> [] ->
  encodeURIComponent lastEventId = Some encoded ->
  requestURL url lastEventId
  = Some (url ++ QUESTION :: lastEventIdQueryParameterName ++ EQUALS :: encoded).
Proof.
  unfold requestURL, inline_scheme. rewrite <- negb_orb. intros -> Hq Hid He.
  cbn [negb]. destruct lastEventId as [|c id]; [contradiction|].
  rewrite He. cbv zeta. unfold indexOf. rewrite (indexOf_from_absent url QUESTION 0 Hq).
  reflexivity.
Qed.

Lemma requestURL_with_query (base q lastEventId encoded : jsstring) :
  inline_scheme (base ++ QUESTION :: q) = false -> ~ In QUESTION base -> lastEventId <> [] ->
  encodeURIComponent lastEventId = Some encoded ->
  requestURL (base ++ QUESTION :: q) lastEventId
  = Some (base ++ QUESTION :: remove_parameter q
          ++ AMP :: lastEventIdQueryParameterName ++ EQUALS :: encoded).
Proof.
  unfold requestURL, inline_scheme. rewrite <- negb_orb. intros -> Hq Hid He.
  cbn [negb]. destruct lastEventId as [|c id]; [contradiction|].
  rewrite He. cbv zeta. unfold indexOf. rewrite (indexOf_from_first base QUESTION q 0 Hq).
  pose proof (jslength_nonneg base) as Hb.
  destruct (Z.eqb_spec (0 + jslength base) (-1)); [lia|].
  replace (0 + jslength base + 1) with (jslength (base ++ [QUESTION]))
    by (rewrite jslength_app; reflexivity).
  replace (base ++ QUESTION :: q) with ((base ++ [QUESTION]) ++ q)
    by (rewrite <- app_assoc; reflexivity).
  rewrite slice_prefix, slice_from_suffix. rewrite <- !app_assoc. reflexivity.
Qed.

(** ** The parameters of the result *)

(** The segments of a query, and the parameters named [lastEventId] among
    those of a URL. *)
Fixpoint segments (q : jsstring) : list jsstring :=
  match q with
  | [] => [[]]
  | c :: q' =>
      if c =? AMP then [] :: segments q'
      else match segments q' with
           | s :: r => (c :: s) :: r
           | [] => [[c]]
           end
  end.

Definition query_of (url : jsstring) : jsstring :=
  let i := indexOf url QUESTION in
  if i =? -1 then [] else slice_from url (i + 1).

Definition stale_parameters (url : jsstring) : nat :=
  List.length (filter is_stale (segments (query_of url))).

Definition fresh_parameter (encoded : jsstring) : jsstring :=
  lastEventIdQueryParameterName ++ EQUALS :: encoded.

Lemma segments_join (rest : list jsstring) :
  forall s0 : jsstring,
    ~ In AMP s0 -> Forall (fun s => ~ In AMP s) rest ->
    segments (s0 ++ flat_map amp rest) = s0 :: rest.
Proof.
  induction rest as [|s rest IH]; intros s0 H0 Hr.
  - cbn [flat_map]. rewrite app_nil_r.
    induction s0 as [|c s0 IH0]; [reflexivity|]. cbn [segments].
    destruct (Z.eqb_spec c AMP) as [->|_]; [exfalso; apply H0; now left|].
    rewrite IH0; [reflexivity|]. intros H. apply H0. now right.
  - inversion Hr as [|? ? Hs Hr']; subst.
    induction s0 as [|c s0 IH0].
    + cbn [flat_map app]. unfold amp at 1. cbn [app segments].
      change (AMP =? AMP) with true. cbv iota. now rewrite IH.
    + cbn [app segments].
      destruct (Z.eqb_spec c AMP) as [->|_]; [exfalso; apply H0; now left|].
      rewrite IH0; [reflexivity|]. intros H. apply H0. now right.
Qed.

Lemma flat_map_kept (rest : list jsstring) :
  flat_map kept rest = flat_map amp (filter (fun s => negb (is_stale s)) rest).
Proof.
  induction rest as [|s rest IH]; [reflexivity|]. cbn [flat_map filter]. unfold kept at 1.
  destruct (is_stale s); cbn [negb flat_map app]; now rewrite IH.
Qed.

Lemma filter_stale_kept (rest : list jsstring) :
  filter is_stale (filter (fun s => negb (is_stale s)) rest) = [].
Proof.
  induction rest as [|s rest IH]; [reflexivity|]. cbn [filter].
  destruct (is_stale s) eqn:E; cbn [negb filter]; [exact IH|]. now rewrite E.
Qed.

Lemma query_of_query (base q : jsstring) :
  ~ In QUESTION base -> query_of (base ++ QUESTION :: q) = q.
Proof.
  intros Hb. unfold query_of, indexOf. cbv zeta.
  rewrite (indexOf_from_first base QUESTION q 0 Hb).
  pose proof (jslength_nonneg base).
  destruct (Z.eqb_spec (0 + jslength base) (-1)); [lia|].
  replace (0 + jslength base + 1) with (jslength (base ++ [QUESTION]))
    by (rewrite jslength_app; reflexivity).
  replace (base ++ QUESTION :: q) with ((base ++ [QUESTION]) ++ q)
    by (rewrite <- app_assoc; reflexivity).
  apply slice_from_suffix.
Qed.

(** ** [encodeURIComponent] escapes the ampersand *)

Definition code_unit (c : Z) : Prop := 0 <= c < 65536.

Lemma hexDigit_not_amp (n : Z) : 0 <= n < 16 -> hexDigit n <> AMP.
Proof. unfold hexDigit, AMP. intros H. destruct (Z.ltb_spec n 10); lia. Qed.

Lemma percent_no_amp (octet : Z) : 0 <= octet < 256 -> ~ In AMP (percent octet).
Proof.
  intros H. unfold percent. intros [E|[E|[E|[]]]].
  - discriminate E.
  - apply (hexDigit_not_amp (octet / 16)); [|exact E].
    split; [apply Z.div_pos; lia|apply Z.div_lt_upper_bound; lia].
  - apply (hexDigit_not_amp (octet mod 16)); [|exact E]. apply Z.mod_pos_bound. lia.
Qed.

Lemma utf8_octets (cp : Z) :
  0 <= cp < 1114112 -> Forall (fun octet => 0 <= octet < 256) (utf8 cp).
Proof.
  intros H. unfold utf8.
  destruct (Z.ltb_spec cp 128); [repeat constructor; lia|].
  destruct (Z.ltb_spec cp 2048).
  { pose proof (Z.mod_pos_bound cp 64 eq_refl).
    assert (0 <= cp / 64 < 32)
      by (split; [apply Z.div_pos; lia|apply Z.div_lt_upper_bound; lia]).
    repeat constructor; lia. }
  destruct (Z.ltb_spec cp 65536).
  { pose proof (Z.mod_pos_bound cp 64 eq_refl).
    pose proof (Z.mod_pos_bound (cp / 64) 64 eq_refl).
    assert (0 <= cp / 4096 < 16)
      by (split; [apply Z.div_pos; lia|apply Z.div_lt_upper_bound; lia]).
    repeat constructor; lia. }
  pose proof (Z.mod_pos_bound cp 64 eq_refl).
  pose proof (Z.mod_pos_bound (cp / 64) 64 eq_refl).
  pose proof (Z.mod_pos_bound (cp / 4096) 64 eq_refl).
  assert (0 <= cp / 262144 < 5)
    by (split; [apply Z.div_pos; lia|apply Z.div_lt_upper_bound; lia]).
  repeat constructor; lia.
Qed.

Lemma escape_no_amp (cp : Z) :
  0 <= cp < 1114112 -> ~ In AMP (flat_map percent (utf8 cp)).
Proof.
  intros H Hin. apply in_flat_map in Hin. destruct Hin as (octet & Ho & Hin).
  pose proof (utf8_octets cp H) as F. rewrite Forall_forall in F.
  exact (percent_no_amp octet (F octet Ho) Hin).
Qed.

Lemma encodeURIComponent_no_amp (n : nat) :
  forall s encoded : jsstring,
    (List.length s <= n)%nat -> Forall code_unit s ->
    encodeURIComponent s = Some encoded -> ~ In AMP encoded.
Proof.
  induction n as [|n IH]; intros s encoded Hn Hs He.
  { destruct s; [|cbn in Hn; lia]. injection He as <-. intros []. }
  destruct s as [|c s]; [injection He as <-; intros []|].
  inversion Hs as [|? ? Hc Hs']; subst. unfold code_unit in Hc.
  cbn [encodeURIComponent] in He. cbn [List.length] in Hn.
  destruct (uriUnescaped c) eqn:Eu.
  { destruct (encodeURIComponent s) as [e|] eqn:E; [|discriminate He].
    injection He as <-. intros [->|Hin]; [discriminate Eu|].
    exact (IH s e ltac:(lia) Hs' E Hin). }
  destruct (isTrailSurrogate c); [discriminate He|].
  destruct (isLeadSurrogate c) eqn:El.
  - destruct s as [|d s]; [discriminate He|].
    destruct (isTrailSurrogate d) eqn:Et; [|discriminate He].
    inversion Hs' as [|? ? Hd Hs'']; subst. cbn [List.length] in Hn.
    destruct (encodeURIComponent s) as [e|] eqn:E; [|discriminate He].
    injection He as <-. intros Hin. apply in_app_or in Hin. destruct Hin as [Hin|Hin].
    + revert Hin. apply escape_no_amp.
      unfold isLeadSurrogate, isTrailSurrogate in El, Et.
      apply andb_true_iff in El, Et. lia.
    + exact (IH s e ltac:(lia) Hs'' E Hin).
  - destruct (encodeURIComponent s) as [e|] eqn:E; [|discriminate He].
    injection He as <-. intros Hin. apply in_app_or in Hin. destruct Hin as [Hin|Hin].
    + revert Hin. apply escape_no_amp. lia.
    + exact (IH s e ltac:(lia) Hs' E Hin).
Qed.

Lemma fresh_parameter_stale (encoded : jsstring) : is_stale (fresh_parameter encoded) = true.
Proof. reflexivity. Qed.

Lemma fresh_parameter_no_amp (encoded : jsstring) :
  ~ In AMP encoded -> ~ In AMP (fresh_parameter encoded).
Proof.
  intros He Hin. unfold fresh_parameter in Hin. apply in_app_or in Hin.
  destruct Hin as [Hin|[Hin|Hin]]; [|discriminate Hin|exact (He Hin)].
  cbn in Hin. repeat (destruct Hin as [Hin|Hin]; [discriminate Hin|]). exact Hin.
Qed.

Lemma Forall_filter_no_amp (rest : list jsstring) :
  Forall (fun s => ~ In AMP s) rest ->
  Forall (fun s => ~ In AMP s) (filter (fun s => negb (is_stale s)) rest).
Proof.
  intros H. rewrite Forall_forall in *. intros s Hs. apply filter_In in Hs. now apply H.
Qed.


(** A reconnect opens the transport with the request URL. *)
Lemma onTimeout_opens (closes : list Entry -> bool) (cfg : Config) (now : Z)
  (s : EventSource) (u : jsstring) :
  currentState s = WAITING -> requestURL (url cfg) (lastEventId s) = Some u ->
  log (onTimeout closes cfg now s)
  = log s ++ [(WAITING, SetTimeout (heartbeatTimeout s));
              (CONNECTING, TransportOpen u (withCredentials cfg) (requestHeaders (headers cfg)))].
Proof.
  intros Hw Hu. unfold onTimeout.
  change (currentState (set_timeout None s)) with (currentState s). rewrite Hw. cbv zeta.
  match goal with
  | |- context [requestURL ?a ?b] => change (requestURL a b) with (requestURL (url cfg) (lastEventId s))
  end.
  rewrite Hu. unfold setTimeout, emit. cbn. rewrite Hw, <- app_assoc. reflexivity.
Qed.


(** C8: the request URL of a reconnect keeps a [lastEventId] parameter that
    comes right after an ampersand at the start of the query, and carries
    the parameter twice.  For a URL [base?&s1&...] whose segment [s1] is
    named [lastEventId], a last event id that is not empty and a scheme
    other than [data:] and [blob:], the pattern of line 437 matches the
    empty text at the start of the query and is next tried from index 1,
    so that [s1] is never handed to the callback: the URL the transport is
    opened with is [base?&s1], the other segments not named [lastEventId],
    and the new parameter; two of its parameters are named [lastEventId]. *)
Theorem requestURL_keeps_parameter_after_ampersand (closes : list Entry -> bool)
  (cfg : Config) (now : Z) (s : EventSource) (base s1 : jsstring) (rest : list jsstring)
  (encoded : jsstring) :
  url cfg = base ++ QUESTION :: AMP :: s1 ++ flat_map amp rest ->
  inline_scheme (url cfg) = false -> ~ In QUESTION base ->
  ~ In AMP s1 -> is_stale s1 = true -> Forall (fun s => ~ In AMP s) rest ->
  lastEventId s <> [] -> Forall code_unit (lastEventId s) ->
  encodeURIComponent (lastEventId s) = Some encoded ->
  currentState s = WAITING ->
  let url' :=
    base ++ QUESTION :: AMP :: s1
    ++ flat_map amp (filter (fun s => negb (is_stale s)) rest ++ [fresh_parameter encoded]) in
  requestURL (url cfg) (lastEventId s) = Some url'
  /\ In (CONNECTING, TransportOpen url' (withCredentials cfg) (requestHeaders (headers cfg)))
       (log (onTimeout closes cfg now s))
  /\ stale_parameters url' = 2%nat.
Proof.
  intros Hu Hi Hb Hs Hst Hr Hid Hcu He Hw url'.
  pose proof (encodeURIComponent_no_amp _ (lastEventId s) encoded (le_n _) Hcu He) as Hna.
  assert (Hreq : requestURL (url cfg) (lastEventId s) = Some url').
  { rewrite Hu in Hi |- *.
    rewrite (requestURL_with_query base _ (lastEventId s) encoded Hi Hb Hid He).
    rewrite remove_parameter_leading_amp by assumption.
    rewrite flat_map_kept. subst url'. rewrite flat_map_app. cbn [flat_map].
    rewrite app_nil_r. unfold amp at 3, fresh_parameter. cbn [app].
    rewrite <- !app_assoc. reflexivity. }
  split; [exact Hreq|]. split.
  - rewrite (onTimeout_opens closes cfg now s url' Hw Hreq).
    apply in_or_app. right. right. now left.
  - subst url'.
    change (AMP :: s1 ++ flat_map amp
              (filter (fun s => negb (is_stale s)) rest ++ [fresh_parameter encoded]))
      with ([] ++ flat_map amp
              (s1 :: filter (fun s => negb (is_stale s)) rest ++ [fresh_parameter encoded])).
    unfold stale_parameters. rewrite query_of_query by exact Hb.
    rewrite segments_join.
    + cbn [filter]. change (is_stale []) with false. cbv iota. rewrite Hst.
      rewrite filter_app, filter_stale_kept. cbn [filter app].
      rewrite fresh_parameter_stale. reflexivity.
    + intros [].
    + constructor; [exact Hs|]. apply Forall_app. split; [now apply Forall_filter_no_amp|].
      constructor; [now apply fresh_parameter_no_amp|constructor].
Qed.

Definition stale_config : Config :=
  {| url := str "http://h/?&lastEventId=5"; withCredentials := false; headers := [] |}.

(** The connection after [id: 42], a record and the end of the response. *)
Definition waiting_42 : EventSource :=
  onFinish never 3 None
    (onProgress never 2 (str "id: 42" ++ [LF] ++ str "data: x" ++ [LF; LF])
       (onStart never 1 200 (str "OK") (Some (str "text/event-stream")) []
          (onTimeout never stale_config 0 initial))).

Lemma requestURL_keeps_parameter_after_ampersand_witness :
  requestURL (str "http://h/?&lastEventId=5") (str "42")
  = Some (str "http://h/?&lastEventId=5&lastEventId=42")
  /\ In (CONNECTING,
         TransportOpen (str "http://h/?&lastEventId=5&lastEventId=42") false
           (requestHeaders []))
       (log (onTimeout never stale_config 1003 waiting_42))
  /\ stale_parameters (str "http://h/?&lastEventId=5&lastEventId=42") = 2%nat.
Proof.
  assert (Hu : url stale_config
               = str "http://h/" ++ QUESTION :: AMP :: str "lastEventId=5" ++ flat_map amp [])
    by reflexivity.
  assert (Hi : inline_scheme (url stale_config) = false) by (vm_compute; reflexivity).
  assert (Hb : ~ In QUESTION (str "http://h/"))
    by (cbn; intros H; repeat (destruct H as [H|H]; [discriminate H|]); exact H).
  assert (Hs : ~ In AMP (str "lastEventId=5"))
    by (cbn; intros H; repeat (destruct H as [H|H]; [discriminate H|]); exact H).
  assert (Hst : is_stale (str "lastEventId=5") = true) by (vm_compute; reflexivity).
  assert (Hid : lastEventId waiting_42 = str "42") by (vm_compute; reflexivity).
  assert (Hne : lastEventId waiting_42 <> []) by (rewrite Hid; discriminate).
  assert (Hcu : Forall code_unit (lastEventId waiting_42))
    by (rewrite Hid; repeat constructor; unfold code_unit; cbn; lia).
  assert (He : encodeURIComponent (lastEventId waiting_42) = Some (str "42"))
    by (vm_compute; reflexivity).
  assert (Hw : currentState waiting_42 = WAITING) by (vm_compute; reflexivity).
  pose proof (requestURL_keeps_parameter_after_ampersand never stale_config 1003 waiting_42
                (str "http://h/") (str "lastEventId=5") [] (str "42")
                Hu Hi Hb Hs Hst (Forall_nil _) Hne Hcu He Hw) as H.
  cbv zeta in H. rewrite Hid in H. exact H.
Defined.

(** * A response that is not an event stream *)

(** The status text the error event carries: blank runs are collapsed when
    the status is not 200 (lines 223-226). *)
Definition reported_statusText (status : Z) (statusText : jsstring) : jsstring :=
  if status =? 200 then statusText else collapse_ws statusText.

Definition rejection_message (status : Z) (statusText : jsstring)
  (contentType : option jsstring) : ConsoleMessage :=
  if status =? 200 then BadContentType (option_map collapse_ws contentType)
  else BadStatus status (collapse_ws statusText).

Definition nonconforming (status : Z) (contentType : option jsstring) : Prop :=
  (status =? 200)
  && match contentType with Some ct => contentTypeRegExp_test ct | None => false end
  = false.

Definition rejection_event (status : Z) (statusText : jsstring) (responseHeaders : Headers)
  : Event :=
  ConnectionEvent (str "error") status (reported_statusText status statusText) responseHeaders.

Lemma onStart_rejected (closes : list Entry -> bool) (now status : Z)
  (statusText : jsstring) (contentType : option jsstring) (responseHeaders : Headers)
  (s : EventSource) :
  currentState s = CONNECTING -> nonconforming status contentType ->
  onStart closes now status statusText contentType responseHeaders s
  = emit (ConsoleError (rejection_message status statusText contentType))
      (fire closes onerror (rejection_event status statusText responseHeaders)
         (dispatchEvent closes (rejection_event status statusText responseHeaders)
            (emit GlobalClose s))).
Proof.
  intros Hc Hn. unfold onStart, nonconforming, rejection_event in *. rewrite Hc, Hn.
  assert (Est : (if negb (status =? 200)
                 then match statusText with [] => statusText | _ :: _ => collapse_ws statusText end
                 else statusText) = reported_statusText status statusText).
  { unfold reported_statusText. destruct (status =? 200); [reflexivity|]. now destruct statusText. }
  rewrite Est.
  assert (Em : (if negb (status =? 200)
                then BadStatus status (reported_statusText status statusText)
                else BadContentType (option_map collapse_ws contentType))
               = rejection_message status statusText contentType).
  { unfold rejection_message, reported_statusText. now destruct (status =? 200). }
  rewrite Em. reflexivity.
Qed.

(** C2: a response with a status other than 200, or with a content type
    that is not text/event-stream, does not abort the transport.  In the
    Connecting state [onStart] calls the host's global [close], hands the
    error event with the status, the status text and the headers to the
    listeners and writes its message; unless a listener closes the
    connection, the state stays Connecting, the transport is kept, the timer
    is the one that was pending and no abort is logged.  With listeners that
    do not close, nothing else changes, and the retry is scheduled only when
    the transport reports its finish: the connection then waits, with the
    retry timer armed. *)
Theorem onStart_rejection_keeps_transport (closes : list Entry -> bool) (now status : Z)
  (statusText : jsstring) (contentType : option jsstring) (responseHeaders : Headers)
  (s : EventSource) :
  currentState s = CONNECTING -> nonconforming status contentType ->
  let event := rejection_event status statusText responseHeaders in
  let s' := onStart closes now status statusText contentType responseHeaders s in
  (exists l,
      log s' = log s ++ (CONNECTING, GlobalClose) :: (CONNECTING, DispatchEvent event) :: l)
  /\ ((currentState s' = CONNECTING /\ abortController s' = abortController s
       /\ timeout s' = timeout s /\ aborts (log s') = aborts (log s))
      \/ is_closed s')
  /\ ((forall l, closes l = false) ->
      s' = set_log
             (log s ++ [(CONNECTING, GlobalClose); (CONNECTING, DispatchEvent event);
                        (CONNECTING, Fire onerror event);
                        (CONNECTING,
                         ConsoleError (rejection_message status statusText contentType))])
             s
      /\ forall now' error,
          currentState (onFinish closes now' error s') = WAITING
          /\ timeout (onFinish closes now' error s')
             = Some {| armedAt := now'; delay := retry s |}).
Proof.
  intros Hc Hn event s'. subst s'. rewrite onStart_rejected by assumption. fold event.
  set (x := emit (DispatchEvent event) (emit GlobalClose s)).
  assert (Hx : log x = log s ++ [(CONNECTING, GlobalClose); (CONNECTING, DispatchEvent event)])
    by (subst x; unfold emit; cbn; rewrite Hc, <- app_assoc; reflexivity).
  assert (L : listened x (fire closes onerror event (dispatchEvent closes event (emit GlobalClose s)))).
  { unfold dispatchEvent. fold x.
    eapply listened_trans; [apply listened_run_listeners|apply listened_fire]. }
  assert (Hh : held (emit (ConsoleError (rejection_message status statusText contentType))
                       (fire closes onerror event
                          (dispatchEvent closes event (emit GlobalClose s))))
               = held s).
  { rewrite held_emit by discriminate. rewrite held_fire, held_dispatchEvent.
    apply held_emit. discriminate. }
  split; [|split].
  - destruct L as (l & _ & Hl).
    exists (l ++ [(currentState (fire closes onerror event
                                   (dispatchEvent closes event (emit GlobalClose s))),
                   ConsoleError (rejection_message status statusText contentType))]).
    unfold emit at 1. cbn [log set_log].
    assert (E : log (fire closes onerror event (dispatchEvent closes event (emit GlobalClose s)))
                = log x ++ l) by (destruct Hl as [-> | [-> _]]; reflexivity).
    rewrite E, Hx, <- !app_assoc. reflexivity.
  - destruct L as (l & _ & [E | [E _]]).
    + left. unfold held in Hh. rewrite E in Hh |- *.
      assert (Hac : abortController
                      (emit (ConsoleError (rejection_message status statusText contentType))
                         (set_log (log x ++ l) x)) = abortController s) by reflexivity.
      rewrite Hac in Hh.
      repeat split; try reflexivity; [exact Hc|]. lia.
    + right. rewrite E. repeat split.
  - intros Hnever.
    assert (Hrun : forall y, run_listeners closes y = y)
      by (intros y; unfold run_listeners; now rewrite Hnever).
    unfold dispatchEvent, fire. rewrite !Hrun.
    assert (Es : emit (ConsoleError (rejection_message status statusText contentType))
                   (emit (Fire onerror event) (emit (DispatchEvent event) (emit GlobalClose s)))
                 = set_log
                     (log s ++ [(CONNECTING, GlobalClose); (CONNECTING, DispatchEvent event);
                                (CONNECTING, Fire onerror event);
                                (CONNECTING,
                                 ConsoleError (rejection_message status statusText contentType))])
                     s).
    { unfold emit. cbn. rewrite Hc, <- !app_assoc. reflexivity. }
    rewrite Es. split; [reflexivity|].
    intros now' error.
    set (s1 := set_log _ s).
    assert (H1 : currentState s1 = OPEN \/ currentState s1 = CONNECTING) by (right; exact Hc).
    rewrite (onFinish_eq closes now' error s1 H1). cbv zeta.
    unfold dispatchEvent, fire. rewrite !Hrun.
    destruct error; split; reflexivity.
Qed.

Definition rejected_404 : EventSource :=
  onStart never 2 404 (str "Not Found") (Some (str "text/html")) [] connecting.

Lemma onStart_rejection_keeps_transport_witness :
  currentState rejected_404 = CONNECTING
  /\ abortController rejected_404 = true
  /\ timeout rejected_404 = Some {| armedAt := 0; delay := 45000 |}
  /\ aborts (log rejected_404) = 0%nat
  /\ currentState (onFinish never 3 None rejected_404) = WAITING
  /\ timeout (onFinish never 3 None rejected_404) = Some {| armedAt := 3; delay := 1000 |}.
Proof.
  assert (Hc : currentState connecting = CONNECTING) by (vm_compute; reflexivity).
  assert (Hn : nonconforming 404 (Some (str "text/html"))) by (vm_compute; reflexivity).
  pose proof (onStart_rejection_keeps_transport never 2 404 (str "Not Found")
                (Some (str "text/html")) [] connecting Hc Hn) as H.
  cbv zeta in H. destruct H as (_ & _ & H).
  destruct (H (fun _ => eq_refl)) as [E F].
  destruct (F 3 None) as [F1 F2].
  repeat split; try (vm_compute; reflexivity); assumption.
Defined.

(** * Between two chunks *)

(** Every state the connection can reach is at the start of a line, with a
    buffered tail that holds no line terminator, unless it is closed: the
    scanning loop runs up to the last terminator of what has arrived, and
    the rest waits in [textBuffer]. *)
Definition between_chunks (s : EventSource) : Prop :=
  currentState s = CLOSED \/ (at_line_start s /\ no_terminator (textBuffer s)).

Section Reachable.

Variable closes : list Entry -> bool.
Variable cfg : Config.

Lemma between_chunks_listened (s s' : EventSource) :
  listened s s' -> between_chunks s -> between_chunks s'.
Proof.
  intros (l & _ & [-> | [-> _]]) H; [exact H|]. now left.
Qed.

Lemma between_chunks_frame (s s' : EventSource) :
  state s' = state s -> textBuffer s' = textBuffer s ->
  (currentState s = CLOSED -> currentState s' = CLOSED) ->
  between_chunks s -> between_chunks s'.
Proof.
  intros Hs Ht Hc [H|[H1 H2]]; [left; now apply Hc|right].
  unfold at_line_start. rewrite Hs, Ht. now split.
Qed.

Lemma between_chunks_onStart (now status : Z) (statusText : jsstring)
  (contentType : option jsstring) (responseHeaders : Headers) (s : EventSource) :
  between_chunks s ->
  between_chunks (onStart closes now status statusText contentType responseHeaders s).
Proof.
  intros H. unfold onStart. destruct (currentState s) eqn:E; try exact H.
  match goal with |- context [if ?b then _ else _] => destruct b end; cbv zeta.
  - eapply between_chunks_listened;
      [eapply listened_trans; [apply listened_dispatchEvent|apply listened_fire]|].
    apply (between_chunks_frame s); try reflexivity; [|exact H]. rewrite E. discriminate.
  - apply (between_chunks_frame
             (fire closes onerror
                (ConnectionEvent (str "error") status
                   (if negb (status =? 200)
                    then match statusText with
                         | [] => statusText
                         | _ :: _ => collapse_ws statusText
                         end
                    else statusText) responseHeaders)
                (dispatchEvent closes
                   (ConnectionEvent (str "error") status
                      (if negb (status =? 200)
                       then match statusText with
                            | [] => statusText
                            | _ :: _ => collapse_ws statusText
                            end
                       else statusText) responseHeaders)
                   (emit GlobalClose s)))); try reflexivity; [auto|].
    eapply between_chunks_listened;
      [eapply listened_trans; [apply listened_dispatchEvent|apply listened_fire]|].
    apply (between_chunks_frame s); try reflexivity; [|exact H]. rewrite E. discriminate.
Qed.

Lemma between_chunks_onProgress (now : Z) (text : jsstring) (s : EventSource) :
  between_chunks s -> between_chunks (onProgress closes now text s).
Proof.
  intros H. destruct (currentState s) eqn:E;
    try (unfold onProgress; rewrite E; exact H).
  destruct H as [H|[H1 H2]]; [congruence|].
  destruct (onProgress_core closes now text s E H1 H2)
    as (complete & tail & (_ & _ & Hno) & Hp).
  cbv zeta in Hp. destruct Hp as (_ & Htb & _ & _ & [Hc|(_ & Hs & _)]); [now left|right].
  split; [exact Hs|]. now rewrite Htb.
Qed.

Lemma between_chunks_onFinish (now : Z) (error : option JsError) (s : EventSource) :
  between_chunks s -> between_chunks (onFinish closes now error s).
Proof.
  intros H.
  assert (G : currentState s = OPEN \/ currentState s = CONNECTING ->
              between_chunks (onFinish closes now error s)).
  { intros Ho. rewrite onFinish_eq by exact Ho. cbv zeta.
    assert (B : between_chunks
                  (fire closes onerror (ErrorEvent error)
                     (dispatchEvent closes (ErrorEvent error) (finished now s)))).
    { eapply between_chunks_listened;
        [eapply listened_trans; [apply listened_dispatchEvent|apply listened_fire]|].
      apply (between_chunks_frame s); try reflexivity; [|exact H].
      intros Hc. destruct Ho as [Ho|Ho]; congruence. }
    destruct error; [|exact B].
    revert B. apply between_chunks_frame; try reflexivity. auto. }
  destruct (currentState s) eqn:E; try solve [apply G; auto];
    unfold onFinish; rewrite E; exact H.
Qed.

Lemma between_chunks_onTimeout (now : Z) (s : EventSource) :
  between_chunks s -> between_chunks (onTimeout closes cfg now s).
Proof.
  intros H. destruct (currentState s) eqn:E.
  - right. unfold onTimeout.
    change (currentState (set_timeout None s)) with (currentState s). rewrite E. cbv zeta.
    match goal with |- context [requestURL ?u ?i] => destruct (requestURL u i) end;
      split; solve [now right|reflexivity].
  - destruct (watchdog_stalls s) eqn:W.
    + rewrite (onTimeout_stalled closes cfg now s W). cbv zeta.
      assert (B : between_chunks (onFinish closes now (Some (stall_error s)) (set_timeout None s))).
      { apply between_chunks_onFinish. revert H. apply between_chunks_frame; auto. }
      destruct (abortController _); [|exact B].
      revert B. apply between_chunks_frame; try reflexivity. auto.
    + rewrite onTimeout_rearms; [|rewrite E; discriminate|exact W].
      revert H. apply between_chunks_frame; try reflexivity. auto.
  - destruct (watchdog_stalls s) eqn:W.
    + rewrite (onTimeout_stalled closes cfg now s W). cbv zeta.
      assert (B : between_chunks (onFinish closes now (Some (stall_error s)) (set_timeout None s))).
      { apply between_chunks_onFinish. revert H. apply between_chunks_frame; auto. }
      destruct (abortController _); [|exact B].
      revert B. apply between_chunks_frame; try reflexivity. auto.
    + rewrite onTimeout_rearms; [|rewrite E; discriminate|exact W].
      revert H. apply between_chunks_frame; try reflexivity. auto.
  - left. destruct (watchdog_stalls s) eqn:W.
    + unfold watchdog_stalls in W. rewrite onTimeout_stalled by exact W. cbv zeta.
      unfold onFinish.
      change (currentState (set_timeout None s)) with (currentState s). rewrite E.
      change (abortController (set_timeout None s)) with (abortController s).
      destruct (abortController s); exact E.
    + rewrite onTimeout_rearms; [exact E|rewrite E; discriminate|exact W].
Qed.

Lemma between_chunks_react (sig : Signal) (s : EventSource) :
  between_chunks s -> between_chunks (react closes cfg sig s).
Proof.
  destruct sig; cbn [react].
  - apply between_chunks_onStart.
  - apply between_chunks_onProgress.
  - apply between_chunks_onFinish.
  - apply between_chunks_onTimeout.
  - intros _. left. rewrite close_eq. reflexivity.
Qed.

Lemma between_chunks_run (sigs : list Signal) :
  forall s : EventSource, between_chunks s -> between_chunks (run closes cfg sigs s).
Proof.
  induction sigs as [|sig sigs IH]; intros s H; [exact H|].
  cbn [run fold_left]. apply IH, between_chunks_react, H.
Qed.

Lemma between_chunks_initial : between_chunks initial.
Proof. right. split; [now right|reflexivity]. Qed.

End Reachable.

(** C1: in the Open state, in whatever way the connection got there, feeding
    the chunks of a text one by one gives the same log (the Event Records
    handed to the listeners and the effects of the control fields, in order)
    and the same connection and parser variables as feeding the whole text in
    one call; the chunks may be cut anywhere, and listeners may close the
    connection on the way. *)
Theorem chunked_feed_is_whole_feed (closes : list Entry -> bool) (cfg : Config)
  (sigs : list Signal) (chunks : list (Z * jsstring)) (now : Z) :
  currentState (run closes cfg sigs initial) = OPEN ->
  observe (feed closes chunks (run closes cfg sigs initial))
  = observe (onProgress closes now (List.concat (map snd chunks)) (run closes cfg sigs initial)).
Proof.
  intros Hopen.
  destruct (between_chunks_run closes cfg sigs initial between_chunks_initial) as [H|[H1 H2]].
  - congruence.
  - now apply feed_is_whole_feed.
Qed.

Lemma chunked_feed_is_whole_feed_witness :
  observe (feed never [(2, str "data: a" ++ [CR]); (3, [LF] ++ str "da");
                       (4, str "ta:b" ++ [LF; CR]); (5, [LF] ++ str "id")] opened)
  = observe (onProgress never 9
               (List.concat (map snd [(2, str "data: a" ++ [CR]); (3, [LF] ++ str "da");
                                 (4, str "ta:b" ++ [LF; CR]); (5, [LF] ++ str "id")]))
               opened).
Proof.
  apply (chunked_feed_is_whole_feed never example_config
           [TimerFires 0; Start 1 200 (str "OK") (Some (str "text/event-stream")) []]).
  reflexivity.
Defined.

(** * What every reachable state satisfies *)

(** The [readyState] a state of the connection shows to the application. *)
Definition public (c : ConnState) : ConnState :=
  match c with
  | WAITING | CONNECTING => CONNECTING
  | OPEN => OPEN
  | CLOSED => CLOSED
  end.

(** [readyState] follows the state, and the three durations are within the
    bounds of [clampDuration], the retry interval between the initial retry
    and sixteen times it. *)
Definition sound (s : EventSource) : Prop :=
  readyState s = public (currentState s)
  /\ MINIMUM_DURATION <= initialRetry s
  /\ initialRetry s <= retry s
  /\ retry s <= 16 * initialRetry s
  /\ retry s <= MAXIMUM_DURATION
  /\ MINIMUM_DURATION <= heartbeatTimeout s <= MAXIMUM_DURATION.

Lemma clampDuration_bounds (n : Z) :
  MINIMUM_DURATION <= clampDuration n <= MAXIMUM_DURATION.
Proof. unfold clampDuration, MINIMUM_DURATION, MAXIMUM_DURATION. lia. Qed.

Lemma parseDuration_bounds (value : option jsstring) (def : Z) :
  MINIMUM_DURATION <= parseDuration value def <= MAXIMUM_DURATION.
Proof.
  unfold parseDuration. destruct value as [v|]; [destruct (parseInt v)|];
    apply clampDuration_bounds.
Qed.

Section Sound.

Variable closes : list Entry -> bool.
Variable cfg : Config.

(** The variables [sound] reads. *)
Definition same_vital (s s' : EventSource) : Prop :=
  currentState s' = currentState s /\ readyState s' = readyState s
  /\ initialRetry s' = initialRetry s /\ retry s' = retry s
  /\ heartbeatTimeout s' = heartbeatTimeout s.

Lemma sound_same_vital (s s' : EventSource) : same_vital s s' -> sound s -> sound s'.
Proof.
  intros (E1 & E2 & E3 & E4 & E5). unfold sound. now rewrite E1, E2, E3, E4, E5.
Qed.

Lemma sound_listened (s s' : EventSource) : listened s s' -> sound s -> sound s'.
Proof.
  intros (l & _ & [-> | [-> _]]) H; [exact H|].
  destruct H as (_ & H). split; [reflexivity|exact H].
Qed.

Lemma sound_close (s : EventSource) : sound s -> sound (close s).
Proof.
  intros (_ & H). rewrite close_eq. split; [reflexivity|exact H].
Qed.

Lemma sound_process_field (now : Z) (f v : jsstring) (s : EventSource) :
  sound s -> sound (process_field now f v s).
Proof.
  intros H. unfold process_field.
  destruct (str_eqb f (str "data")); [exact H|].
  destruct (str_eqb f (str "id")); [exact H|].
  destruct (str_eqb f (str "event")); [exact H|].
  destruct (str_eqb f (str "retry")).
  { destruct H as (H1 & _ & _ & _ & _ & H6). cbv zeta.
    pose proof (parseDuration_bounds (Some v) (initialRetry s)) as B.
    unfold sound. cbn -[Z.mul]. unfold MINIMUM_DURATION, MAXIMUM_DURATION in *.
    repeat split; try lia; try exact H1; apply H6. }
  destruct (str_eqb f (str "heartbeatTimeout")); [|exact H].
  destruct H as (H1 & H2 & H3 & H4 & H5 & _). cbv zeta.
  pose proof (parseDuration_bounds (Some v) (heartbeatTimeout s)) as B.
  set (s1 := set_heartbeatTimeout _ s).
  assert (S1 : sound s1) by (unfold sound; repeat split; try assumption; apply B).
  change (timeout s1) with (timeout s). destruct (timeout s); exact S1.
Qed.

Lemma sound_dispatch_point (s : EventSource) :
  sound s -> sound (fst (dispatch_point closes s)).
Proof.
  intros H. unfold dispatch_point. destruct (dataBuffer s); [exact H|]. cbv zeta.
  match goal with |- context [deliver closes ?x] => set (x0 := x) end.
  assert (H0 : sound x0)
    by (subst x0; cbn [eventTypeBuffer set_lastEventId]; destruct (eventTypeBuffer s); exact H).
  clearbody x0.
  pose proof (sound_listened _ _ (listened_deliver closes x0) H0) as H1.
  destruct (currentState (deliver closes x0)) eqn:E; cbn [fst]; exact H1.
Qed.

Lemma sound_parse_op (now : Z) (s s' : EventSource) :
  parse_op closes now s s' -> sound s -> sound s'.
Proof.
  induction 1 as [s|s1 s2 s3 _ IH1 _ IH2|v s|v s|v s|f v s|s]; intros H; auto.
  - now apply sound_process_field.
  - now apply sound_dispatch_point.
Qed.

Lemma sound_onProgress (now : Z) (text : jsstring) (s : EventSource) :
  sound s -> sound (onProgress closes now text s).
Proof.
  intros H. unfold onProgress. destruct (currentState s) eqn:E; try exact H. cbv zeta.
  match goal with |- sound (scan closes now ?ch ?x) => set (chunk := ch); set (s0 := x) end.
  assert (H0 : sound s0).
  { apply (sound_same_vital s); [|exact H]. subst s0. destruct text; repeat split. }
  clearbody s0 chunk. apply (sound_parse_op now s0); [|exact H0].
  apply (scan_from_op closes now chunk chunk 0 s0).
Qed.

Lemma sound_onStart (now status : Z) (statusText : jsstring) (contentType : option jsstring)
  (responseHeaders : Headers) (s : EventSource) :
  sound s -> sound (onStart closes now status statusText contentType responseHeaders s).
Proof.
  intros H. unfold onStart. destruct (currentState s) eqn:E; try exact H.
  match goal with |- context [if ?b then _ else _] => destruct b end; cbv zeta.
  - eapply sound_listened;
      [eapply listened_trans; [apply listened_dispatchEvent|apply listened_fire]|].
    destruct H as (_ & H1 & H2 & H3 & H4 & H5). unfold sound. cbn -[Z.mul].
    unfold MINIMUM_DURATION in *. repeat split; try lia; apply H5.
  - match goal with |- sound (emit ?e ?x) => apply (sound_same_vital x) end;
      [repeat split|].
    eapply sound_listened;
      [eapply listened_trans; [apply listened_dispatchEvent|apply listened_fire]|].
    apply (sound_same_vital s); [repeat split|exact H].
Qed.

Lemma sound_finished (now : Z) (s : EventSource) : sound s -> sound (finished now s).
Proof.
  intros (_ & H1 & H2 & H3 & H4 & H5). unfold sound, finished. cbn -[Z.mul].
  unfold clampDuration, MINIMUM_DURATION, MAXIMUM_DURATION in *.
  repeat split; try lia.
Qed.

Lemma sound_onFinish (now : Z) (error : option JsError) (s : EventSource) :
  sound s -> sound (onFinish closes now error s).
Proof.
  intros H.
  assert (G : currentState s = OPEN \/ currentState s = CONNECTING ->
              sound (onFinish closes now error s)).
  { intros Ho. rewrite onFinish_eq by exact Ho. cbv zeta.
    assert (B : sound (fire closes onerror (ErrorEvent error)
                         (dispatchEvent closes (ErrorEvent error) (finished now s)))).
    { eapply sound_listened;
        [eapply listened_trans; [apply listened_dispatchEvent|apply listened_fire]|].
      now apply sound_finished. }
    destruct error; [|exact B]. revert B. apply sound_same_vital. repeat split. }
  destruct (currentState s) eqn:E; try solve [apply G; auto];
    unfold onFinish; rewrite E; exact H.
Qed.

Lemma sound_onTimeout (now : Z) (s : EventSource) :
  sound s -> sound (onTimeout closes cfg now s).
Proof.
  intros H.
  assert (G : currentState s <> WAITING -> sound (onTimeout closes cfg now s)).
  { intros Hw. destruct (watchdog_stalls s) eqn:W.
    - rewrite (onTimeout_stalled closes cfg now s W). cbv zeta.
      assert (B : sound (onFinish closes now (Some (stall_error s)) (set_timeout None s))).
      { apply sound_onFinish. revert H. apply sound_same_vital. repeat split. }
      destruct (abortController _); [|exact B].
      revert B. apply sound_same_vital. repeat split.
    - rewrite onTimeout_rearms by assumption.
      revert H. apply sound_same_vital. repeat split. }
  destruct (currentState s) eqn:E; try solve [apply G; discriminate].
  unfold onTimeout. change (currentState (set_timeout None s)) with (currentState s).
  rewrite E. cbv zeta.
  destruct H as (H0 & H). rewrite E in H0.
  match goal with |- context [requestURL ?u ?i] => destruct (requestURL u i) end;
    (split; [exact H0|exact H]).
Qed.

Lemma sound_react (sig : Signal) (s : EventSource) :
  sound s -> sound (react closes cfg sig s).
Proof.
  destruct sig; cbn [react].
  - apply sound_onStart.
  - apply sound_onProgress.
  - apply sound_onFinish.
  - apply sound_onTimeout.
  - apply sound_close.
Qed.

Lemma sound_run (sigs : list Signal) :
  forall s : EventSource, sound s -> sound (run closes cfg sigs s).
Proof.
  induction sigs as [|sig sigs IH]; intros s H; [exact H|].
  cbn [run fold_left]. apply IH, sound_react, H.
Qed.

Lemma sound_initial : sound initial.
Proof. vm_compute. repeat split; discriminate. Qed.

End Sound.

(** X1: the [readyState] the application reads always follows the state of
    the connection, whatever the transport, the timer, the listeners and the
    application do: CONNECTING while the connection waits for a retry or
    connects, OPEN while it is open, CLOSED once it is closed. *)
Theorem readyState_follows_state (closes : list Entry -> bool) (cfg : Config)
  (sigs : list Signal) :
  readyState (run closes cfg sigs initial)
  = public (currentState (run closes cfg sigs initial)).
Proof. apply (sound_run closes cfg sigs initial sound_initial). Qed.

(** X2: the durations stay within bounds in every reachable state: the
    initial retry and the heartbeat timeout between 1000 and 18000000 ms, and
    the retry interval between the initial retry and the smaller of sixteen
    times the initial retry and 18000000 ms, whatever [retry] and
    [heartbeatTimeout] fields the server sends and however often the
    connection fails. *)
Theorem durations_stay_bounded (closes : list Entry -> bool) (cfg : Config)
  (sigs : list Signal) :
  let s := run closes cfg sigs initial in
  1000 <= initialRetry s <= 18000000
  /\ initialRetry s <= retry s <= Z.min (16 * initialRetry s) 18000000
  /\ 1000 <= heartbeatTimeout s <= 18000000.
Proof.
  intros s.
  destruct (sound_run closes cfg sigs initial sound_initial) as (_ & H1 & H2 & H3 & H4 & H5).
  fold s in H1, H2, H3, H4, H5. unfold MINIMUM_DURATION, MAXIMUM_DURATION in *. lia.
Qed.

(** * Timers *)

(** The state the constructor leaves: the variables as initialised, after
    its own call of [onTimeout] (line 472) at time [now]. *)
Definition constructed (closes : list Entry -> bool) (cfg : Config) (now : Z) : EventSource :=
  onTimeout closes cfg now initial.

(** A run in which a timer fires only while it is pending ([setTimeout]
    calls its function at most once, and not after [clearTimeout]). *)
Fixpoint timers_pending (closes : list Entry -> bool) (cfg : Config) (sigs : list Signal)
  (s : EventSource) : Prop :=
  match sigs with
  | [] => True
  | sig :: rest =>
      match sig with TimerFires _ => timeout s <> None | _ => True end
      /\ timers_pending closes cfg rest (react closes cfg sig s)
  end.

(** A connection that is not closed has a timer pending; a closed one has
    none, and holds no transport. *)
Definition guarded (s : EventSource) : Prop :=
  match currentState s with
  | CLOSED => timeout s = None /\ abortController s = false
  | _ => timeout s <> None
  end.

Section Guarded.

Variable closes : list Entry -> bool.
Variable cfg : Config.

Lemma guarded_frame (s s' : EventSource) :
  currentState s' = currentState s -> timeout s' = timeout s ->
  (currentState s = CLOSED -> abortController s' = abortController s) ->
  guarded s -> guarded s'.
Proof.
  intros E1 E2 E3. unfold guarded. rewrite E1, E2.
  destruct (currentState s); auto. now rewrite E3.
Qed.

Lemma guarded_listened (s s' : EventSource) : listened s s' -> guarded s -> guarded s'.
Proof.
  intros (l & _ & [-> | [-> _]]) H; [exact H|]. split; reflexivity.
Qed.

Lemma process_field_timeout (now : Z) (f v : jsstring) (s : EventSource) :
  timeout (process_field now f v s) = None <-> timeout s = None.
Proof.
  unfold process_field.
  destruct (str_eqb f (str "data")); [reflexivity|].
  destruct (str_eqb f (str "id")); [reflexivity|].
  destruct (str_eqb f (str "event")); [reflexivity|].
  destruct (str_eqb f (str "retry")); [reflexivity|].
  destruct (str_eqb f (str "heartbeatTimeout")); [|reflexivity].
  cbv zeta. set (s1 := set_heartbeatTimeout _ s).
  change (timeout s1) with (timeout s). destruct (timeout s) eqn:E.
  - split; discriminate.
  - change (timeout s1) with (timeout s). now rewrite E.
Qed.

Lemma guarded_process_field (now : Z) (f v : jsstring) (s : EventSource) :
  guarded s -> guarded (process_field now f v s).
Proof.
  destruct (process_field_frame now f v s) as (_ & Hc & _ & _ & _ & Hac & _).
  pose proof (process_field_timeout now f v s) as Ht.
  unfold guarded. rewrite Hc, Hac. destruct (currentState s); tauto.
Qed.

Lemma guarded_dispatch_point (s : EventSource) :
  guarded s -> guarded (fst (dispatch_point closes s)).
Proof.
  intros H. unfold dispatch_point. destruct (dataBuffer s); [exact H|]. cbv zeta.
  match goal with |- context [deliver closes ?x] => set (x0 := x) end.
  assert (H0 : guarded x0)
    by (subst x0; cbn [eventTypeBuffer set_lastEventId]; destruct (eventTypeBuffer s); exact H).
  clearbody x0.
  pose proof (guarded_listened _ _ (listened_deliver closes x0) H0) as H1.
  destruct (currentState (deliver closes x0)) eqn:E; cbn [fst]; try exact H1;
    unfold guarded in *; cbn; rewrite E in *; exact H1.
Qed.

Lemma guarded_parse_op (now : Z) (s s' : EventSource) :
  parse_op closes now s s' -> guarded s -> guarded s'.
Proof.
  induction 1 as [s|s1 s2 s3 _ IH1 _ IH2|v s|v s|v s|f v s|s]; intros H; auto.
  - now apply guarded_process_field.
  - now apply guarded_dispatch_point.
Qed.

Lemma guarded_onProgress (now : Z) (text : jsstring) (s : EventSource) :
  guarded s -> guarded (onProgress closes now text s).
Proof.
  intros H. unfold onProgress. destruct (currentState s) eqn:E; try exact H. cbv zeta.
  match goal with |- guarded (scan closes now ?ch ?x) => set (chunk := ch); set (s0 := x) end.
  assert (H0 : guarded s0).
  { apply (guarded_frame s); [| | |exact H]; subst s0; destruct text; reflexivity. }
  clearbody s0 chunk. apply (guarded_parse_op now s0); [|exact H0].
  apply (scan_from_op closes now chunk chunk 0 s0).
Qed.

Lemma guarded_onStart (now status : Z) (statusText : jsstring) (contentType : option jsstring)
  (responseHeaders : Headers) (s : EventSource) :
  guarded s -> guarded (onStart closes now status statusText contentType responseHeaders s).
Proof.
  intros H. unfold onStart. destruct (currentState s) eqn:E; try exact H.
  assert (Ht : timeout s <> None) by (unfold guarded in H; now rewrite E in H).
  match goal with |- context [if ?b then _ else _] => destruct b end; cbv zeta.
  - eapply guarded_listened;
      [eapply listened_trans; [apply listened_dispatchEvent|apply listened_fire]|].
    exact Ht.
  - match goal with |- guarded (emit ?e ?x) => apply (guarded_frame x) end;
      try reflexivity.
    eapply guarded_listened;
      [eapply listened_trans; [apply listened_dispatchEvent|apply listened_fire]|].
    apply (guarded_frame s); try reflexivity. exact H.
Qed.

(** A finish in the Open or Connecting state leaves the retry timer, or a
    closed connection. *)
Lemma guarded_onFinish_live (now : Z) (error : option JsError) (s : EventSource) :
  currentState s = OPEN \/ currentState s = CONNECTING ->
  guarded (onFinish closes now error s).
Proof.
  intros Ho. rewrite onFinish_eq by exact Ho. cbv zeta.
  assert (B : guarded (fire closes onerror (ErrorEvent error)
                         (dispatchEvent closes (ErrorEvent error) (finished now s)))).
  { eapply guarded_listened;
      [eapply listened_trans; [apply listened_dispatchEvent|apply listened_fire]|].
    unfold guarded, finished. cbn. discriminate. }
  destruct error; [|exact B]. revert B. apply guarded_frame; reflexivity.
Qed.

Lemma guarded_onFinish (now : Z) (error : option JsError) (s : EventSource) :
  guarded s -> guarded (onFinish closes now error s).
Proof.
  intros H.
  destruct (currentState s) eqn:E; try solve [apply guarded_onFinish_live; auto];
    unfold onFinish; rewrite E; exact H.
Qed.

Lemma guarded_onTimeout (now : Z) (s : EventSource) :
  timeout s <> None -> guarded s -> guarded (onTimeout closes cfg now s).
Proof.
  intros Ht H.
  assert (G : currentState s = OPEN \/ currentState s = CONNECTING ->
              guarded (onTimeout closes cfg now s)).
  { intros Ho.
    assert (Hw : currentState s <> WAITING) by (destruct Ho as [Ho|Ho]; rewrite Ho; discriminate).
    destruct (watchdog_stalls s) eqn:W.
    - rewrite (onTimeout_stalled closes cfg now s W). cbv zeta.
      assert (B : guarded (onFinish closes now (Some (stall_error s)) (set_timeout None s)))
        by (apply guarded_onFinish_live; exact Ho).
      destruct (abortController _); [|exact B].
      unfold guarded in *. cbn.
      destruct (currentState (onFinish closes now (Some (stall_error s)) (set_timeout None s)));
        try exact B. split; [apply B|reflexivity].
    - rewrite onTimeout_rearms by assumption.
      unfold guarded, setTimeout, emit. cbn. destruct Ho as [-> | ->]; discriminate. }
  destruct (currentState s) eqn:E; auto.
  - unfold onTimeout. change (currentState (set_timeout None s)) with (currentState s).
    rewrite E. cbv zeta.
    match goal with |- context [requestURL ?u ?i] => destruct (requestURL u i) end;
      unfold guarded; cbn; discriminate.
  - unfold guarded in H. rewrite E in H. destruct H as [H _]. contradiction.
Qed.

Lemma guarded_close (s : EventSource) : guarded (close s).
Proof. rewrite close_eq. split; reflexivity. Qed.

Lemma guarded_run (sigs : list Signal) :
  forall s : EventSource,
    timers_pending closes cfg sigs s -> guarded s -> guarded (run closes cfg sigs s).
Proof.
  induction sigs as [|sig sigs IH]; intros s Hp H; [exact H|].
  cbn [run fold_left]. destruct Hp as [Hp Hrest]. apply IH; [exact Hrest|].
  destruct sig; cbn [react].
  - now apply guarded_onStart.
  - now apply guarded_onProgress.
  - now apply guarded_onFinish.
  - now apply guarded_onTimeout.
  - apply guarded_close.
Qed.

Lemma guarded_constructed (now : Z) : guarded (constructed closes cfg now).
Proof.
  unfold constructed, onTimeout. cbn.
  match goal with |- context [requestURL ?u ?i] => destruct (requestURL u i) end;
    unfold guarded; cbn; discriminate.
Qed.

End Guarded.

(** X3: from its construction on, a connection that is not closed always
    has a timer pending (the heartbeat watchdog while it connects or is open,
    the retry timer while it waits), so it cannot come to rest in any state
    but Closed; and a closed connection has no timer and holds no
    transport. *)
Theorem timer_pending_unless_closed (closes : list Entry -> bool) (cfg : Config)
  (now : Z) (sigs : list Signal) :
  timers_pending closes cfg sigs (constructed closes cfg now) ->
  let s := run closes cfg sigs (constructed closes cfg now) in
  (currentState s <> CLOSED -> exists t, timeout s = Some t)
  /\ (currentState s = CLOSED -> timeout s = None /\ abortController s = false).
Proof.
  intros Hp s.
  pose proof (guarded_run closes cfg sigs _ Hp (guarded_constructed closes cfg now)) as H.
  fold s in H. unfold guarded in H. split.
  - intros Hc. destruct (currentState s); try contradiction;
      (destruct (timeout s) as [t|]; [now exists t|contradiction]).
  - intros Hc. now rewrite Hc in H.
Qed.

Lemma timer_pending_unless_closed_witness :
  exists t,
    timeout (run never example_config
               [Start 1 200 (str "OK") (Some (str "text/event-stream")) [];
                Progress 2 (str "heartbeatTimeout: 2000" ++ [LF]);
                TimerFires 2002; TimerFires 4002; TimerFires 5002]
               (constructed never example_config 0)) = Some t.
Proof.
  apply (timer_pending_unless_closed never example_config 0
           [Start 1 200 (str "OK") (Some (str "text/event-stream")) [];
            Progress 2 (str "heartbeatTimeout: 2000" ++ [LF]);
            TimerFires 2002; TimerFires 4002; TimerFires 5002]).
  - cbn [timers_pending]. repeat split; vm_compute; discriminate.
  - vm_compute. discriminate.
Defined.

(** A transport signal or a call of [close]: anything but a timer. *)
Definition not_timer (sig : Signal) : Prop :=
  match sig with TimerFires _ => False | _ => True end.

(** X4: a closed connection stays as it is.  Whatever the transport still
    reports (a start, chunks, a finish) and however often [close] is called
    again, no variable changes and nothing is done: no event reaches a
    listener, no timer is set, no transport is opened or aborted. *)
Theorem closed_is_final (closes : list Entry -> bool) (cfg : Config)
  (sigs : list Signal) (s : EventSource) :
  is_closed s -> Forall not_timer sigs -> run closes cfg sigs s = s.
Proof.
  intros Hc Hs. induction Hs as [|sig sigs Hsig _ IH]; [reflexivity|].
  cbn [run fold_left].
  assert (E : react closes cfg sig s = s); [|rewrite E; exact IH].
  destruct Hc as (H1 & H2 & H3 & H4).
  destruct sig; cbn [react]; try contradiction.
  - unfold onStart. now rewrite H1.
  - unfold onProgress. now rewrite H1.
  - unfold onFinish. now rewrite H1.
  - rewrite close_eq. unfold closing_log. rewrite H3, H4. cbn [app]. rewrite app_nil_r.
    destruct s. cbn in *. subst. reflexivity.
Qed.

Lemma closed_is_final_witness :
  run always example_config
    [Progress 3 (str "data: x" ++ [LF; LF]); Finish 4 None; Close;
     Start 5 200 (str "OK") (Some (str "text/event-stream")) []]
    (close opened)
  = close opened.
Proof.
  apply closed_is_final.
  - repeat split.
  - repeat constructor.
Defined.

(** * The last event id *)

(** The event id of the last Event Record of a log, the empty string when
    the log holds none. *)
Definition last_id (l : list Entry) : jsstring :=
  match last (records l) (MessageEvent [] [] []) with
  | MessageEvent _ _ i => i
  | _ => []
  end.

Definition tracked (s : EventSource) : Prop := lastEventId s = last_id (log s).

(** [s'] has the log of [s], more entries that are no Event Records, and
    the [lastEventId] of [s]. *)
Definition keeps_id (s s' : EventSource) : Prop :=
  quiet s s' /\ lastEventId s' = lastEventId s.

Section Tracked.

Variable closes : list Entry -> bool.
Variable cfg : Config.

Lemma last_id_quiet (l0 l : list Entry) : records l = [] -> last_id (l0 ++ l) = last_id l0.
Proof. intros H. unfold last_id. now rewrite records_app, H, app_nil_r. Qed.

Lemma tracked_keeps_id (s s' : EventSource) : keeps_id s s' -> tracked s -> tracked s'.
Proof.
  intros [(l & L & R) E] H. unfold tracked in *. now rewrite E, L, last_id_quiet.
Qed.

Lemma keeps_id_trans (s1 s2 s3 : EventSource) :
  keeps_id s1 s2 -> keeps_id s2 s3 -> keeps_id s1 s3.
Proof.
  intros [Q1 E1] [Q2 E2]. split; [exact (quiet_trans _ _ _ Q1 Q2)|congruence].
Qed.

Lemma lastEventId_listened (s s' : EventSource) :
  listened s s' -> lastEventId s' = lastEventId s.
Proof. intros (l & _ & [-> | [-> _]]); reflexivity. Qed.

Lemma keeps_id_onStart (now status : Z) (statusText : jsstring)
  (contentType : option jsstring) (responseHeaders : Headers) (s : EventSource) :
  keeps_id s (onStart closes now status statusText contentType responseHeaders s).
Proof.
  split; [apply quiet_onStart|].
  unfold onStart. destruct (currentState s); try reflexivity.
  match goal with |- context [if ?b then _ else _] => destruct b end; cbv zeta.
  - erewrite lastEventId_listened;
      [|eapply listened_trans; [apply listened_dispatchEvent|apply listened_fire]].
    reflexivity.
  - unfold emit at 1. cbn [lastEventId set_log].
    erewrite lastEventId_listened;
      [|eapply listened_trans; [apply listened_dispatchEvent|apply listened_fire]].
    reflexivity.
Qed.

Lemma lastEventId_onFinish (now : Z) (error : option JsError) (s : EventSource) :
  lastEventId (onFinish closes now error s) = lastEventId s.
Proof.
  assert (G : currentState s = OPEN \/ currentState s = CONNECTING ->
              lastEventId (onFinish closes now error s) = lastEventId s).
  { intros Ho. rewrite onFinish_eq by exact Ho. cbv zeta.
    assert (B : lastEventId (fire closes onerror (ErrorEvent error)
                               (dispatchEvent closes (ErrorEvent error) (finished now s)))
                = lastEventId s).
    { erewrite lastEventId_listened;
        [|eapply listened_trans; [apply listened_dispatchEvent|apply listened_fire]].
      reflexivity. }
    destruct error; exact B. }
  destruct (currentState s) eqn:E; try solve [apply G; auto];
    unfold onFinish; rewrite E; reflexivity.
Qed.

Lemma lastEventId_onTimeout (now : Z) (s : EventSource) :
  lastEventId (onTimeout closes cfg now s) = lastEventId s.
Proof.
  assert (G : currentState s <> WAITING ->
              lastEventId (onTimeout closes cfg now s) = lastEventId s).
  { intros Hw. destruct (watchdog_stalls s) eqn:W.
    - rewrite (onTimeout_stalled closes cfg now s W). cbv zeta.
      pose proof (lastEventId_onFinish now (Some (stall_error s)) (set_timeout None s)) as B.
      destruct (abortController _); exact B.
    - rewrite onTimeout_rearms by assumption. reflexivity. }
  destruct (currentState s) eqn:E; try solve [apply G; discriminate].
  unfold onTimeout. change (currentState (set_timeout None s)) with (currentState s).
  rewrite E. cbv zeta.
  match goal with |- context [requestURL ?u ?i] => destruct (requestURL u i) end; reflexivity.
Qed.

Lemma tracked_dispatch_point (s : EventSource) :
  tracked s -> tracked (fst (dispatch_point closes s)).
Proof.
  intros H. unfold dispatch_point. destruct (dataBuffer s) as [|d db] eqn:Hd; [exact H|].
  cbv zeta.
  match goal with |- context [deliver closes ?x] => set (x0 := x) end.
  assert (Hx : log x0 = log s /\ lastEventId x0 = lastEventIdBuffer x0)
    by (subst x0; cbn [eventTypeBuffer set_lastEventId]; destruct (eventTypeBuffer s);
        split; reflexivity).
  clearbody x0. destruct Hx as [Hl Hi].
  assert (T : tracked (deliver closes x0)).
  { rewrite deliver_eq. cbv zeta.
    set (event := MessageEvent (eventTypeBuffer x0) (slice_from (dataBuffer x0) 1)
                    (lastEventIdBuffer x0)).
    set (x1 := emit (DispatchEvent event) x0).
    assert (T1 : tracked x1).
    { unfold tracked, x1, emit, last_id. cbn [log set_log lastEventId].
      rewrite records_app. subst event. cbn [records flat_map record_of snd app].
      rewrite last_last. exact Hi. }
    assert (K : keeps_id x1 (dispatchEvent closes event x0)).
    { unfold dispatchEvent. fold x1. split; [apply quiet_run_listeners|].
      apply lastEventId_listened, listened_run_listeners. }
    destruct (handler_for (eventTypeBuffer x0)) as [h|].
    - apply (tracked_keeps_id x1); [|exact T1].
      eapply keeps_id_trans; [exact K|].
      split; [apply quiet_fire|apply lastEventId_listened, listened_fire].
    - apply (tracked_keeps_id x1); assumption. }
  destruct (currentState (deliver closes x0)); cbn [fst]; exact T.
Qed.

Lemma tracked_parse_op (now : Z) (s s' : EventSource) :
  parse_op closes now s s' -> tracked s -> tracked s'.
Proof.
  induction 1 as [s|s1 s2 s3 _ IH1 _ IH2|v s|v s|v s|f v s|s]; intros H; auto.
  - apply (tracked_keeps_id s); [|exact H].
    split; [apply quiet_process_field|apply (process_field_frame now f v s)].
  - now apply tracked_dispatch_point.
Qed.

Lemma tracked_onProgress (now : Z) (text : jsstring) (s : EventSource) :
  tracked s -> tracked (onProgress closes now text s).
Proof.
  intros H. unfold onProgress. destruct (currentState s) eqn:E; try exact H. cbv zeta.
  match goal with |- tracked (scan closes now ?ch ?x) => set (chunk := ch); set (s0 := x) end.
  assert (H0 : tracked s0) by (subst s0; destruct text; exact H).
  clearbody s0 chunk. apply (tracked_parse_op now s0); [|exact H0].
  apply (scan_from_op closes now chunk chunk 0 s0).
Qed.

Lemma tracked_react (sig : Signal) (s : EventSource) :
  tracked s -> tracked (react closes cfg sig s).
Proof.
  destruct sig; cbn [react].
  - apply tracked_keeps_id, keeps_id_onStart.
  - apply tracked_onProgress.
  - apply tracked_keeps_id. split; [apply quiet_onFinish|apply lastEventId_onFinish].
  - apply tracked_keeps_id. split; [apply quiet_onTimeout|apply lastEventId_onTimeout].
  - apply tracked_keeps_id. split; [apply quiet_close|now rewrite close_eq].
Qed.

Lemma tracked_run (sigs : list Signal) :
  forall s : EventSource, tracked s -> tracked (run closes cfg sigs s).
Proof.
  induction sigs as [|sig sigs IH]; intros s H; [exact H|].
  cbn [run fold_left]. apply IH, tracked_react, H.
Qed.

End Tracked.

(** X5: the [lastEventId] of the connection is always the event id of the
    last Event Record handed to the listeners (empty before the first one):
    ids of records still being read, control fields, errors, reconnects and
    [close] do not touch it; and a reconnect opens the transport with the
    request URL built for that id. *)
Theorem lastEventId_is_last_delivered (closes : list Entry -> bool) (cfg : Config)
  (sigs : list Signal) :
  let s := run closes cfg sigs initial in
  lastEventId s = last_id (log s)
  /\ (forall now u,
         currentState s = WAITING ->
         requestURL (url cfg) (last_id (log s)) = Some u ->
         In (CONNECTING, TransportOpen u (withCredentials cfg) (requestHeaders (headers cfg)))
           (log (onTimeout closes cfg now s))).
Proof.
  intros s.
  assert (T : tracked s) by (apply tracked_run; reflexivity).
  split; [exact T|]. intros now u Hw Hu. rewrite <- T in Hu.
  rewrite (onTimeout_opens closes cfg now s u Hw Hu).
  apply in_or_app. right. right. now left.
Qed.

(** * Back-off *)

(** The retry interval after [n] failures in a row, for the initial retry
    [i]: doubled each time, up to sixteen times [i] and to the upper bound. *)
Definition backoff (n : nat) (i : Z) : Z :=
  Z.min (2 ^ Z.of_nat n * i) (Z.min (16 * i) MAXIMUM_DURATION).

(** A failed attempt: the transport finishes at the first time, with or
    without an error, and the retry timer fires at the second. *)
Definition fail_once (closes : list Entry -> bool) (cfg : Config)
  (s : EventSource) (round : Z * option JsError * Z) : EventSource :=
  onTimeout closes cfg (snd round) (onFinish closes (fst (fst round)) (snd (fst round)) s).

Definition fail_repeatedly (closes : list Entry -> bool) (cfg : Config)
  (rounds : list (Z * option JsError * Z)) (s : EventSource) : EventSource :=
  fold_left (fail_once closes cfg) rounds s.

Lemma backoff_step (n : nat) (i : Z) :
  MINIMUM_DURATION <= i <= MAXIMUM_DURATION ->
  clampDuration (Z.min (i * 16) (backoff n i * 2)) = backoff (S n) i.
Proof.
  intros Hi. unfold backoff, clampDuration.
  rewrite Nat2Z.inj_succ, Z.pow_succ_r by lia.
  assert (Hp : 1 <= 2 ^ Z.of_nat n)
    by (pose proof (Z.pow_pos_nonneg 2 (Z.of_nat n)); lia).
  set (p := 2 ^ Z.of_nat n) in *. clearbody p.
  unfold MINIMUM_DURATION, MAXIMUM_DURATION in *. nia.
Qed.

Lemma backoff_0 (i : Z) : 0 <= i <= MAXIMUM_DURATION -> backoff 0 i = i.
Proof. unfold backoff, MAXIMUM_DURATION. cbn [Z.of_nat]. change (2 ^ 0) with 1. lia. Qed.

Section Backoff.

Variable closes : list Entry -> bool.
Variable cfg : Config.

Lemma fail_once_closed (s : EventSource) (round : Z * option JsError * Z) :
  currentState s = CLOSED -> currentState (fail_once closes cfg s round) = CLOSED.
Proof.
  intros H. unfold fail_once.
  assert (E : onFinish closes (fst (fst round)) (snd (fst round)) s = s)
    by (unfold onFinish; now rewrite H).
  rewrite E.
  destruct (between_chunks_onTimeout closes cfg (snd round) s (or_introl H)) as [Hc|_];
    [exact Hc|].
  destruct (watchdog_stalls s) eqn:W.
  - rewrite (onTimeout_stalled closes cfg (snd round) s W). cbv zeta. unfold onFinish.
    change (currentState (set_timeout None s)) with (currentState s). rewrite H.
    change (abortController (set_timeout None s)) with (abortController s).
    destruct (abortController s); exact H.
  - rewrite onTimeout_rearms; [exact H|rewrite H; discriminate|exact W].
Qed.

Lemma fail_repeatedly_closed (rounds : list (Z * option JsError * Z)) :
  forall s, currentState s = CLOSED ->
            currentState (fail_repeatedly closes cfg rounds s) = CLOSED.
Proof.
  induction rounds as [|r rounds IH]; intros s H; [exact H|].
  unfold fail_repeatedly in *. cbn [fold_left]. apply IH. now apply fail_once_closed.
Qed.

Lemma onTimeout_waiting (now : Z) (s : EventSource) :
  currentState s = WAITING ->
  currentState (onTimeout closes cfg now s) = CONNECTING
  /\ initialRetry (onTimeout closes cfg now s) = initialRetry s
  /\ retry (onTimeout closes cfg now s) = retry s
  /\ exists l, log (onTimeout closes cfg now s) = log s ++ l.
Proof.
  intros Hw. split; [now apply onTimeout_reconnects|].
  destruct (quiet_onTimeout closes cfg now s) as (l & Hl & _).
  unfold onTimeout in *.
  change (currentState (set_timeout None s)) with (currentState s) in *.
  rewrite Hw in *. cbv zeta in *.
  match goal with |- context [requestURL ?u ?i] => destruct (requestURL u i) end;
    (split; [reflexivity|]); (split; [reflexivity|]); exists l; exact Hl.
Qed.

(** One failed attempt, from a connection that connects or is open. *)
Lemma fail_once_live (s : EventSource) (round : Z * option JsError * Z) :
  currentState s = OPEN \/ currentState s = CONNECTING ->
  let s' := fail_once closes cfg s round in
  currentState s' = CLOSED
  \/ (currentState s' = CONNECTING
      /\ initialRetry s' = initialRetry s
      /\ retry s' = clampDuration (Z.min (initialRetry s * 16) (retry s * 2))
      /\ exists l1 l2, log s' = log s ++ l1 ++ (WAITING, SetTimeout (retry s)) :: l2).
Proof.
  intros Ho s'. subst s'. unfold fail_once.
  set (now := fst (fst round)). set (error := snd (fst round)). set (now' := snd round).
  destruct (onFinish_backoff closes now error s Ho) as ((l & Hl & _) & Hr & Hi & Hs).
  cbv zeta in Hl, Hr, Hi, Hs.
  set (f := onFinish closes now error s) in *. clearbody f.
  destruct Hs as [[Hw Ht]|[Hc _]].
  - right. destruct (onTimeout_waiting now' f Hw) as (H1 & H2 & H3 & l' & H4).
    rewrite (Z.mul_comm 16), (Z.mul_comm 2) in Hr.
    split; [exact H1|]. split; [congruence|]. split; [congruence|].
    exists (match timeout s with Some _ => [(WAITING, ClearTimeout)] | None => [] end), (l ++ l').
    rewrite H4, Hl, <- !app_assoc. cbn [app]. reflexivity.
  - left. assert (E : onFinish closes 0 None f = f) by (unfold onFinish; now rewrite Hc).
    pose proof (fail_once_closed f (0, None, now') Hc) as H.
    unfold fail_once in H. cbn [fst snd] in H. now rewrite E in H.
Qed.

Lemma fail_repeatedly_log (rounds : list (Z * option JsError * Z)) :
  forall s, exists l, log (fail_repeatedly closes cfg rounds s) = log s ++ l.
Proof.
  induction rounds as [|r rounds IH]; intros s.
  - exists []. now rewrite app_nil_r.
  - unfold fail_repeatedly in *. cbn [fold_left].
    destruct (IH (fail_once closes cfg s r)) as (l & Hl). unfold fail_once in *.
    destruct (quiet_onFinish closes (fst (fst r)) (snd (fst r)) s) as (l1 & H1 & _).
    destruct (quiet_onTimeout closes cfg (snd r)
                (onFinish closes (fst (fst r)) (snd (fst r)) s)) as (l2 & H2 & _).
    exists (l1 ++ l2 ++ l). now rewrite Hl, H2, H1, <- !app_assoc.
Qed.

Lemma fail_repeatedly_backoff (rounds : list (Z * option JsError * Z)) :
  forall (m : nat) (i : Z) (s : EventSource),
    currentState s = OPEN \/ currentState s = CONNECTING ->
    MINIMUM_DURATION <= i <= MAXIMUM_DURATION ->
    initialRetry s = i -> retry s = backoff m i ->
    let s' := fail_repeatedly closes cfg rounds s in
    currentState s' = CLOSED
    \/ ((rounds = [] \/ currentState s' = CONNECTING)
        /\ initialRetry s' = i
        /\ retry s' = backoff (m + List.length rounds) i
        /\ forall k, (k < List.length rounds)%nat ->
                     exists l1 l2,
                       log s' = log s ++ l1 ++ (WAITING, SetTimeout (backoff (m + k) i)) :: l2).
Proof.
  induction rounds as [|r rounds IH]; intros m i s Ho Hi Ei Er s'; subst s'.
  - right. cbn [fail_repeatedly fold_left List.length]. rewrite Nat.add_0_r.
    repeat split; auto. intros k Hk. cbn in Hk. lia.
  - unfold fail_repeatedly. cbn [fold_left].
    change (fold_left (fail_once closes cfg) rounds ?x)
      with (fail_repeatedly closes cfg rounds x).
    destruct (fail_once_live s r Ho) as [Hc|(Hc & Hi1 & Hr1 & l1 & l2 & Hl1)].
    + left. now apply fail_repeatedly_closed.
    + rewrite Ei, Er, backoff_step in Hr1 by exact Hi. rewrite Ei in Hi1.
      destruct (IH (S m) i (fail_once closes cfg s r) (or_intror Hc) Hi Hi1 Hr1)
        as [H|(Hs & Hi2 & Hr2 & Hall)]; [now left|right].
      split; [right; destruct Hs as [-> | Hs]; [exact Hc|exact Hs]|].
      split; [exact Hi2|]. split.
      * rewrite Hr2. f_equal. cbn [List.length]. lia.
      * intros k Hk. destruct k as [|k].
        -- destruct (fail_repeatedly_log rounds (fail_once closes cfg s r)) as (le & Hle).
           exists l1, (l2 ++ le).
           rewrite Hle, Hl1, Nat.add_0_r, Er, <- !app_assoc. cbn [app]. reflexivity.
        -- destruct (Hall k ltac:(cbn in Hk; lia)) as (l3 & l4 & Hl3).
           exists (l1 ++ (WAITING, SetTimeout (retry s)) :: l2 ++ l3), l4.
           rewrite Hl3, Hl1, <- !app_assoc. cbn [app]. rewrite <- !app_assoc.
           replace (m + S k)%nat with (S m + k)%nat by lia. reflexivity.
Qed.

End Backoff.

(** X6: the retry delays of a connection that keeps failing.  From a
    connection that connects or is open, with the retry interval at its
    initial value [i], the [k]-th failure in a row (counted from 0) arms the
    retry timer with [min (2^k * i) (16 * i) 18000000] ms: the delay doubles
    from [i] up to sixteen times [i] and never passes five hours; the
    initial retry stays [i]; a listener of the error event may close the
    connection, which ends the series. *)
Theorem backoff_doubles_to_sixteen (closes : list Entry -> bool) (cfg : Config)
  (rounds : list (Z * option JsError * Z)) (s : EventSource) :
  currentState s = OPEN \/ currentState s = CONNECTING ->
  1000 <= initialRetry s <= 18000000 -> retry s = initialRetry s ->
  let s' := fail_repeatedly closes cfg rounds s in
  currentState s' = CLOSED
  \/ (initialRetry s' = initialRetry s
      /\ retry s' = backoff (List.length rounds) (initialRetry s)
      /\ forall k, (k < List.length rounds)%nat ->
                   exists l1 l2,
                     log s' = log s ++ l1
                              ++ (WAITING, SetTimeout (backoff k (initialRetry s))) :: l2).
Proof.
  intros Ho Hi Er s'.
  assert (Er0 : retry s = backoff 0 (initialRetry s))
    by (rewrite backoff_0; [exact Er|unfold MAXIMUM_DURATION; lia]).
  destruct (fail_repeatedly_backoff closes cfg rounds 0 (initialRetry s) s Ho Hi eq_refl Er0)
    as [H|(_ & H1 & H2 & H3)]; [now left|right].
  split; [exact H1|]. split; [exact H2|exact H3].
Qed.

Lemma backoff_doubles_to_sixteen_witness :
  retry (fail_repeatedly never example_config
           [(2, None, 1002); (1003, None, 3003); (3004, None, 7004); (7005, None, 15005);
            (15006, None, 31006); (31007, None, 47007)] opened)
  = 16000.
Proof.
  assert (Ho : currentState opened = OPEN \/ currentState opened = CONNECTING)
    by (left; vm_compute; reflexivity).
  assert (Hi : 1000 <= initialRetry opened <= 18000000) by (vm_compute; split; discriminate).
  assert (Er : retry opened = initialRetry opened) by (vm_compute; reflexivity).
  destruct (backoff_doubles_to_sixteen never example_config
              [(2, None, 1002); (1003, None, 3003); (3004, None, 7004); (7005, None, 15005);
               (15006, None, 31006); (31007, None, 47007)] opened Ho Hi Er)
    as [H|(_ & H & _)].
  - vm_compute in H. discriminate H.
  - rewrite H. vm_compute. reflexivity.
Defined.

(** * A new attempt starts from a clean parser *)

(** Nothing of an earlier response is left in the parser's variables, and
    the pending event id is the id of the last record delivered. *)
Definition clean (s : EventSource) : Prop :=
  dataBuffer s = [] /\ eventTypeBuffer s = [] /\ textBuffer s = []
  /\ state s = FIELD_START /\ fieldStart s = 0 /\ valueStart s = 0
  /\ lastEventIdBuffer s = lastEventId s /\ textLength s = 0.

Definition clean_while_connecting (s : EventSource) : Prop :=
  currentState s = CONNECTING -> clean s /\ wasActivity s = None.

Section Clean.

Variable closes : list Entry -> bool.
Variable cfg : Config.

Lemma listened_state (s s' : EventSource) :
  listened s s' -> currentState s' = currentState s \/ currentState s' = CLOSED.
Proof. intros (l & _ & [-> | [-> _]]); [now left|now right]. Qed.

Lemma listened_clean (s s' : EventSource) :
  listened s s' -> clean s -> clean s'.
Proof. intros (l & _ & [-> | [-> _]]) H; exact H. Qed.

Lemma parse_op_not_connecting (now : Z) (s s' : EventSource) :
  parse_op closes now s s' -> currentState s <> CONNECTING -> currentState s' <> CONNECTING.
Proof.
  induction 1 as [s|s1 s2 s3 _ IH1 _ IH2|v s|v s|v s|f v s|s]; intros H; auto.
  - destruct (process_field_frame now f v s) as (_ & Hc & _). now rewrite Hc.
  - unfold dispatch_point. destruct (dataBuffer s); [exact H|]. cbv zeta.
    match goal with |- context [deliver closes ?x] => set (x0 := x) end.
    assert (H0 : currentState x0 = currentState s)
      by (subst x0; cbn [eventTypeBuffer set_lastEventId]; now destruct (eventTypeBuffer s)).
    clearbody x0.
    destruct (listened_state _ _ (listened_deliver closes x0)) as [E|E]; rewrite E; cbn [fst].
    + rewrite H0. destruct (currentState s); cbn; try congruence; discriminate.
    + rewrite E. discriminate.
Qed.

Lemma onFinish_not_connecting (now : Z) (error : option JsError) (s : EventSource) :
  currentState (onFinish closes now error s) <> CONNECTING.
Proof.
  assert (G : currentState s = OPEN \/ currentState s = CONNECTING ->
              currentState (onFinish closes now error s) <> CONNECTING).
  { intros Ho. destruct (onFinish_backoff closes now error s Ho) as (_ & _ & _ & Hs).
    cbv zeta in Hs. destruct Hs as [[-> _]|[-> _]]; discriminate. }
  destruct (currentState s) eqn:E; try solve [apply G; auto];
    unfold onFinish; rewrite E; rewrite E; discriminate.
Qed.

Lemma clean_onStart (now status : Z) (statusText : jsstring) (contentType : option jsstring)
  (responseHeaders : Headers) (s : EventSource) :
  clean_while_connecting s ->
  clean_while_connecting (onStart closes now status statusText contentType responseHeaders s).
Proof.
  intros H. unfold onStart. destruct (currentState s) eqn:E; try exact H.
  destruct (H E) as [Hc Hw].
  match goal with |- context [if ?b then _ else _] => destruct b end; cbv zeta.
  - intros Hs. exfalso.
    match type of Hs with currentState (fire _ _ _ (dispatchEvent _ _ ?x)) = _ =>
      assert (L : listened x (fire closes onopen
                                (ConnectionEvent (str "open") status statusText responseHeaders)
                                (dispatchEvent closes
                                   (ConnectionEvent (str "open") status statusText
                                      responseHeaders) x)))
        by (eapply listened_trans; [apply listened_dispatchEvent|apply listened_fire])
    end.
    destruct (listened_state _ _ L) as [E'|E']; rewrite E' in Hs; discriminate Hs.
  - intros _.
    match goal with
    | |- clean (emit ?e (fire _ ?h ?ev (dispatchEvent _ _ ?x))) /\ _ =>
        assert (L : listened x (fire closes h ev (dispatchEvent closes ev x)))
          by (eapply listened_trans; [apply listened_dispatchEvent|apply listened_fire])
    end.
    split.
    + apply (listened_clean _ _ L). exact Hc.
    + destruct L as (l & _ & [-> | [-> _]]); exact Hw.
Qed.

Lemma clean_onProgress (now : Z) (text : jsstring) (s : EventSource) :
  clean_while_connecting s -> clean_while_connecting (onProgress closes now text s).
Proof.
  intros H. unfold onProgress. destruct (currentState s) eqn:E; try exact H. cbv zeta.
  match goal with
  | |- clean_while_connecting (scan closes now ?ch ?x) => set (chunk := ch); set (s0 := x)
  end.
  assert (H0 : currentState s0 <> CONNECTING)
    by (subst s0; destruct text; cbn; rewrite E; discriminate).
  clearbody s0 chunk. intros Hc. exfalso.
  apply (parse_op_not_connecting now s0 _ (scan_from_op closes now chunk chunk 0 s0) H0).
  exact Hc.
Qed.

Lemma clean_onTimeout (now : Z) (s : EventSource) :
  clean_while_connecting s -> clean_while_connecting (onTimeout closes cfg now s).
Proof.
  intros H.
  assert (G : currentState s <> WAITING -> clean_while_connecting (onTimeout closes cfg now s)).
  { intros Hw. destruct (watchdog_stalls s) eqn:W.
    - rewrite (onTimeout_stalled closes cfg now s W). cbv zeta.
      pose proof (onFinish_not_connecting now (Some (stall_error s)) (set_timeout None s)) as B.
      intros Hc. exfalso. apply B. destruct (abortController _); exact Hc.
    - rewrite onTimeout_rearms by assumption. intros Hc.
      destruct (H Hc) as [H1 _]. split; [exact H1|reflexivity]. }
  destruct (currentState s) eqn:E; try solve [apply G; discriminate].
  intros _. unfold onTimeout. change (currentState (set_timeout None s)) with (currentState s).
  rewrite E. cbv zeta.
  match goal with |- context [requestURL ?u ?i] => destruct (requestURL u i) end;
    repeat split.
Qed.

Lemma clean_react (sig : Signal) (s : EventSource) :
  clean_while_connecting s -> clean_while_connecting (react closes cfg sig s).
Proof.
  destruct sig; cbn [react].
  - apply clean_onStart.
  - apply clean_onProgress.
  - intros _ Hc. exfalso. exact (onFinish_not_connecting _ _ _ Hc).
  - apply clean_onTimeout.
  - intros _ Hc. rewrite close_eq in Hc. discriminate Hc.
Qed.

Lemma clean_run (sigs : list Signal) :
  forall s : EventSource,
    clean_while_connecting s -> clean_while_connecting (run closes cfg sigs s).
Proof.
  induction sigs as [|sig sigs IH]; intros s H; [exact H|].
  cbn [run fold_left]. apply IH, clean_react, H.
Qed.

End Clean.

(** X7: every attempt is parsed from a clean state.  Whenever the
    connection is connecting, and so when a good response opens it, the
    parser holds nothing of an earlier response: no data of a record that was
    not finished by a blank line, no event type, no unfinished line; the
    pending event id is the id of the last record delivered (an [id] field of
    an unfinished record is dropped) and the count of characters is 0. *)
Theorem attempt_starts_clean (closes : list Entry -> bool) (cfg : Config)
  (sigs : list Signal) :
  let s := run closes cfg sigs initial in
  (currentState s = CONNECTING -> clean s)
  /\ (forall now status statusText contentType responseHeaders,
         currentState s = CONNECTING ->
         currentState (onStart closes now status statusText contentType responseHeaders s)
         = OPEN ->
         clean (onStart closes now status statusText contentType responseHeaders s)).
Proof.
  intros s.
  assert (H : clean_while_connecting s)
    by (apply clean_run; intros Hc; discriminate Hc).
  split; [intros Hc; apply (H Hc)|].
  intros now status statusText contentType responseHeaders Hc Ho.
  destruct (H Hc) as [Hcl _]. revert Ho. unfold onStart. rewrite Hc.
  match goal with |- context [if ?b then _ else _] => destruct b end; cbv zeta.
  - intros _.
    eapply listened_clean;
      [eapply listened_trans; [apply listened_dispatchEvent|apply listened_fire]|].
    exact Hcl.
  - intros Ho. exfalso.
    match type of Ho with
    | currentState (emit ?e (fire _ ?h ?ev (dispatchEvent _ _ ?x))) = _ =>
        assert (L : listened x (fire closes h ev (dispatchEvent closes ev x)))
          by (eapply listened_trans; [apply listened_dispatchEvent|apply listened_fire])
    end.
    unfold emit at 1 in Ho. cbn [currentState set_log] in Ho.
    destruct (listened_state _ _ L) as [E|E]; rewrite E in Ho; [|discriminate Ho].
    cbn in Ho. rewrite Hc in Ho. discriminate Ho.
Qed.

(** * Single lines *)

Section OneLine.

Variable closes : list Entry -> bool.

(** A line that is not blank, ended by a line feed, in the Open state, at
    the start of a line and with nothing buffered. *)
Lemma onProgress_line (now : Z) (line : jsstring) (s : EventSource) :
  currentState s = OPEN -> at_line_start s -> textBuffer s = [] ->
  no_terminator line -> line <> [] ->
  let s' := onProgress closes now (line ++ [LF]) s in
  core s' = set_state FIELD_START (process_field 0 (field_of line) (value_of line) (core s))
  /\ textBuffer s' = []
  /\ textLength s' = textLength s + jslength line + 1
  /\ wasActivity s' = Some now.
Proof.
  intros Hopen Hs Htb Hno Hne s'. subst s'.
  assert (Hterm : terminated (line ++ [LF])) by (right; exists line, LF; now split).
  destruct (onProgress_lines closes now (line ++ [LF]) s Hopen Hs Htb Hterm) as [Hc Ht].
  rewrite line_run_field in Hc by assumption. cbn [fst] in Hc.
  assert (Hno' : no_terminator (textBuffer s)) by now rewrite Htb.
  destruct (onProgress_core closes now (line ++ [LF]) s Hopen Hs Hno')
    as (c1 & t1 & _ & Hp). cbv zeta in Hp. destruct Hp as (_ & _ & Hl & Hw & _).
  split; [now rewrite <- Hc|]. split; [exact Ht|]. split.
  - rewrite Hl, jslength_app. change (jslength [LF]) with 1. lia.
  - rewrite Hw. destruct line; reflexivity.
Qed.

End OneLine.

(** The field names the parser acts on. *)
Definition known_field (f : jsstring) : bool :=
  str_eqb f (str "data") || str_eqb f (str "id") || str_eqb f (str "event")
  || str_eqb f (str "retry") || str_eqb f (str "heartbeatTimeout").

Lemma process_field_unknown (now : Z) (f v : jsstring) (s : EventSource) :
  known_field f = false -> process_field now f v s = s.
Proof.
  unfold known_field, process_field. intros H.
  repeat (apply orb_false_iff in H; destruct H as [H ?]).
  now repeat match goal with E : str_eqb f ?b = false |- _ => rewrite E; clear E end.
Qed.

(** X8: a comment line (one that begins with a colon) and a line whose field
    name is not [data], [id], [event], [retry] or [heartbeatTimeout] change
    nothing but the time of the last activity and the count of characters:
    no event, no timer, no buffer; they keep the watchdog quiet and are
    otherwise ignored. *)
Theorem unknown_lines_only_count (closes : list Entry -> bool) (now : Z)
  (line : jsstring) (s : EventSource) :
  currentState s = OPEN -> at_line_start s -> textBuffer s = [] ->
  no_terminator line -> line <> [] -> known_field (field_of line) = false ->
  let s' := onProgress closes now (line ++ [LF]) s in
  core s' = set_state FIELD_START (core s)
  /\ textBuffer s' = []
  /\ textLength s' = textLength s + jslength line + 1
  /\ wasActivity s' = Some now
  /\ forall comment, known_field (field_of (COLON :: comment)) = false.
Proof.
  intros Hopen Hs Htb Hno Hne Hf s'.
  destruct (onProgress_line closes now line s Hopen Hs Htb Hno Hne) as (H1 & H2 & H3 & H4).
  fold s' in H1, H2, H3, H4. rewrite process_field_unknown in H1 by exact Hf.
  repeat split; assumption || reflexivity.
Qed.

Lemma unknown_lines_only_count_witness :
  log (onProgress never 7 (str ": keep-alive" ++ [LF]) opened) = log opened
  /\ wasActivity (onProgress never 7 (str ": keep-alive" ++ [LF]) opened) = Some 7.
Proof.
  assert (Hopen : currentState opened = OPEN) by (vm_compute; reflexivity).
  assert (Hstate : state opened = FIELD_START) by (vm_compute; reflexivity).
  assert (Htb : textBuffer opened = []) by (vm_compute; reflexivity).
  pose proof (unknown_lines_only_count never 7 (str ": keep-alive") opened
                Hopen (or_intror Hstate) Htb) as H.
  cbv zeta in H.
  destruct H as (H1 & _ & _ & H4 & _); [reflexivity|discriminate|reflexivity|].
  split; [|exact H4].
  change (log (onProgress never 7 (str ": keep-alive" ++ [LF]) opened))
    with (log (core (onProgress never 7 (str ": keep-alive" ++ [LF]) opened))).
  rewrite H1. reflexivity.
Defined.

(** * The value of a field *)

Lemma value_of_bare (f : jsstring) :
  forallb not_colon f = true -> field_of f = f /\ value_of f = [].
Proof.
  intros Hf. assert (E : field_of f = f) by now apply field_of_all.
  split; [exact E|]. unfold value_of. now rewrite E, skipn_all.
Qed.

Lemma value_of_colon (f r : jsstring) :
  forallb not_colon f = true ->
  field_of (f ++ COLON :: r) = f
  /\ value_of (f ++ COLON :: r)
     = match r with
       | [] => []
       | c :: v => if c =? SPACE then v else c :: v
       end.
Proof.
  intros Hf. assert (E : field_of (f ++ COLON :: r) = f) by now apply field_of_app_colon.
  split; [exact E|]. unfold value_of. rewrite E, skipn_length_app. now destruct r.
Qed.

(** X9: how a line is cut into a field name and a value.  A line without a
    colon is a field with the empty value, the same as the name followed by
    a colon, or by a colon and one space; after the colon exactly one space
    is dropped when there is one, so [name: value] and [name:value] are the
    same line when the value does not begin with a space, and a second space
    belongs to the value. *)
Theorem field_value_spellings (closes : list Entry -> bool) (now : Z) (f : jsstring)
  (s : EventSource) :
  currentState s = OPEN -> at_line_start s -> textBuffer s = [] ->
  no_terminator f -> f <> [] -> forallb not_colon f = true ->
  let bare := set_state FIELD_START (process_field 0 f [] (core s)) in
  core (onProgress closes now (f ++ [LF]) s) = bare
  /\ core (onProgress closes now ((f ++ [COLON]) ++ [LF]) s) = bare
  /\ core (onProgress closes now ((f ++ [COLON; SPACE]) ++ [LF]) s) = bare
  /\ (forall v, no_terminator v ->
                core (onProgress closes now ((f ++ COLON :: SPACE :: v) ++ [LF]) s)
                = set_state FIELD_START (process_field 0 f v (core s)))
  /\ (forall c v, c <> SPACE -> no_terminator (c :: v) ->
                  core (onProgress closes now ((f ++ COLON :: c :: v) ++ [LF]) s)
                  = set_state FIELD_START (process_field 0 f (c :: v) (core s))).
Proof.
  intros Hopen Hs Htb Hno Hne Hf bare. subst bare.
  assert (Hline : forall r, no_terminator r ->
            core (onProgress closes now ((f ++ COLON :: r) ++ [LF]) s)
            = set_state FIELD_START
                (process_field 0 f
                   match r with [] => [] | c :: v => if c =? SPACE then v else c :: v end
                   (core s))).
  { intros r Hr.
    destruct (onProgress_line closes now (f ++ COLON :: r) s Hopen Hs Htb) as [H _].
    - apply no_terminator_app. split; [exact Hno|]. exact Hr.
    - now destruct f.
    - destruct (value_of_colon f r Hf) as [E1 E2]. now rewrite E1, E2 in H. }
  split; [|split; [|split; [|split]]].
  - destruct (onProgress_line closes now f s Hopen Hs Htb Hno Hne) as [H _].
    destruct (value_of_bare f Hf) as [E1 E2]. now rewrite E1, E2 in H.
  - apply (Hline []). reflexivity.
  - apply (Hline [SPACE]). reflexivity.
  - intros v Hv. apply (Hline (SPACE :: v)). exact Hv.
  - intros c v Hc Hv. rewrite (Hline (c :: v) Hv).
    destruct (Z.eqb_spec c SPACE); [contradiction|reflexivity].
Qed.

Lemma field_value_spellings_witness :
  dataBuffer (onProgress never 5 (str "data" ++ [LF]) opened) = [LF]
  /\ dataBuffer (onProgress never 5 ((str "data" ++ COLON :: SPACE :: str " x") ++ [LF]) opened)
     = LF :: str " x".
Proof.
  assert (Hopen : currentState opened = OPEN) by (vm_compute; reflexivity).
  assert (Hstate : state opened = FIELD_START) by (vm_compute; reflexivity).
  assert (Htb : textBuffer opened = []) by (vm_compute; reflexivity).
  pose proof (field_value_spellings never 5 (str "data") opened
                Hopen (or_intror Hstate) Htb) as H.
  cbv zeta in H.
  destruct H as (H1 & _ & _ & H4 & _); [reflexivity|discriminate|reflexivity|].
  split.
  - change (dataBuffer (onProgress never 5 (str "data" ++ [LF]) opened))
      with (dataBuffer (core (onProgress never 5 (str "data" ++ [LF]) opened))).
    rewrite H1. reflexivity.
  - change (dataBuffer
              (onProgress never 5 ((str "data" ++ COLON :: SPACE :: str " x") ++ [LF]) opened))
      with (dataBuffer
              (core (onProgress never 5
                       ((str "data" ++ COLON :: SPACE :: str " x") ++ [LF]) opened))).
    rewrite (H4 (str " x") eq_refl). reflexivity.
Defined.

(** * The heartbeat field, and chunks without a line end *)



(** X11: a chunk that holds no line terminator only waits.  It is appended
    to the buffered text and counted as activity; no field of the unfinished
    line takes effect and nothing is delivered until the terminator of the
    line arrives. *)
Theorem unfinished_line_waits (closes : list Entry -> bool) (now : Z) (text : jsstring)
  (s : EventSource) :
  currentState s = OPEN -> no_terminator text ->
  onProgress closes now text s
  = match text with
    | [] => s
    | _ :: _ =>
        set_textLength (textLength s + jslength text)
          (set_wasActivity (Some now) (set_textBuffer (textBuffer s ++ text) s))
    end.
Proof.
  intros Hopen Hno. unfold onProgress. rewrite Hopen.
  destruct (last_terminator_spec text 0 (-1)) as [[_ ->]|(a & c & b & -> & Hc & _ & _)].
  - change (-1 =? -1) with true. cbn [negb app]. change (-1 + 1) with 0.
    rewrite (slice_empty text 0 0) by lia.
    assert (E : slice_from text 0 = text) by apply (slice_from_suffix [] text).
    rewrite E. cbv zeta. unfold scan. cbn [scan_from].
    destruct text; [|reflexivity].
    rewrite app_nil_r. destruct s. reflexivity.
  - exfalso. apply no_terminator_app in Hno. destruct Hno as [_ Hno].
    unfold no_terminator in Hno. cbn [forallb] in Hno.
    apply andb_true_iff in Hno. destruct Hno as [Hno _].
    rewrite Hc in Hno. discriminate Hno.
Qed.

Lemma unfinished_line_waits_witness :
  log (onProgress never 4 (str "data: half a li") opened) = log opened
  /\ textBuffer (onProgress never 4 (str "data: half a li") opened) = str "data: half a li".
Proof.
  assert (Hopen : currentState opened = OPEN) by (vm_compute; reflexivity).
  rewrite (unfinished_line_waits never 4 (str "data: half a li") opened Hopen eq_refl).
  split; reflexivity.
Defined.

(** * Line terminators *)

(** The three ways to end a line. *)
Inductive Newline := NL_LF | NL_CR | NL_CRLF.

Definition ending (nl : Newline) : jsstring :=
  match nl with
  | NL_LF => [LF]
  | NL_CR => [CR]
  | NL_CRLF => [CR; LF]
  end.

Definition is_cr (nl : Newline) : bool :=
  match nl with NL_CR => true | _ => false end.

(** Lines, each with its own ending. *)
Definition encode (ls : list (jsstring * Newline)) : jsstring :=
  List.concat (map (fun p => fst p ++ ending (snd p)) ls).

(** No empty line ended by a line feed comes right after a line ended by a
    carriage return: the two characters would read as one ending. *)
Fixpoint unambiguous (after_cr : bool) (ls : list (jsstring * Newline)) : Prop :=
  match ls with
  | [] => True
  | (l, nl) :: rest =>
      ~ (after_cr = true /\ l = [] /\ nl = NL_LF) /\ unambiguous (is_cr nl) rest
  end.

Section Newlines.

Variable closes : list Entry -> bool.

(** Two states of the line machine that differ at most in [state], the
    first one after a carriage return when [cr] says so. *)
Definition same_but_state (cr : bool) (a b : EventSource) : Prop :=
  set_state FIELD_START a = set_state FIELD_START b
  /\ (currentState b = CLOSED
      \/ (currentState b = OPEN /\ state b = FIELD_START
          /\ state a = if cr then AFTER_CR else FIELD_START)).

Lemma same_but_state_currentState (cr : bool) (a b : EventSource) :
  same_but_state cr a b -> currentState a = currentState b.
Proof.
  intros [H _].
  change (currentState a) with (currentState (set_state FIELD_START a)). now rewrite H.
Qed.

Lemma line_step_end (a : EventSource) (c0 : Z) (l : jsstring) (c : Z) :
  currentState a = OPEN -> isTerminator c = true ->
  line_step closes (a, c0 :: l) c
  = (set_state (if c =? CR then AFTER_CR else FIELD_START)
       (process_field 0 (field_of (c0 :: l)) (value_of (c0 :: l)) a), []).
Proof. intros Ha Hc. unfold line_step. unfold isTerminator in Hc. now rewrite Ha, Hc. Qed.

Lemma line_step_swallow (a : EventSource) :
  currentState a = OPEN -> state a = AFTER_CR ->
  line_step closes (a, []) LF = (set_state FIELD_START a, []).
Proof. intros Ha Hs. unfold line_step. now rewrite Ha, Hs. Qed.

Lemma line_step_blank (a : EventSource) (c : Z) :
  currentState a = OPEN -> isTerminator c = true ->
  LineState_eqb (state a) AFTER_CR && (c =? LF) = false ->
  line_step closes (a, []) c
  = (let (a', returned) := dispatch_point closes (set_state FIELD_START a) in
     if returned then (a', [])
     else (set_state (if c =? CR then AFTER_CR else FIELD_START) a', [])).
Proof.
  intros Ha Hc Hs. unfold line_step. unfold isTerminator in Hc. now rewrite Ha, Hc, Hs.
Qed.

Lemma same_but_state_closed (cr : bool) (a : EventSource) :
  currentState a = CLOSED -> same_but_state cr a a.
Proof. intros H. split; [reflexivity|now left]. Qed.

Lemma same_but_state_open (cr : bool) (x : EventSource) :
  currentState x = OPEN ->
  same_but_state cr (set_state (if cr then AFTER_CR else FIELD_START) x)
    (set_state FIELD_START x).
Proof. intros H. split; [reflexivity|]. right. now repeat split. Qed.

(** One line with its ending against the same line ended by a line feed. *)
Lemma line_run_ending (cr : bool) (a b : EventSource) (l : jsstring) (nl : Newline) :
  same_but_state cr a b -> no_terminator l -> ~ (cr = true /\ l = [] /\ nl = NL_LF) ->
  exists a1 b1,
    line_run closes (l ++ ending nl) (a, []) = (a1, [])
    /\ line_run closes (l ++ [LF]) (b, []) = (b1, [])
    /\ same_but_state (is_cr nl) a1 b1.
Proof.
  intros Hab Hno Hamb.
  pose proof (same_but_state_currentState cr a b Hab) as Hcs.
  destruct Hab as [Hn [Hc|(Ho & Hsb & Hsa)]].
  { exists a, b. rewrite !line_run_closed by congruence.
    split; [reflexivity|]. split; [reflexivity|]. split; [exact Hn|now left]. }
  assert (Hoa : currentState a = OPEN) by congruence.
  assert (Hb : set_state FIELD_START a = b) by (rewrite Hn; now apply set_state_same).
  destruct l as [|c0 l].
  - (* a blank line *)
    cbn [app].
    assert (Hblank : line_run closes [LF] (b, [])
                     = (let (b', returned) := dispatch_point closes b in
                        if returned then b' else set_state FIELD_START b', []))
      by now apply line_run_blank.
    pose proof (dispatch_point_returned closes b Ho) as Hret.
    assert (Hcr : line_step closes (a, []) CR
                  = (let (b', returned) := dispatch_point closes b in
                     if returned then (b', []) else (set_state AFTER_CR b', [])))
      by (rewrite line_step_blank;
          [now rewrite Hb|exact Hoa|reflexivity|now rewrite andb_false_r]).
    rewrite Hblank. clear Hblank.
    destruct nl; cbn [ending is_cr line_run fold_left].
    + (* LF: the state is not AFTER_CR *)
      assert (Hs : state a = FIELD_START)
        by (destruct cr; [exfalso; apply Hamb; auto|exact Hsa]).
      assert (E : a = b) by (rewrite <- Hb; symmetry; now apply set_state_same).
      subst a.
      rewrite line_step_blank; [|exact Ho|reflexivity|now rewrite Hs].
      rewrite (set_state_same b FIELD_START Hs).
      destruct (dispatch_point closes b) as [b' ret]. cbn [fst snd] in Hret.
      destruct ret; eexists _, _; (split; [reflexivity|]); (split; [reflexivity|]).
      * now apply same_but_state_closed.
      * now apply (same_but_state_open false).
    + (* CR *)
      rewrite Hcr. destruct (dispatch_point closes b) as [b' ret]. cbn [fst snd] in Hret.
      destruct ret; eexists _, _; (split; [reflexivity|]); (split; [reflexivity|]).
      * now apply same_but_state_closed.
      * now apply (same_but_state_open true).
    + (* CR LF *)
      rewrite Hcr. destruct (dispatch_point closes b) as [b' ret]. cbn [fst snd] in Hret.
      destruct ret.
      * rewrite line_step_closed by exact Hret.
        eexists _, _; (split; [reflexivity|]); (split; [reflexivity|]).
        now apply same_but_state_closed.
      * rewrite line_step_swallow; [|exact Hret|reflexivity].
        eexists _, _; (split; [reflexivity|]); (split; [reflexivity|]).
        exact (same_but_state_open false b' Hret).
  - (* a field *)
    assert (Hne : c0 :: l <> []) by discriminate.
    set (f := field_of (c0 :: l)). set (v := value_of (c0 :: l)).
    set (w := line_state (c0 :: l)).
    assert (HB : line_run closes ((c0 :: l) ++ [LF]) (b, [])
                 = (set_state FIELD_START (process_field 0 f v a), [])).
    { rewrite (line_run_field closes (c0 :: l) b Hno Hne Ho). fold f v.
      rewrite <- Hb, process_field_set_state. reflexivity. }
    assert (Hpo : currentState (process_field 0 f v a) = OPEN).
    { destruct (process_field_frame 0 f v a) as (_ & Hc & _). now rewrite Hc. }
    assert (HA : forall c rest, isTerminator c = true ->
              line_run closes ((c0 :: l) ++ c :: rest) (a, [])
              = line_run closes rest
                  (set_state (if c =? CR then AFTER_CR else FIELD_START)
                     (process_field 0 f v a), [])).
    { intros c rest Hc. rewrite line_run_app.
      pose proof (line_run_chars closes (c0 :: l) a [] Hno Hoa Hne) as Hch.
      cbn [app] in Hch. fold w in Hch.
      transitivity (line_run closes (c :: rest) (set_state w a, c0 :: l));
        [f_equal; exact Hch|].
      cbn [line_run fold_left]. rewrite line_step_end; [|exact Hoa|exact Hc].
      fold f v. now rewrite process_field_set_state. }
    exists (set_state (if is_cr nl then AFTER_CR else FIELD_START) (process_field 0 f v a)),
      (set_state FIELD_START (process_field 0 f v a)).
    split; [|split; [exact HB|now apply same_but_state_open]].
    destruct nl; cbn [ending is_cr]; rewrite HA by reflexivity.
    + reflexivity.
    + reflexivity.
    + change (CR =? CR) with true. cbv iota. cbn [line_run fold_left].
      rewrite line_step_swallow; [reflexivity|exact Hpo|reflexivity].
Qed.

Lemma line_run_encode (ls : list (jsstring * Newline)) :
  forall (cr : bool) (a b : EventSource),
    same_but_state cr a b -> Forall (fun p => no_terminator (fst p)) ls ->
    unambiguous cr ls ->
    exists cr' a1 b1,
      line_run closes (encode ls) (a, []) = (a1, [])
      /\ line_run closes (serialize (map fst ls)) (b, []) = (b1, [])
      /\ same_but_state cr' a1 b1.
Proof.
  induction ls as [|[l nl] ls IH]; intros cr a b Hab Hno Hu.
  - exists cr, a, b. split; [reflexivity|]. split; [reflexivity|exact Hab].
  - inversion Hno as [|? ? Hl Hno']; subst. cbn [fst] in Hl.
    cbn [unambiguous] in Hu. destruct Hu as [Hamb Hu].
    destruct (line_run_ending cr a b l nl Hab Hl Hamb) as (a1 & b1 & Ha & Hb & Hab1).
    destruct (IH (is_cr nl) a1 b1 Hab1 Hno' Hu) as (cr' & a2 & b2 & Ha2 & Hb2 & Hab2).
    exists cr', a2, b2. unfold encode, serialize in *. cbn [map List.concat fst snd].
    rewrite (line_run_app closes (l ++ ending nl)), (line_run_app closes (l ++ [LF])), Ha, Hb.
    split; [exact Ha2|]. split; [exact Hb2|exact Hab2].
Qed.

Lemma encode_terminated (ls : list (jsstring * Newline)) : terminated (encode ls).
Proof.
  induction ls as [|[l nl] ls IH]; [now left|].
  unfold encode in *. cbn [map List.concat fst snd].
  apply terminated_app; [|exact IH]. right.
  destruct nl; cbn [ending].
  - now exists l, LF.
  - now exists l, CR.
  - exists (l ++ [CR]), LF. now rewrite <- app_assoc.
Qed.

End Newlines.

(** The lines of [ls] that end in a carriage return and a line feed. *)
Definition crlfs (ls : list (jsstring * Newline)) : nat :=
  List.length (filter (fun p => match snd p with NL_CRLF => true | _ => false end) ls).

Lemma encode_length (ls : list (jsstring * Newline)) :
  jslength (encode ls) = jslength (serialize (map fst ls)) + Z.of_nat (crlfs ls).
Proof.
  induction ls as [|[l nl] ls IH]; [reflexivity|].
  unfold encode, serialize, crlfs in *. cbn [map List.concat filter fst snd].
  rewrite !jslength_app, IH.
  destruct nl; cbn [ending List.length]; unfold jslength; cbn [List.length]; lia.
Qed.

Lemma encode_empty (ls : list (jsstring * Newline)) :
  match encode ls, serialize (map fst ls) with
  | [], [] | _ :: _, _ :: _ => True
  | _, _ => False
  end.
Proof.
  destruct ls as [|[l nl] ls]; [exact I|].
  unfold encode, serialize. cbn [map List.concat fst snd].
  destruct l; [destruct nl|]; exact I.
Qed.

(** X12: a line may end in a line feed, a carriage return or both, and it
    makes no difference which: a text whose lines have endings of any of
    the three kinds gives the same log (the same records, in order, and the
    same timer effects) and leaves the same variables as the same lines
    ended by line feeds, with these exceptions: the line state (whether the
    last character was a carriage return), the offsets into the chunk, the
    time at which a pending timer was armed (its delay is the same), and
    the count of characters received, which is larger by one for every line
    ended by a carriage return and a line feed.  The text buffer is empty
    and the time of the last activity is the same in both.  Only an empty
    line ended by a line feed right after a line ended by a carriage return
    is left out: the two characters are one ending. *)
Theorem line_endings_are_interchangeable (closes : list Entry -> bool) (now : Z)
  (ls : list (jsstring * Newline)) (s : EventSource) :
  currentState s = OPEN -> state s = FIELD_START -> textBuffer s = [] ->
  Forall (fun p => no_terminator (fst p)) ls -> unambiguous false ls ->
  set_state FIELD_START (core (onProgress closes now (encode ls) s))
  = set_state FIELD_START (core (onProgress closes now (serialize (map fst ls)) s))
  /\ textBuffer (onProgress closes now (encode ls) s) = []
  /\ textBuffer (onProgress closes now (serialize (map fst ls)) s) = []
  /\ wasActivity (onProgress closes now (encode ls) s)
     = wasActivity (onProgress closes now (serialize (map fst ls)) s)
  /\ option_map delay (timeout (onProgress closes now (encode ls) s))
     = option_map delay (timeout (onProgress closes now (serialize (map fst ls)) s))
  /\ textLength (onProgress closes now (encode ls) s)
     = textLength (onProgress closes now (serialize (map fst ls)) s) + Z.of_nat (crlfs ls).
Proof.
  intros Hopen Hs Htb Hno Hu.
  assert (Hnt : no_terminator (textBuffer s)) by now rewrite Htb.
  destruct (onProgress_lines closes now (encode ls) s Hopen (or_intror Hs) Htb
              (encode_terminated ls)) as [E1 T1].
  destruct (onProgress_lines closes now (serialize (map fst ls)) s Hopen (or_intror Hs) Htb
              (serialize_terminated (map fst ls))) as [E2 T2].
  destruct (onProgress_core closes now (encode ls) s Hopen (or_intror Hs) Hnt)
    as (c1 & t1 & _ & _ & _ & L1 & W1 & _).
  destruct (onProgress_core closes now (serialize (map fst ls)) s Hopen (or_intror Hs) Hnt)
    as (c2 & t2 & _ & _ & _ & L2 & W2 & _).
  assert (Hcore : set_state FIELD_START (core (onProgress closes now (encode ls) s))
                  = set_state FIELD_START
                      (core (onProgress closes now (serialize (map fst ls)) s))).
  { rewrite <- E1, <- E2.
    destruct (line_run_encode closes ls false (core s) (core s))
      as (cr' & a1 & b1 & Ha & Hb & Hab).
    - split; [reflexivity|]. right. split; [exact Hopen|]. split; exact Hs.
    - exact Hno.
    - exact Hu.
    - rewrite Ha, Hb. apply Hab. }
  split; [exact Hcore|]. split; [exact T1|]. split; [exact T2|]. split; [|split].
  - rewrite W1, W2. pose proof (encode_empty ls) as He.
    destruct (encode ls), (serialize (map fst ls)); try contradiction; reflexivity.
  - apply (f_equal timeout) in Hcore.
    change (timeout (set_state FIELD_START (core ?x)))
      with (option_map (fun t => {| armedAt := 0; delay := delay t |}) (timeout x)) in Hcore.
    destruct (timeout (onProgress closes now (encode ls) s)),
             (timeout (onProgress closes now (serialize (map fst ls)) s));
      cbn [option_map] in *; try discriminate Hcore; [|reflexivity].
    injection Hcore as Hd. f_equal. exact Hd.
  - rewrite L1, L2, encode_length. lia.
Qed.

Lemma line_endings_are_interchangeable_witness :
  log (onProgress never 3
         (encode [(str "id: 1", NL_CRLF); (str "data: a", NL_CR); (str "data: b", NL_LF);
                  ([], NL_CRLF); (str "data: c", NL_CR); ([], NL_CR)]) opened)
  = log (onProgress never 3
           (serialize [str "id: 1"; str "data: a"; str "data: b"; []; str "data: c"; []])
           opened)
  /\ textLength (onProgress never 3
                   (encode [(str "id: 1", NL_CRLF); (str "data: a", NL_CR);
                            (str "data: b", NL_LF); ([], NL_CRLF); (str "data: c", NL_CR);
                            ([], NL_CR)]) opened)
     = textLength (onProgress never 3
                     (serialize [str "id: 1"; str "data: a"; str "data: b"; [];
                                 str "data: c"; []]) opened) + 2.
Proof.
  assert (Hopen : currentState opened = OPEN) by (vm_compute; reflexivity).
  assert (Hstate : state opened = FIELD_START) by (vm_compute; reflexivity).
  assert (Htb : textBuffer opened = []) by (vm_compute; reflexivity).
  destruct (line_endings_are_interchangeable never 3
              [(str "id: 1", NL_CRLF); (str "data: a", NL_CR); (str "data: b", NL_LF);
               ([], NL_CRLF); (str "data: c", NL_CR); ([], NL_CR)] opened
              Hopen Hstate Htb) as (H & _ & _ & _ & _ & HL).
  - repeat constructor.
  - cbn [unambiguous is_cr]. repeat split; intros (H1 & H2 & H3); discriminate.
  - split; [exact (f_equal log H)|exact HL].
Defined.

(** * More on the request URL *)

(** X13: the request URL where there is nothing to rewrite.  With an empty
    last event id, or a URL that begins with [data:] or [blob:], the URL is
    requested as it is; a URL without a question mark gets the last event
    id, percent-encoded, as its only parameter, after a question mark. *)
Theorem request_url_plain_cases (url lastEventId : jsstring) :
  (lastEventId = [] \/ inline_scheme url = true -> requestURL url lastEventId = Some url)
  /\ (forall encoded,
         inline_scheme url = false -> ~ In QUESTION url -> lastEventId <> [] ->
         encodeURIComponent lastEventId = Some encoded ->
         requestURL url lastEventId
         = Some (url ++ QUESTION :: lastEventIdQueryParameterName ++ EQUALS :: encoded)).
Proof.
  split.
  - apply requestURL_unchanged.
  - intros encoded. apply requestURL_without_query.
Qed.



(** Whether no surrogate of a string stands alone; [lead] says that the
    code unit before was a lead surrogate. *)
Fixpoint well_formed_after (lead : bool) (s : jsstring) : bool :=
  match s with
  | [] => negb lead
  | c :: rest =>
      if lead then isTrailSurrogate c && well_formed_after false rest
      else if isTrailSurrogate c then false
      else well_formed_after (isLeadSurrogate c) rest
  end.

Definition well_formed (s : jsstring) : bool := well_formed_after false s.

Definition PERCENT : Z := 37.

Definition url_safe (c : Z) : Prop := uriUnescaped c = true \/ c = PERCENT.

Lemma uriUnescaped_not_surrogate (c : Z) :
  uriUnescaped c = true -> isTrailSurrogate c = false /\ isLeadSurrogate c = false.
Proof.
  unfold uriUnescaped, isTrailSurrogate, isLeadSurrogate, isDigit. intros H.
  assert (Hc : c < 55296).
  { repeat (apply orb_true_iff in H; destruct H as [H|H]);
      try (apply andb_true_iff in H; destruct H as [_ H]; apply Z.leb_le in H; lia);
      apply Z.eqb_eq in H; lia. }
  split; apply andb_false_iff; left; apply Z.leb_gt; lia.
Qed.

Lemma hexDigit_safe (n : Z) : 0 <= n < 16 -> uriUnescaped (hexDigit n) = true.
Proof.
  intros H. unfold hexDigit. destruct (Z.ltb_spec n 10).
  - assert (E : isDigit (48 + n) = true)
      by (unfold isDigit; apply andb_true_iff; split; apply Z.leb_le; lia).
    unfold uriUnescaped. rewrite E. now rewrite !orb_true_r.
  - assert (E : (65 <=? 55 + n) && (55 + n <=? 90) = true)
      by (apply andb_true_iff; split; apply Z.leb_le; lia).
    unfold uriUnescaped. now rewrite E.
Qed.

Lemma percent_safe (octet : Z) : 0 <= octet < 256 -> Forall url_safe (percent octet).
Proof.
  intros H. unfold percent.
  apply Forall_cons; [now right|].
  apply Forall_cons.
  { left. apply hexDigit_safe.
    split; [apply Z.div_pos; lia|apply Z.div_lt_upper_bound; lia]. }
  apply Forall_cons; [|apply Forall_nil].
  left. apply hexDigit_safe. apply Z.mod_pos_bound. lia.
Qed.

Lemma escape_safe (cp : Z) :
  0 <= cp < 1114112 -> Forall url_safe (flat_map percent (utf8 cp)).
Proof.
  intros H. pose proof (utf8_octets cp H) as F.
  induction F as [|o os Ho _ IH]; [constructor|].
  cbn [flat_map]. apply Forall_app. split; [now apply percent_safe|exact IH].
Qed.

Lemma encodeURIComponent_safe (n : nat) :
  forall s : jsstring,
    (List.length s <= n)%nat -> Forall code_unit s ->
    match encodeURIComponent s with
    | Some encoded => Forall url_safe encoded /\ well_formed s = true
    | None => well_formed s = false
    end.
Proof.
  induction n as [|n IH]; intros s Hn Hs.
  { destruct s; [|cbn in Hn; lia]. cbn. split; [constructor|reflexivity]. }
  destruct s as [|c s]; [cbn; split; [constructor|reflexivity]|].
  inversion Hs as [|? ? Hc Hs']; subst. unfold code_unit in Hc.
  unfold well_formed in *.
  cbn [encodeURIComponent well_formed_after]. cbn [List.length] in Hn.
  destruct (uriUnescaped c) eqn:Eu.
  { destruct (uriUnescaped_not_surrogate c Eu) as [-> ->].
    specialize (IH s ltac:(lia) Hs').
    destruct (encodeURIComponent s); cbn [option_map]; [|exact IH].
    destruct IH as [IH1 IH2]. split; [|exact IH2]. constructor; [now left|exact IH1]. }
  destruct (isTrailSurrogate c) eqn:Et; [reflexivity|].
  destruct (isLeadSurrogate c) eqn:El.
  - destruct s as [|d s]; [reflexivity|].
    cbn [well_formed_after].
    destruct (isTrailSurrogate d) eqn:Ed; [|reflexivity].
    inversion Hs' as [|? ? Hd Hs'']; subst. cbn [List.length] in Hn.
    unfold code_unit in Hd.
    specialize (IH s ltac:(lia) Hs'').
    destruct (encodeURIComponent s); cbn [option_map andb]; [|exact IH].
    destruct IH as [IH1 IH2]. split; [|exact IH2].
    apply Forall_app. split; [|exact IH1]. apply escape_safe.
    unfold isLeadSurrogate in El. unfold isTrailSurrogate in Ed.
    apply andb_true_iff in El, Ed. destruct El as [E1 E2], Ed as [E3 E4].
    apply Z.leb_le in E1, E2, E3, E4. lia.
  - specialize (IH s ltac:(lia) Hs').
    destruct (encodeURIComponent s); cbn [option_map]; [|exact IH].
    destruct IH as [IH1 IH2]. split; [|exact IH2].
    apply Forall_app. split; [apply escape_safe; lia|exact IH1].
Qed.

Lemma encodeURIComponent_unreserved (s : jsstring) :
  forallb uriUnescaped s = true -> encodeURIComponent s = Some s.
Proof.
  induction s as [|c s IH]; [reflexivity|].
  cbn [forallb encodeURIComponent]. intros H. apply andb_true_iff in H.
  destruct H as [-> H]. now rewrite (IH H).
Qed.

(** X15: the percent-encoding of the last event id (line 446).  For a
    string of 16-bit code units, [encodeURIComponent] fails exactly when a
    surrogate stands alone; otherwise its result holds only unreserved
    characters (letters, digits and [-_.!~*'()]) and [%], so that no
    character of the id can end the parameter or start another one; a
    string of unreserved characters is its own encoding. *)
Theorem encoded_id_is_url_safe (lastEventId : jsstring) :
  Forall code_unit lastEventId ->
  (well_formed lastEventId = true ->
     exists encoded, encodeURIComponent lastEventId = Some encoded
                     /\ Forall url_safe encoded
                     /\ (forallb uriUnescaped lastEventId = true -> encoded = lastEventId))
  /\ (well_formed lastEventId = false -> encodeURIComponent lastEventId = None).
Proof.
  intros Hs.
  pose proof (encodeURIComponent_safe (List.length lastEventId) lastEventId (le_n _) Hs) as H.
  pose proof (encodeURIComponent_unreserved lastEventId) as U.
  destruct (encodeURIComponent lastEventId) as [encoded|].
  - destruct H as [H1 H2]. split.
    + intros _. exists encoded. split; [reflexivity|]. split; [exact H1|].
      intros Hu. specialize (U Hu). now injection U.
    + intros Hw. rewrite Hw in H2. discriminate H2.
  - split; [|reflexivity]. intros Hw. rewrite Hw in H. discriminate H.
Qed.

Lemma encoded_id_is_url_safe_witness :
  (exists encoded,
      encodeURIComponent (str "a&b=c d") = Some encoded
      /\ Forall url_safe encoded
      /\ (forallb uriUnescaped (str "a&b=c d") = true -> encoded = str "a&b=c d"))
  /\ encodeURIComponent [56832; 55357] = None.
Proof.
  assert (H1 : Forall code_unit (str "a&b=c d")) by (repeat constructor; cbn; lia).
  assert (H2 : Forall code_unit [56832; 55357]) by (repeat constructor; cbn; lia).
  split.
  - apply (proj1 (encoded_id_is_url_safe (str "a&b=c d") H1)). vm_compute. reflexivity.
  - apply (proj2 (encoded_id_is_url_safe [56832; 55357] H2)). vm_compute. reflexivity.
Defined.

(** * A stream of messages *)

(** A message as a server writes it: an optional [event] line, an optional
    [id] line, the [data] lines and a blank line. *)
Record Message := {
  m_type : option jsstring;
  m_id : option jsstring;
  m_data : list jsstring
}.

Definition event_line (m : Message) : jsstring :=
  match m_type m with Some t => (str "event: " ++ t) ++ [LF] | None => [] end.

Definition id_line (m : Message) : jsstring :=
  match m_id m with Some i => (str "id: " ++ i) ++ [LF] | None => [] end.

Definition wire (m : Message) : jsstring :=
  event_line m ++ id_line m ++ data_lines (m_data m) ++ [LF].


(** No field of the message holds a line terminator, and there is data. *)
Definition plain (m : Message) : Prop :=
  match m_type m with Some t => no_terminator t | None => True end
  /\ match m_id m with Some i => no_terminator i | None => True end
  /\ Forall no_terminator (m_data m) /\ m_data m <> [].

Definition next_id (id : jsstring) (m : Message) : jsstring :=
  match m_id m with Some i => i | None => id end.

Definition event_type (m : Message) : jsstring :=
  default_type (match m_type m with Some t => t | None => [] end).

Definition event_of (id : jsstring) (m : Message) : Event :=
  MessageEvent (event_type m) (join_lines (m_data m)) (next_id id m).


Lemma wire_terminated (m : Message) : terminated (wire m).
Proof.
  right. unfold wire.
  exists (event_line m ++ id_line m ++ data_lines (m_data m)), LF.
  split; [now rewrite <- !app_assoc|reflexivity].
Qed.


(** The calls of listeners in a piece of the log, in their order: the
    listeners registered for the type of the event ([DispatchEvent]) and the
    handler properties ([Fire]). *)
Definition calls (l : list Entry) : list Effect :=
  flat_map (fun e => match snd e with
                     | DispatchEvent _ | Fire _ _ => [snd e]
                     | _ => []
                     end) l.

Lemma calls_app (l1 l2 : list Entry) : calls (l1 ++ l2) = calls l1 ++ calls l2.
Proof. apply flat_map_app. Qed.

Section RoundTrip.

Variable closes : list Entry -> bool.

Lemma calls_run_listeners (s : EventSource) :
  exists l, log (run_listeners closes s) = log s ++ l /\ calls l = [].
Proof.
  destruct (run_listeners_cases closes s) as [[_ ->]|[_ ->]].
  - exists (closing_log s). split; [reflexivity|].
    unfold closing_log. now destruct (abortController s), (timeout s).
  - exists []. now rewrite app_nil_r.
Qed.

Lemma calls_emit_listeners (e : Effect) (s : EventSource) :
  exists l, log (run_listeners closes (emit e s)) = log s ++ (currentState s, e) :: l
            /\ calls l = [].
Proof.
  destruct (calls_run_listeners (emit e s)) as (l & Hl & Hc).
  exists l. split; [|exact Hc]. rewrite Hl. unfold emit. cbn [log set_log].
  now rewrite <- app_assoc.
Qed.

(** [deliver] calls the listeners of the type, then the handler property of
    the types [open], [message] and [error], whatever the listeners did. *)
Lemma calls_deliver (s : EventSource) :
  exists l,
    log (deliver closes s) = log s ++ l
    /\ calls l
       = DispatchEvent (MessageEvent (eventTypeBuffer s) (slice_from (dataBuffer s) 1)
                          (lastEventIdBuffer s))
         :: match handler_for (eventTypeBuffer s) with
            | Some h => [Fire h (MessageEvent (eventTypeBuffer s)
                                   (slice_from (dataBuffer s) 1) (lastEventIdBuffer s))]
            | None => []
            end.
Proof.
  rewrite deliver_eq. cbv zeta. set (ev := MessageEvent _ _ _).
  unfold dispatchEvent, fire.
  destruct (calls_emit_listeners (DispatchEvent ev) s) as (l1 & H1 & C1).
  destruct (handler_for (eventTypeBuffer s)) as [h|].
  - destruct (calls_emit_listeners (Fire h ev)
                (run_listeners closes (emit (DispatchEvent ev) s))) as (l2 & H2 & C2).
    exists (((currentState s, DispatchEvent ev) :: l1)
            ++ (currentState (run_listeners closes (emit (DispatchEvent ev) s)), Fire h ev)
               :: l2).
    split; [rewrite H2, H1, <- app_assoc; reflexivity|].
    rewrite calls_app. cbn [calls flat_map snd app]. fold (calls l1). fold (calls l2).
    now rewrite C1, C2.
  - exists ((currentState s, DispatchEvent ev) :: l1). split; [exact H1|].
    cbn [calls flat_map snd app]. fold (calls l1). now rewrite C1.
Qed.

Lemma calls_dispatch_point (s : EventSource) :
  dataBuffer s <> [] ->
  exists l,
    log (fst (dispatch_point closes s)) = log s ++ l
    /\ calls l
       = DispatchEvent (MessageEvent (default_type (eventTypeBuffer s))
                          (slice_from (dataBuffer s) 1) (lastEventIdBuffer s))
         :: match handler_for (default_type (eventTypeBuffer s)) with
            | Some h => [Fire h (MessageEvent (default_type (eventTypeBuffer s))
                                   (slice_from (dataBuffer s) 1) (lastEventIdBuffer s))]
            | None => []
            end.
Proof.
  intros Hd. unfold dispatch_point. destruct (dataBuffer s) as [|d ds] eqn:E; [contradiction|].
  cbv zeta.
  match goal with |- context [deliver closes ?x] => set (x0 := x) end.
  assert (Hx : eventTypeBuffer x0 = default_type (eventTypeBuffer s)
               /\ dataBuffer x0 = d :: ds /\ lastEventIdBuffer x0 = lastEventIdBuffer s
               /\ log x0 = log s)
    by (subst x0; cbn [eventTypeBuffer set_lastEventId];
        destruct (eventTypeBuffer s) eqn:Et;
        (split; [first [reflexivity|exact Et]|]; split; [exact E|]; split; reflexivity)).
  destruct Hx as (Ht & Hdb & Hi & Hl).
  destruct (calls_deliver x0) as (l & H1 & H2).
  rewrite Ht, Hdb, Hi, Hl in *.
  exists l. split; [|exact H2].
  destruct (currentState (deliver closes x0)); exact H1.
Qed.

Lemma line_run_event_line (t : jsstring) (a : EventSource) :
  no_terminator t -> currentState a = OPEN ->
  line_run closes ((str "event: " ++ t) ++ [LF]) (a, [])
  = (set_state FIELD_START (set_eventTypeBuffer t a), []).
Proof.
  intros Ht Ha.
  change (str "event: " ++ t) with (str "event" ++ COLON :: SPACE :: t).
  rewrite line_run_field;
    [|apply no_terminator_app; split; [reflexivity|exact Ht]|discriminate|exact Ha].
  destruct (field_value_of (str "event") t eq_refl) as [-> ->]. reflexivity.
Qed.

Lemma line_run_id_line (i : jsstring) (a : EventSource) :
  no_terminator i -> currentState a = OPEN ->
  line_run closes ((str "id: " ++ i) ++ [LF]) (a, [])
  = (set_state FIELD_START (set_lastEventIdBuffer i a), []).
Proof.
  intros Hi Ha.
  change (str "id: " ++ i) with (str "id" ++ COLON :: SPACE :: i).
  rewrite line_run_field;
    [|apply no_terminator_app; split; [reflexivity|exact Hi]|discriminate|exact Ha].
  destruct (field_value_of (str "id") i eq_refl) as [-> ->]. reflexivity.
Qed.

(** One message, from the start of a line with no data and no event type
    pending. *)
Lemma line_run_wire (m : Message) (a : EventSource) :
  currentState a = OPEN -> dataBuffer a = [] -> eventTypeBuffer a = [] -> plain m ->
  exists a' l,
    line_run closes (wire m) (a, []) = (a', [])
    /\ log a' = log a ++ (OPEN, DispatchEvent (event_of (lastEventIdBuffer a) m)) :: l
    /\ records l = []
    /\ (currentState a' = CLOSED
        \/ (currentState a' = OPEN /\ state a' = FIELD_START /\ dataBuffer a' = []
            /\ eventTypeBuffer a' = []
            /\ lastEventIdBuffer a' = next_id (lastEventIdBuffer a) m))
    /\ calls l = match handler_for (event_type m) with
                 | Some h => [Fire h (event_of (lastEventIdBuffer a) m)]
                 | None => []
                 end.
Proof.
  intros Ha Hd He (Ht & Hi & Hv & Hne).
  unfold wire, event_of, event_type, next_id.
  set (a1 := match m_type m with
             | Some t => set_state FIELD_START (set_eventTypeBuffer t a)
             | None => a
             end).
  assert (H1 : line_run closes (event_line m) (a, []) = (a1, [])).
  { subst a1. unfold event_line.
    destruct (m_type m) as [t|]; [|reflexivity]. now apply line_run_event_line. }
  assert (Ha1 : currentState a1 = OPEN) by (subst a1; now destruct (m_type m)).
  set (a2 := match m_id m with
             | Some i => set_state FIELD_START (set_lastEventIdBuffer i a1)
             | None => a1
             end).
  assert (H2 : line_run closes (id_line m) (a1, []) = (a2, [])).
  { subst a2. unfold id_line.
    destruct (m_id m) as [i|]; [|reflexivity]. now apply line_run_id_line. }
  assert (Ha2 : currentState a2 = OPEN) by (subst a2; now destruct (m_id m)).
  assert (Hd2 : dataBuffer a2 = [])
    by (subst a2 a1; destruct (m_id m), (m_type m); exact Hd).
  assert (He2 : eventTypeBuffer a2 = match m_type m with Some t => t | None => [] end)
    by (subst a2 a1; destruct (m_id m), (m_type m); try reflexivity; exact He).
  assert (Hi2 : lastEventIdBuffer a2
                = match m_id m with Some i => i | None => lastEventIdBuffer a end)
    by (subst a2 a1; destruct (m_id m), (m_type m); reflexivity).
  assert (Hl2 : log a2 = log a) by (subst a2 a1; destruct (m_id m), (m_type m); reflexivity).
  pose proof (line_run_data_lines closes (m_data m) a2 Ha2 Hv) as H3.
  rewrite Hd2 in H3. cbn [app] in H3. rewrite concat_cons_join in H3 by exact Hne.
  set (a3 := set_state FIELD_START (set_dataBuffer (LF :: join_lines (m_data m)) a2)).
  assert (H3' : line_run closes (data_lines (m_data m)) (a2, []) = (a3, []))
    by (rewrite H3; destruct (m_data m); [contradiction|reflexivity]).
  assert (Ha3 : currentState a3 = OPEN) by exact Ha2.
  rewrite !line_run_app, H1, H2, H3', line_run_blank by (exact Ha3 || reflexivity).
  destruct (dispatch_point_spec closes a3 Ha3) as (_ & Hret & Hrec).
  pose proof (dispatch_point_frame closes a3) as (_ & _ & _ & Hid & _).
  destruct (calls_dispatch_point a3) as (l' & Hl' & Hc'); [discriminate|].
  change (dataBuffer a3) with (LF :: join_lines (m_data m)) in Hrec, Hc'.
  change (eventTypeBuffer a3) with (eventTypeBuffer a2) in Hrec, Hc'.
  change (lastEventIdBuffer a3) with (lastEventIdBuffer a2) in Hrec, Hid, Hc'.
  change (log a3) with (log a2) in Hrec, Hl'.
  rewrite slice_from_1, He2, Hi2, Hl2 in Hrec. rewrite Hi2 in Hid.
  rewrite slice_from_1, He2, Hi2 in Hc'. rewrite Hl2 in Hl'.
  destruct Hrec as (_ & l & Hl & Hr).
  assert (Hcalls : calls l = match handler_for
                                     (default_type match m_type m with
                                                   | Some t => t
                                                   | None => []
                                                   end) with
                             | Some h =>
                                 [Fire h (MessageEvent
                                            (default_type match m_type m with
                                                          | Some t => t
                                                          | None => []
                                                          end)
                                            (join_lines (m_data m))
                                            match m_id m with
                                            | Some i => i
                                            | None => lastEventIdBuffer a
                                            end)]
                             | None => []
                             end).
  { rewrite Hl in Hl'. apply app_inv_head in Hl'. subst l'.
    cbn [calls flat_map snd app] in Hc'. fold (calls l) in Hc'. now injection Hc'. }
  destruct (dispatch_point closes a3) as [a' ret]. cbn [fst snd] in *.
  destruct ret.
  - exists a', l. split; [reflexivity|]. split; [exact Hl|]. split; [exact Hr|].
    split; [now left|exact Hcalls].
  - exists (set_state FIELD_START a'), l. split; [reflexivity|].
    split; [exact Hl|]. split; [exact Hr|]. split; [|exact Hcalls]. right.
    destruct Hret as (Ho & Hdb & Het). now repeat split.
Qed.


End RoundTrip.





(** X17: the handler properties.  The event of a message first goes to the
    listeners registered for its type and then, if the type is [open],
    [message] or [error], to the handler property [onopen], [onmessage] or
    [onerror]: the same event object, whether or not a listener has closed
    the connection in between.  An event of any other type reaches no
    handler property, and nothing else is called. *)
Theorem handler_property_follows_listeners (closes : list Entry -> bool) (now : Z)
  (m : Message) (s : EventSource) :
  currentState s = OPEN -> at_line_start s -> textBuffer s = [] ->
  dataBuffer s = [] -> eventTypeBuffer s = [] -> plain m ->
  exists l,
    log (onProgress closes now (wire m) s) = log s ++ l
    /\ calls l
       = DispatchEvent (event_of (lastEventIdBuffer s) m)
         :: (if str_eqb (event_type m) (str "open")
             then [Fire onopen (event_of (lastEventIdBuffer s) m)]
             else if str_eqb (event_type m) (str "message")
             then [Fire onmessage (event_of (lastEventIdBuffer s) m)]
             else if str_eqb (event_type m) (str "error")
             then [Fire onerror (event_of (lastEventIdBuffer s) m)]
             else []).
Proof.
  intros Hopen Hs Htb Hd He Hp.
  destruct (onProgress_lines closes now (wire m) s Hopen Hs Htb (wire_terminated m))
    as [Hc _].
  destruct (line_run_wire closes m (core s) Hopen Hd He Hp)
    as (a' & l & Hrun & Hl & _ & _ & Hcalls).
  rewrite Hrun in Hc. cbn [fst] in Hc. subst a'.
  exists ((OPEN, DispatchEvent (event_of (lastEventIdBuffer s) m)) :: l).
  split; [exact Hl|].
  cbn [calls flat_map snd app]. fold (calls l). rewrite Hcalls.
  unfold handler_for.
  destruct (str_eqb (event_type m) (str "open")); [reflexivity|].
  destruct (str_eqb (event_type m) (str "message")); [reflexivity|].
  destruct (str_eqb (event_type m) (str "error")); reflexivity.
Qed.

Definition error_message : Message :=
  {| m_type := Some (str "error"); m_id := None; m_data := [str "boom"] |}.

Lemma handler_property_follows_listeners_witness :
  exists l,
    log (onProgress always 2 (wire error_message) opened) = log opened ++ l
    /\ calls l = [DispatchEvent (MessageEvent (str "error") (str "boom") []);
                  Fire onerror (MessageEvent (str "error") (str "boom") [])].
Proof.
  apply (handler_property_follows_listeners always 2 error_message opened);
    [reflexivity|now right|reflexivity|reflexivity|reflexivity|].
  repeat split; try exact I; [repeat constructor|discriminate].
Defined.

(** * A response that opens the connection *)

Definition SEMICOLON : Z := 59.

(** What [contentTypeRegExp] accepts: [text/event-stream] in any letter
    case, alone or followed by a semicolon and characters that are not line
    terminators. *)
Definition event_stream (contentType : jsstring) : Prop :=
  exists media params,
    contentType = media ++ params
    /\ map lower media = str "text/event-stream"
    /\ (params = []
        \/ exists p, params = SEMICOLON :: p
                     /\ forallb (fun x => negb (isLineTerminator x)) p = true).

Definition conforming (status : Z) (contentType : option jsstring) : Prop :=
  status = 200 /\ exists ct, contentType = Some ct /\ event_stream ct.

Lemma starts_with_ci_spec (pat : jsstring) :
  forall s rest : jsstring,
    starts_with_ci pat s = Some rest <-> exists m, s = m ++ rest /\ map lower m = pat.
Proof.
  induction pat as [|p pat IH]; intros s rest.
  - cbn [starts_with_ci]. split.
    + intros H. injection H as <-. now exists [].
    + intros (m & -> & Hm). apply map_eq_nil in Hm. now subst m.
  - destruct s as [|c s]; cbn [starts_with_ci].
    + split; [discriminate|]. intros (m & E & Hm).
      destruct m; [discriminate Hm|discriminate E].
    + destruct (Z.eqb_spec (lower c) p) as [Ec|Ec].
      * rewrite IH. split.
        -- intros (m & -> & Hm). exists (c :: m). split; [reflexivity|].
           cbn [map]. now rewrite Ec, Hm.
        -- intros (m & E & Hm). destruct m as [|c' m]; [discriminate Hm|].
           cbn [map] in Hm. injection Hm as _ Hm. injection E as _ E. now exists m.
      * split; [discriminate|]. intros (m & E & Hm).
        destruct m as [|c' m]; [discriminate Hm|].
        cbn [map] in Hm. injection Hm as Hc _. injection E as -> _. contradiction.
Qed.

Lemma contentTypeRegExp_test_spec (contentType : jsstring) :
  contentTypeRegExp_test contentType = true <-> event_stream contentType.
Proof.
  unfold contentTypeRegExp_test, event_stream. split.
  - destruct (starts_with_ci (str "text/event-stream") contentType) as [rest|] eqn:E;
      [|discriminate].
    apply starts_with_ci_spec in E. destruct E as (m & -> & Hm).
    destruct rest as [|c params].
    + intros _. exists m, []. split; [reflexivity|]. split; [exact Hm|now left].
    + intros H. apply andb_true_iff in H. destruct H as [Hc Hp].
      apply Z.eqb_eq in Hc. subst c.
      exists m, (SEMICOLON :: params). split; [reflexivity|]. split; [exact Hm|].
      right. now exists params.
  - intros (m & params & -> & Hm & Hp).
    assert (E : starts_with_ci (str "text/event-stream") (m ++ params) = Some params)
      by (apply starts_with_ci_spec; now exists m).
    rewrite E. destruct Hp as [->|(p & -> & Hp)]; [reflexivity|].
    unfold SEMICOLON. now rewrite Z.eqb_refl.
Qed.

Lemma conforming_spec (status : Z) (contentType : option jsstring) :
  (status =? 200)
  && match contentType with Some ct => contentTypeRegExp_test ct | None => false end = true
  <-> conforming status contentType.
Proof.
  unfold conforming. rewrite andb_true_iff, Z.eqb_eq. split.
  - intros [Hs Hc]. split; [exact Hs|]. destruct contentType as [ct|]; [|discriminate].
    exists ct. split; [reflexivity|]. now apply contentTypeRegExp_test_spec.
  - intros [Hs (ct & -> & Hc)]. split; [exact Hs|]. now apply contentTypeRegExp_test_spec.
Qed.

(** X18: which response opens the connection, and what opening does.  In
    the Connecting state the connection opens exactly for a response with
    status 200 and a content type that is [text/event-stream] in any letter
    case, alone or followed by a semicolon and parameters without a line
    terminator.  Opening resets the retry delay to the initial one, records
    the time of the response as the last activity, and hands one [open]
    event with the status, the status text as received and the headers to
    the listeners and then to [onopen]; the connection is Open afterwards
    unless one of them closed it. *)
Theorem response_opens_connection (closes : list Entry -> bool) (now status : Z)
  (statusText : jsstring) (contentType : option jsstring) (responseHeaders : Headers)
  (s : EventSource) :
  currentState s = CONNECTING ->
  let event := ConnectionEvent (str "open") status statusText responseHeaders in
  let s' := onStart closes now status statusText contentType responseHeaders s in
  (conforming status contentType ->
     (exists l, log s' = log s ++ (OPEN, DispatchEvent event) :: l
                /\ calls l = [Fire onopen event])
     /\ retry s' = initialRetry s /\ wasActivity s' = Some now
     /\ ((currentState s' = OPEN /\ readyState s' = OPEN) \/ is_closed s'))
  /\ (currentState s' = OPEN -> conforming status contentType).
Proof.
  intros Hc event s'. subst s'. split.
  - intros Hok. apply conforming_spec in Hok. unfold onStart. rewrite Hc, Hok. fold event.
    set (s1 := set_readyState OPEN
                 (set_retry (initialRetry (set_wasActivity (Some now) (set_currentState OPEN s)))
                    (set_wasActivity (Some now) (set_currentState OPEN s)))).
    assert (H1 : log s1 = log s /\ currentState s1 = OPEN /\ readyState s1 = OPEN
                 /\ retry s1 = initialRetry s /\ wasActivity s1 = Some now)
      by (subst s1; repeat split).
    destruct H1 as (Hl1 & Ho1 & Hr1 & Hre1 & Hw1).
    unfold dispatchEvent, fire.
    destruct (calls_emit_listeners closes (DispatchEvent event) s1) as (l1 & L1 & C1).
    destruct (calls_emit_listeners closes (Fire onopen event)
                (run_listeners closes (emit (DispatchEvent event) s1))) as (l2 & L2 & C2).
    assert (Hlis : listened s1 (fire closes onopen event (dispatchEvent closes event s1)))
      by (eapply listened_trans; [apply listened_dispatchEvent|apply listened_fire]).
    unfold dispatchEvent, fire in Hlis.
    split; [|].
    + exists (l1 ++ (currentState (run_listeners closes (emit (DispatchEvent event) s1)),
                     Fire onopen event) :: l2).
      split.
      * rewrite L2, L1, Hl1, Ho1, <- app_assoc. reflexivity.
      * rewrite calls_app. cbn [calls flat_map snd app]. fold (calls l2).
        now rewrite C1, C2.
    + destruct Hlis as (l & _ & [-> | [-> _]]).
      * split; [exact Hre1|]. split; [exact Hw1|]. left. now split.
      * split; [exact Hre1|]. split; [exact Hw1|]. right. now repeat split.
  - intros Ho. apply conforming_spec.
    destruct ((status =? 200)
              && match contentType with
                 | Some ct => contentTypeRegExp_test ct
                 | None => false
                 end) eqn:E; [reflexivity|].
    exfalso. rewrite (onStart_rejected closes now status statusText contentType
                        responseHeaders s Hc E) in Ho.
    set (ev := rejection_event status statusText responseHeaders) in Ho.
    assert (Hlis : listened (emit GlobalClose s)
                     (fire closes onerror ev (dispatchEvent closes ev (emit GlobalClose s))))
      by (eapply listened_trans; [apply listened_dispatchEvent|apply listened_fire]).
    apply listened_state in Hlis.
    change (currentState (emit ?e ?x)) with (currentState x) in Ho.
    change (currentState (emit GlobalClose s)) with (currentState s) in Hlis.
    rewrite Hc in Hlis. destruct Hlis as [H|H]; rewrite H in Ho; discriminate Ho.
Qed.

Lemma response_opens_connection_witness :
  (exists l,
      log (onStart never 1 200 (str "OK") (Some (str "Text/Event-Stream; charset=utf-8")) []
             connecting)
      = log connecting
        ++ (OPEN, DispatchEvent (ConnectionEvent (str "open") 200 (str "OK") [])) :: l
      /\ calls l = [Fire onopen (ConnectionEvent (str "open") 200 (str "OK") [])])
  /\ ~ conforming 200 (Some (str "text/event-streams")).
Proof.
  split.
  - apply (response_opens_connection never 1 200 (str "OK")
             (Some (str "Text/Event-Stream; charset=utf-8")) [] connecting eq_refl).
    apply conforming_spec. vm_compute. reflexivity.
  - intros H. apply conforming_spec in H. vm_compute in H. discriminate H.
Defined.

(** * The request headers *)

(** The value the caller gave for [name]: that of the last entry of that
    name. *)
Fixpoint given (name : jsstring) (hs : Headers) : option jsstring :=
  match hs with
  | [] => None
  | (n, v) :: hs' =>
      match given name hs' with
      | Some x => Some x
      | None => if str_eqb n name then Some v else None
      end
  end.

Lemma str_eqb_cases (a b : jsstring) :
  (a = b /\ str_eqb a b = true) \/ (a <> b /\ str_eqb a b = false).
Proof.
  destruct (str_eqb a b) eqn:E; [left|right]; split; trivial.
  - now apply str_eqb_eq.
  - intros H. apply str_eqb_eq in H. rewrite H in E. discriminate E.
Qed.

Lemma own_property_names (name : jsstring) (h : Headers) :
  own_property name h = None <-> ~ In name (map fst h).
Proof.
  induction h as [|[n v] h IH]; cbn [own_property map fst In]; [tauto|].
  destruct (str_eqb_cases n name) as [[-> ->]|[Hn ->]].
  - split; [discriminate|]. intros H. exfalso. apply H. now left.
  - rewrite IH. tauto.
Qed.

Lemma own_property_replace (name n v : jsstring) (h : Headers) :
  own_property n h <> None ->
  own_property name (replace_value n v h)
  = if str_eqb n name then Some v else own_property name h.
Proof.
  induction h as [|[n0 v0] h IH]; intros Hn; [contradiction|].
  cbn [replace_value own_property] in *.
  destruct (str_eqb_cases n0 n) as [[-> E]|[Hne E]]; rewrite E in *; cbn [own_property].
  - now destruct (str_eqb n name).
  - rewrite (IH Hn).
    destruct (str_eqb_cases n0 name) as [[-> ->]|[_ ->]]; [|reflexivity].
    destruct (str_eqb_cases n name) as [[-> _]|[_ ->]]; [contradiction|reflexivity].
Qed.

Lemma names_replace (n v : jsstring) (h : Headers) :
  map fst (replace_value n v h) = map fst h.
Proof.
  induction h as [|[n0 v0] h IH]; [reflexivity|].
  cbn [replace_value]. destruct (str_eqb n0 n); cbn [map fst]; [reflexivity|].
  now rewrite IH.
Qed.

Lemma own_property_insert (i : Z) (name n v : jsstring) (h : Headers) :
  own_property n h = None ->
  own_property name (insert_index i n v h)
  = if str_eqb n name then Some v else own_property name h.
Proof.
  induction h as [|[n0 v0] h IH]; intros Hn; [reflexivity|].
  cbn [insert_index own_property] in *.
  destruct (str_eqb_cases n0 n) as [[-> E]|[Hne E]]; rewrite E in Hn; [discriminate Hn|].
  destruct (array_index n0) as [j|]; [destruct (j <? i)|]; cbn [own_property];
    try reflexivity.
  rewrite (IH Hn).
  destruct (str_eqb_cases n0 name) as [[-> ->]|[_ ->]]; [|reflexivity].
  destruct (str_eqb_cases n name) as [[-> _]|[_ ->]]; [contradiction|reflexivity].
Qed.

Lemma names_insert (i : Z) (n v : jsstring) (h : Headers) :
  forall x, In x (map fst (insert_index i n v h)) <-> x = n \/ In x (map fst h).
Proof.
  induction h as [|[n0 v0] h IH]; intros x.
  - cbn. intuition.
  - cbn [insert_index]. destruct (array_index n0) as [j|]; [destruct (j <? i)|];
      cbn [map fst In]; [rewrite IH| |]; intuition.
Qed.

Lemma NoDup_insert (i : Z) (n v : jsstring) (h : Headers) :
  ~ In n (map fst h) -> NoDup (map fst h) -> NoDup (map fst (insert_index i n v h)).
Proof.
  induction h as [|[n0 v0] h IH]; intros Hn H.
  - cbn. constructor; [intros []|constructor].
  - cbn [insert_index]. inversion H as [|? ? Hn0 Hh]; subst.
    cbn [map fst In] in Hn.
    destruct (array_index n0) as [j|]; [destruct (j <? i)|]; cbn [map fst];
      try (constructor; [exact Hn|exact H]).
    constructor; [|apply IH; tauto].
    rewrite names_insert. intros [E|E]; [|contradiction]. apply Hn. now left.
Qed.

Lemma NoDup_snoc (l : list jsstring) (x : jsstring) :
  ~ In x l -> NoDup l -> NoDup (l ++ [x]).
Proof.
  induction l as [|y l IH]; intros Hx H; cbn [app].
  - constructor; [intros []|constructor].
  - inversion H as [|? ? Hy Hl]; subst. constructor.
    + intros Hin. apply in_app_or in Hin. destruct Hin as [Hin|[->|[]]]; [contradiction|].
      apply Hx. now left.
    + apply IH; [|exact Hl]. intros Hin. apply Hx. now right.
Qed.

Lemma own_property_append (name n v : jsstring) (h : Headers) :
  own_property n h = None ->
  own_property name (h ++ [(n, v)])
  = if str_eqb n name then Some v else own_property name h.
Proof.
  induction h as [|[n0 v0] h IH]; intros Hn; [reflexivity|].
  cbn [app own_property] in *.
  destruct (str_eqb_cases n0 n) as [[-> E]|[Hne E]]; rewrite E in Hn; [discriminate Hn|].
  rewrite (IH Hn).
  destruct (str_eqb_cases n0 name) as [[-> ->]|[_ ->]]; [|reflexivity].
  destruct (str_eqb_cases n name) as [[-> _]|[_ ->]]; [contradiction|reflexivity].
Qed.

Lemma own_property_assign (name n v : jsstring) (h : Headers) :
  own_property name (assign n v h)
  = if str_eqb n (str "__proto__") then own_property name h
    else if str_eqb n name then Some v else own_property name h.
Proof.
  unfold assign. destruct (str_eqb n (str "__proto__")); [reflexivity|].
  destruct (own_property n h) eqn:E.
  - apply own_property_replace. now rewrite E.
  - destruct (array_index n); [now apply own_property_insert|now apply own_property_append].
Qed.

Lemma NoDup_assign (n v : jsstring) (h : Headers) :
  NoDup (map fst h) -> NoDup (map fst (assign n v h)).
Proof.
  intros H. unfold assign. destruct (str_eqb n (str "__proto__")); [exact H|].
  destruct (own_property n h) eqn:E.
  - now rewrite names_replace.
  - apply own_property_names in E. destruct (array_index n).
    + now apply NoDup_insert.
    + rewrite map_app. cbn [map fst]. now apply NoDup_snoc.
Qed.

Lemma fold_assign (hs : Headers) :
  forall acc : Headers,
    NoDup (map fst acc) ->
    let r := fold_left (fun h nv => assign (fst nv) (snd nv) h) hs acc in
    NoDup (map fst r)
    /\ forall name,
        own_property name r
        = if str_eqb name (str "__proto__") then own_property name acc
          else match given name hs with Some v => Some v | None => own_property name acc end.
Proof.
  induction hs as [|[n v] hs IH]; intros acc Hacc r; subst r.
  - split; [exact Hacc|]. intros name. now destruct (str_eqb name (str "__proto__")).
  - cbn [fold_left fst snd].
    destruct (IH (assign n v acc) (NoDup_assign n v acc Hacc)) as [H1 H2].
    split; [exact H1|]. intros name. rewrite H2, own_property_assign. cbn [given].
    destruct (str_eqb_cases name (str "__proto__")) as [[-> _]|[Hp ->]].
    + destruct (str_eqb_cases n (str "__proto__")) as [[_ ->]|[_ ->]]; reflexivity.
    + destruct (given name hs); [reflexivity|].
      destruct (str_eqb_cases n (str "__proto__")) as [[-> ->]|[_ ->]];
        [|now destruct (str_eqb n name)].
      destruct (str_eqb_cases (str "__proto__") name) as [[<- _]|[_ ->]];
        [contradiction|reflexivity].
Qed.

(** X19: the headers of the request.  Every header the caller gave is an
    own property of the headers object with the caller's value (the last
    one, if a name comes twice), except a header named [__proto__], which is
    never stored; [Accept] is [text/event-stream] unless the caller gave
    one; the object has no other own property and no name twice. *)
Theorem request_headers_lookup (headers : Headers) (name : jsstring) :
  own_property name (requestHeaders headers)
  = (if str_eqb name (str "__proto__") then None
     else match given name headers with
          | Some v => Some v
          | None =>
              if str_eqb (str "Accept") name then Some (str "text/event-stream") else None
          end)
  /\ NoDup (map fst (requestHeaders headers)).
Proof.
  unfold requestHeaders.
  destruct (fold_assign headers [(str "Accept", str "text/event-stream")]) as [H1 H2].
  { cbn. constructor; [intros []|constructor]. }
  split; [|exact H1]. rewrite H2.
  destruct (str_eqb_cases name (str "__proto__")) as [[-> _]|[_ ->]]; reflexivity.
Qed.

(** An object with array indices, a name with a leading zero, [__proto__]
    and an [Accept] of the caller. *)
Lemma requestHeaders_example :
  requestHeaders [(str "X-Token", str "t"); (str "__proto__", str "p"); (str "10", str "u");
                  (str "Accept", str "a/b"); (str "7", str "s"); (str "07", str "z")]
  = [(str "7", str "s"); (str "10", str "u"); (str "Accept", str "a/b");
     (str "X-Token", str "t"); (str "07", str "z")].
Proof. reflexivity. Qed.

(** * The retry delay of an open connection *)

(** While the connection is open, no backoff is pending. *)
Definition level (s : EventSource) : Prop :=
  currentState s = OPEN -> retry s = initialRetry s.

Section Level.

Variable closes : list Entry -> bool.
Variable cfg : Config.

Lemma level_listened (s s' : EventSource) : listened s s' -> level s -> level s'.
Proof.
  intros (l & _ & [-> | [-> _]]) H; [exact H|]. intros Hc. discriminate Hc.
Qed.

Lemma process_field_level (now : Z) (f v : jsstring) (s : EventSource) :
  level s -> level (process_field now f v s).
Proof.
  intros H. unfold process_field.
  destruct (str_eqb f (str "data")); [exact H|].
  destruct (str_eqb f (str "id")); [exact H|].
  destruct (str_eqb f (str "event")); [exact H|].
  destruct (str_eqb f (str "retry")); [intros _; reflexivity|].
  destruct (str_eqb f (str "heartbeatTimeout")); [|exact H].
  cbv zeta. set (s1 := set_heartbeatTimeout _ s).
  change (timeout s1) with (timeout s). destruct (timeout s); exact H.
Qed.

Lemma dispatch_point_level (s : EventSource) :
  level s -> level (fst (dispatch_point closes s)).
Proof.
  intros H Ho.
  destruct (dispatch_point_frame closes s) as (_ & _ & _ & _ & Hr & Hi & _).
  rewrite Hr, Hi. apply H.
  revert Ho. unfold dispatch_point. destruct (dataBuffer s); [trivial|]. cbv zeta.
  match goal with |- context [deliver closes ?x] => set (x0 := x) end.
  assert (H0 : currentState x0 = currentState s)
    by (subst x0; cbn [eventTypeBuffer set_lastEventId]; now destruct (eventTypeBuffer s)).
  clearbody x0.
  destruct (listened_state _ _ (listened_deliver closes x0)) as [E|E];
    destruct (currentState (deliver closes x0)) eqn:D; cbn [fst]; intros Ho;
    change (currentState (deliver closes x0) = OPEN) in Ho; congruence.
Qed.

Lemma parse_op_level (now : Z) (s s' : EventSource) :
  parse_op closes now s s' -> level s -> level s'.
Proof.
  induction 1 as [s|s1 s2 s3 _ IH1 _ IH2|v s|v s|v s|f v s|s]; intros H; auto.
  - now apply process_field_level.
  - now apply dispatch_point_level.
Qed.

Lemma onFinish_not_open (now : Z) (error : option JsError) (s : EventSource) :
  currentState (onFinish closes now error s) <> OPEN.
Proof.
  assert (G : currentState s = OPEN \/ currentState s = CONNECTING ->
              currentState (onFinish closes now error s) <> OPEN).
  { intros Ho. destruct (onFinish_backoff closes now error s Ho) as (_ & _ & _ & Hs).
    cbv zeta in Hs. destruct Hs as [[-> _]|[-> _]]; discriminate. }
  destruct (currentState s) eqn:E; try solve [apply G; auto];
    unfold onFinish; rewrite E; rewrite E; discriminate.
Qed.

Lemma level_onStart (now status : Z) (statusText : jsstring) (contentType : option jsstring)
  (responseHeaders : Headers) (s : EventSource) :
  level s -> level (onStart closes now status statusText contentType responseHeaders s).
Proof.
  intros H. unfold onStart. destruct (currentState s) eqn:E; try exact H.
  match goal with |- context [if ?b then _ else _] => destruct b end; cbv zeta.
  - eapply level_listened;
      [eapply listened_trans; [apply listened_dispatchEvent|apply listened_fire]|].
    intros _. reflexivity.
  - intros Ho. exfalso.
    match type of Ho with
    | currentState (emit ?e (fire _ ?h ?ev (dispatchEvent _ _ ?x))) = _ =>
        assert (L : listened x (fire closes h ev (dispatchEvent closes ev x)))
          by (eapply listened_trans; [apply listened_dispatchEvent|apply listened_fire])
    end.
    unfold emit at 1 in Ho. cbn [currentState set_log] in Ho.
    destruct (listened_state _ _ L) as [E'|E']; rewrite E' in Ho; [|discriminate Ho].
    cbn in Ho. rewrite E in Ho. discriminate Ho.
Qed.

Lemma level_onProgress (now : Z) (text : jsstring) (s : EventSource) :
  level s -> level (onProgress closes now text s).
Proof.
  intros H. unfold onProgress. destruct (currentState s) eqn:E; try exact H. cbv zeta.
  match goal with
  | |- level (scan closes now ?ch ?x) => set (chunk := ch); set (s0 := x)
  end.
  assert (H0 : level s0) by (subst s0; destruct text; intros _; apply H, E).
  clearbody s0 chunk.
  exact (parse_op_level now s0 _ (scan_from_op closes now chunk chunk 0 s0) H0).
Qed.

Lemma level_onTimeout (now : Z) (s : EventSource) :
  level s -> level (onTimeout closes cfg now s).
Proof.
  intros H.
  assert (G : currentState s <> WAITING -> level (onTimeout closes cfg now s)).
  { intros Hw. destruct (watchdog_stalls s) eqn:W.
    - rewrite (onTimeout_stalled closes cfg now s W). cbv zeta.
      pose proof (onFinish_not_open now (Some (stall_error s)) (set_timeout None s)) as B.
      intros Hc. exfalso. apply B. destruct (abortController _); exact Hc.
    - rewrite onTimeout_rearms by assumption. exact H. }
  destruct (currentState s) eqn:E; try solve [apply G; discriminate].
  unfold onTimeout. change (currentState (set_timeout None s)) with (currentState s).
  rewrite E. cbv zeta.
  match goal with |- context [requestURL ?u ?i] => destruct (requestURL u i) end;
    intros Hc; discriminate Hc.
Qed.

Lemma level_react (sig : Signal) (s : EventSource) :
  level s -> level (react closes cfg sig s).
Proof.
  destruct sig; cbn [react].
  - apply level_onStart.
  - apply level_onProgress.
  - intros _ Hc. exfalso. exact (onFinish_not_open _ _ _ Hc).
  - apply level_onTimeout.
  - intros _ Hc. rewrite close_eq in Hc. discriminate Hc.
Qed.

Lemma level_run (sigs : list Signal) :
  forall s : EventSource, level s -> level (run closes cfg sigs s).
Proof.
  induction sigs as [|sig sigs IH]; intros s H; [exact H|].
  cbn [run fold_left]. apply IH, level_react, H.
Qed.

End Level.

(** X20: an open connection has no backoff pending.  Whatever happened
    before, while the connection is Open the retry delay equals the initial
    delay (opening resets it, and a [retry] field sets both); so when an
    open connection drops, the timer of the next attempt is armed with the
    initial delay, and the delay after that is twice the initial one, capped
    at 18000000 ms. *)
Theorem open_connection_has_no_backoff (closes : list Entry -> bool) (cfg : Config)
  (sigs : list Signal) :
  let s := run closes cfg sigs initial in
  currentState s = OPEN ->
  retry s = initialRetry s
  /\ forall now error,
      let s' := onFinish closes now error s in
      In (WAITING, SetTimeout (initialRetry s)) (log s')
      /\ retry s' = Z.min (2 * initialRetry s) MAXIMUM_DURATION
      /\ ((currentState s' = WAITING
           /\ timeout s' = Some {| armedAt := now; delay := initialRetry s |})
          \/ (currentState s' = CLOSED /\ timeout s' = None)).
Proof.
  intros s Ho.
  assert (Hl : level s) by (apply level_run; intros Hc; discriminate Hc).
  assert (Hs : sound s) by (apply sound_run, sound_initial).
  specialize (Hl Ho). split; [exact Hl|].
  intros now error s'. subst s'.
  destruct (onFinish_backoff closes now error s (or_introl Ho))
    as ((l & Hlog & _) & Hr & _ & Hst).
  cbv zeta in Hst. rewrite Hl in *.
  split; [|split].
  - rewrite Hlog. apply in_or_app. right. apply in_or_app. right. now left.
  - rewrite Hr. destruct Hs as (_ & H1 & _ & _ & H4 & _). rewrite Hl in H4.
    unfold clampDuration, MINIMUM_DURATION, MAXIMUM_DURATION in *. lia.
  - exact Hst.
Qed.

Lemma open_connection_has_no_backoff_witness :
  retry opened = initialRetry opened.
Proof.
  exact (proj1 (open_connection_has_no_backoff never example_config
                  [TimerFires 0; Start 1 200 (str "OK") (Some (str "text/event-stream")) []]
                  eq_refl)).
Defined.

(** * Requests and their aborts *)

Definition is_open (e : Entry) : bool :=
  match snd e with TransportOpen _ _ _ => true | _ => false end.

(** The requests a log holds. *)
Definition opens (l : list Entry) : nat := List.length (filter is_open l).

(** No request is made and no transport handle is lost between [s] and
    [s']: a handle that is given up is aborted. *)
Definition same_transports (s s' : EventSource) : Prop :=
  held s' = held s /\ opens (log s') = opens (log s).

Lemma opens_app (l1 l2 : list Entry) : opens (l1 ++ l2) = (opens l1 + opens l2)%nat.
Proof. unfold opens. now rewrite filter_app, length_app. Qed.

Section Transports.

Variable closes : list Entry -> bool.
Variable cfg : Config.

Lemma same_transports_refl (s : EventSource) : same_transports s s.
Proof. now split. Qed.

Lemma same_transports_trans (s1 s2 s3 : EventSource) :
  same_transports s1 s2 -> same_transports s2 s3 -> same_transports s1 s3.
Proof. intros [H1 H2] [H3 H4]. split; congruence. Qed.

Lemma same_transports_frame (s s' : EventSource) :
  log s' = log s -> abortController s' = abortController s -> same_transports s s'.
Proof. intros Hl Ha. unfold same_transports, held. now rewrite Hl, Ha. Qed.

Lemma same_transports_emit (e : Effect) (s : EventSource) :
  e <> Abort -> is_open (currentState s, e) = false -> same_transports s (emit e s).
Proof.
  intros Ha Ho. split; [now apply held_emit|].
  unfold emit. cbn [log set_log]. rewrite opens_app. unfold opens at 2.
  cbn [filter]. rewrite Ho. cbn. lia.
Qed.

Lemma same_transports_close (s : EventSource) : same_transports s (close s).
Proof.
  split; [apply held_close|]. rewrite close_eq. cbn [log set_log]. rewrite opens_app.
  unfold closing_log. destruct (abortController s), (timeout s); cbn; lia.
Qed.

Lemma same_transports_run_listeners (s : EventSource) :
  same_transports s (run_listeners closes s).
Proof.
  unfold run_listeners.
  destruct (closes (log s)); [apply same_transports_close|apply same_transports_refl].
Qed.

Lemma same_transports_dispatchEvent (e : Event) (s : EventSource) :
  same_transports s (dispatchEvent closes e s).
Proof.
  unfold dispatchEvent. eapply same_transports_trans; [|apply same_transports_run_listeners].
  apply same_transports_emit; [discriminate|reflexivity].
Qed.

Lemma same_transports_fire (h : Handler) (e : Event) (s : EventSource) :
  same_transports s (fire closes h e s).
Proof.
  unfold fire. eapply same_transports_trans; [|apply same_transports_run_listeners].
  apply same_transports_emit; [discriminate|reflexivity].
Qed.

Lemma same_transports_setTimeout (now d : Z) (s : EventSource) :
  same_transports s (setTimeout now d s).
Proof.
  unfold setTimeout. eapply same_transports_trans.
  - apply (same_transports_emit (SetTimeout d)); [discriminate|reflexivity].
  - now apply same_transports_frame.
Qed.

Lemma same_transports_process_field (now : Z) (f v : jsstring) (s : EventSource) :
  same_transports s (process_field now f v s).
Proof.
  unfold process_field.
  do 4 (match goal with
        | |- context [str_eqb f ?b] =>
            destruct (str_eqb f b); [now apply same_transports_frame|]
        end).
  destruct (str_eqb f (str "heartbeatTimeout")); [|apply same_transports_refl].
  cbv zeta. set (s1 := set_heartbeatTimeout _ s).
  assert (H1 : same_transports s s1) by now apply same_transports_frame.
  change (timeout s1) with (timeout s). destruct (timeout s); [|exact H1].
  eapply same_transports_trans; [exact H1|].
  eapply same_transports_trans; [|apply same_transports_setTimeout].
  unfold clearTimeout. apply same_transports_emit; [discriminate|reflexivity].
Qed.

Lemma same_transports_deliver (s : EventSource) : same_transports s (deliver closes s).
Proof.
  rewrite deliver_eq. cbv zeta. destruct (handler_for (eventTypeBuffer s)).
  - eapply same_transports_trans;
      [apply same_transports_dispatchEvent|apply same_transports_fire].
  - apply same_transports_dispatchEvent.
Qed.

Lemma same_transports_dispatch_point (s : EventSource) :
  same_transports s (fst (dispatch_point closes s)).
Proof.
  unfold dispatch_point. destruct (dataBuffer s); [now apply same_transports_frame|].
  cbv zeta.
  match goal with |- context [deliver closes ?x] => set (x0 := x) end.
  assert (H0 : same_transports s x0)
    by (subst x0; cbn [eventTypeBuffer set_lastEventId]; destruct (eventTypeBuffer s);
        now apply same_transports_frame).
  eapply same_transports_trans; [exact H0|].
  eapply same_transports_trans; [apply same_transports_deliver|].
  destruct (currentState (deliver closes x0)); cbn [fst];
    first [apply same_transports_refl|now apply same_transports_frame].
Qed.

Lemma same_transports_parse_op (now : Z) (s s' : EventSource) :
  parse_op closes now s s' -> same_transports s s'.
Proof.
  induction 1 as [s|s1 s2 s3 _ IH1 _ IH2|v s|v s|v s|f v s|s].
  - apply same_transports_refl.
  - eapply same_transports_trans; eassumption.
  - now apply same_transports_frame.
  - now apply same_transports_frame.
  - now apply same_transports_frame.
  - apply same_transports_process_field.
  - apply same_transports_dispatch_point.
Qed.

Lemma same_transports_onStart (now status : Z) (statusText : jsstring)
  (contentType : option jsstring) (responseHeaders : Headers) (s : EventSource) :
  same_transports s (onStart closes now status statusText contentType responseHeaders s).
Proof.
  unfold onStart. destruct (currentState s) eqn:E; try apply same_transports_refl.
  match goal with |- context [if ?b then _ else _] => destruct b end; cbv zeta.
  - eapply same_transports_trans; [|apply same_transports_fire].
    eapply same_transports_trans; [|apply same_transports_dispatchEvent].
    now apply same_transports_frame.
  - eapply same_transports_trans;
      [|apply same_transports_emit; [discriminate|reflexivity]].
    eapply same_transports_trans; [|apply same_transports_fire].
    eapply same_transports_trans; [|apply same_transports_dispatchEvent].
    apply same_transports_emit; [discriminate|reflexivity].
Qed.

Lemma same_transports_onProgress (now : Z) (text : jsstring) (s : EventSource) :
  same_transports s (onProgress closes now text s).
Proof.
  unfold onProgress. destruct (currentState s) eqn:E; try apply same_transports_refl.
  cbv zeta.
  match goal with
  | |- same_transports s (scan closes now ?ch ?x) => set (chunk := ch); set (s0 := x)
  end.
  assert (H0 : same_transports s s0)
    by (subst s0; destruct text; now apply same_transports_frame).
  clearbody s0 chunk. eapply same_transports_trans; [exact H0|].
  exact (same_transports_parse_op now s0 _ (scan_from_op closes now chunk chunk 0 s0)).
Qed.

Lemma same_transports_onFinish (now : Z) (error : option JsError) (s : EventSource) :
  same_transports s (onFinish closes now error s).
Proof.
  split; [apply held_onFinish|].
  destruct (currentState s) eqn:E.
  1, 4: unfold onFinish; rewrite E; reflexivity.
  all: rewrite onFinish_eq by (rewrite E; auto); cbv zeta.
  all: assert (F : opens (log (finished now s)) = opens (log s))
         by (unfold finished; cbn [log set_log set_readyState set_retry set_timeout
                                     set_currentState];
             rewrite !opens_app; destruct (timeout s); cbn; lia).
  all: rewrite <- F.
  all: destruct error;
       [eapply eq_trans;
        [apply (same_transports_emit (ConsoleError (Reported j))); [discriminate|reflexivity]|]|];
       (eapply eq_trans; [apply same_transports_fire|apply same_transports_dispatchEvent]).
Qed.

(** The timer: only a firing in the Waiting state makes a request, and it
    makes one. *)
Lemma onTimeout_transports (now : Z) (s : EventSource) :
  (currentState s <> WAITING -> same_transports s (onTimeout closes cfg now s))
  /\ (currentState s = WAITING ->
      (held (onTimeout closes cfg now s) <= S (held s))%nat
      /\ (requestURL (url cfg) (lastEventId s) <> None ->
          opens (log (onTimeout closes cfg now s)) = S (opens (log s)))
      /\ (requestURL (url cfg) (lastEventId s) = None ->
          same_transports s (onTimeout closes cfg now s))).
Proof.
  split.
  - intros Hw. destruct (watchdog_stalls s) eqn:W.
    + rewrite (onTimeout_stalled closes cfg now s W). cbv zeta.
      set (s1 := onFinish closes now (Some (stall_error s)) (set_timeout None s)).
      assert (H1 : same_transports s s1).
      { eapply same_transports_trans; [|apply same_transports_onFinish].
        now apply same_transports_frame. }
      destruct (abortController s1) eqn:A; [|exact H1].
      eapply same_transports_trans; [exact H1|].
      unfold same_transports, held, emit. cbn [log set_log abortController set_abortController].
      rewrite A, opens_app. unfold aborts. rewrite filter_app, length_app. cbn. lia.
    + rewrite onTimeout_rearms by assumption.
      eapply same_transports_trans; [|apply same_transports_setTimeout].
      now apply same_transports_frame.
  - intros Hw. unfold onTimeout.
    change (currentState (set_timeout None s)) with (currentState s). rewrite Hw. cbv zeta.
    match goal with |- context [setTimeout now ?d ?x] => set (s1 := setTimeout now d x) end.
    assert (H1 : same_transports s s1).
    { subst s1. eapply same_transports_trans; [|apply same_transports_setTimeout].
      now apply same_transports_frame. }
    destruct H1 as [Hh Ho]. unfold held, aborts in Hh.
    match goal with
    | |- context [match requestURL ?u ?i with _ => _ end] =>
        change (requestURL u i) with (requestURL (url cfg) (lastEventId s))
    end.
    clearbody s1.
    destruct (requestURL (url cfg) (lastEventId s)) as [u|];
      unfold same_transports, held, aborts, emit;
      cbn [log set_log abortController set_abortController set_currentState set_dataBuffer
           set_eventTypeBuffer set_lastEventIdBuffer set_textBuffer set_fieldStart
           set_valueStart set_state];
      rewrite filter_app, length_app, opens_app;
      cbn [filter is_abort is_open snd List.length opens Nat.add].
    + split; [destruct (abortController s1); lia|]. split; [intros _; lia|].
      intros H. discriminate H.
    + split; [lia|]. split; [intros H; contradiction|]. intros _. split; lia.
Qed.

Definition accounted (s : EventSource) : Prop := (held s <= opens (log s))%nat.

Lemma accounted_react (sig : Signal) (s : EventSource) :
  accounted s -> accounted (react closes cfg sig s).
Proof.
  unfold accounted. intros H.
  assert (G : forall s', same_transports s s' -> (held s' <= opens (log s'))%nat)
    by (intros s' [-> ->]; exact H).
  destruct sig; cbn [react].
  - apply G, same_transports_onStart.
  - apply G, same_transports_onProgress.
  - apply G, same_transports_onFinish.
  - destruct (onTimeout_transports now s) as [H1 H2].
    destruct (currentState s) eqn:E; try solve [apply G, H1; discriminate].
    destruct (H2 eq_refl) as (Hh & Hsome & Hnone).
    destruct (requestURL (url cfg) (lastEventId s)) eqn:U.
    + rewrite Hsome by discriminate. lia.
    + apply G, Hnone. reflexivity.
  - apply G, same_transports_close.
Qed.

Lemma accounted_run (sigs : list Signal) :
  forall s : EventSource, accounted s -> accounted (run closes cfg sigs s).
Proof.
  induction sigs as [|sig sigs IH]; intros s H; [exact H|].
  cbn [run fold_left]. apply IH, accounted_react, H.
Qed.

End Transports.

(** X21: requests and aborts.  Whatever the transport, the timer, the
    listeners and the application do, the connection never aborts more
    transports than it has requested, and while it holds a transport handle
    one request is still not aborted.  A request is made only by a firing of
    the timer in the Waiting state, one for each such firing whose URL can
    be encoded; no callback of the transport and no call of [close] makes
    one. *)
Theorem transports_are_accounted (closes : list Entry -> bool) (cfg : Config)
  (sigs : list Signal) :
  let s := run closes cfg sigs initial in
  (aborts (log s) + (if abortController s then 1 else 0) <= opens (log s))%nat
  /\ forall sig,
      let s' := react closes cfg sig s in
      match sig with
      | TimerFires _ =>
          match currentState s with
          | WAITING =>
              opens (log s')
              = (opens (log s)
                 + match requestURL (url cfg) (lastEventId s) with
                   | Some _ => 1
                   | None => 0
                   end)%nat
          | _ => opens (log s') = opens (log s)
          end
      | _ => opens (log s') = opens (log s)
      end.
Proof.
  intros s. split.
  - apply (accounted_run closes cfg sigs initial). unfold accounted. cbn. lia.
  - intros sig s'. subst s'. destruct sig; cbn [react].
    + apply same_transports_onStart.
    + apply same_transports_onProgress.
    + apply same_transports_onFinish.
    + destruct (onTimeout_transports closes cfg now s) as [H1 H2].
      destruct (currentState s) eqn:E; try solve [apply H1; discriminate].
      destruct (H2 eq_refl) as (_ & Hsome & Hnone).
      destruct (requestURL (url cfg) (lastEventId s)) eqn:U.
      * rewrite Hsome by discriminate. lia.
      * destruct (Hnone eq_refl) as [_ ->]. lia.
    + apply same_transports_close.
Qed.

(** * The status text of a rejected response *)

(** Every blank of the text is a space, and no two blanks are adjacent;
    [after_blank] says that the character before was a blank. *)
Fixpoint tidy_from (after_blank : bool) (s : jsstring) : bool :=
  match s with
  | [] => true
  | c :: s' =>
      if isWhiteSpace c then (c =? SPACE) && negb after_blank && tidy_from true s'
      else tidy_from false s'
  end.

Definition tidy (s : jsstring) : bool := tidy_from false s.

Definition visible (s : jsstring) : jsstring := filter (fun c => negb (isWhiteSpace c)) s.

Lemma collapse_ws_from_tidy (s : jsstring) :
  forall in_run : bool, tidy_from in_run (collapse_ws_from in_run s) = true.
Proof.
  induction s as [|c s IH]; intros in_run; [reflexivity|].
  cbn [collapse_ws_from]. destruct (isWhiteSpace c) eqn:E.
  - destruct in_run; cbn [app]; [apply IH|].
    cbn [tidy_from]. change (isWhiteSpace SPACE) with true. cbv iota.
    rewrite Z.eqb_refl. cbn [negb andb]. apply IH.
  - cbn [tidy_from]. rewrite E. apply IH.
Qed.

Lemma collapse_ws_from_fixed (s : jsstring) :
  forall in_run : bool, tidy_from in_run s = true -> collapse_ws_from in_run s = s.
Proof.
  induction s as [|c s IH]; intros in_run H; [reflexivity|].
  cbn [collapse_ws_from tidy_from] in *. destruct (isWhiteSpace c).
  - apply andb_true_iff in H. destruct H as [H Hs].
    apply andb_true_iff in H. destruct H as [Hc Hr].
    apply Z.eqb_eq in Hc. subst c. apply negb_true_iff in Hr. subst in_run.
    cbn [app]. now rewrite (IH true Hs).
  - now rewrite (IH false H).
Qed.

Lemma collapse_ws_from_visible (s : jsstring) :
  forall in_run : bool, visible (collapse_ws_from in_run s) = visible s.
Proof.
  induction s as [|c s IH]; intros in_run; [reflexivity|].
  cbn [collapse_ws_from visible filter]. destruct (isWhiteSpace c) eqn:E; cbn [negb].
  - unfold visible in IH. destruct in_run; cbn [app filter]; [apply IH|].
    change (isWhiteSpace SPACE) with true. cbn [negb]. apply IH.
  - cbn [filter]. rewrite E. cbn [negb]. f_equal. apply IH.
Qed.

(** X22: the status text an error event reports for a response whose
    status is not 200.  Every run of blanks of the status text (spaces,
    tabs, line breaks and the other white space of [\s]) is replaced by one
    space: the reported text has no blank but single spaces, its other
    characters are those of the status text in their order, and a text that
    is already in that form is reported as it is.  With status 200 (a wrong
    content type) the status text is reported unchanged. *)
Theorem rejected_status_text_is_one_line (closes : list Entry -> bool) (now status : Z)
  (statusText : jsstring) (contentType : option jsstring) (responseHeaders : Headers)
  (s : EventSource) :
  currentState s = CONNECTING -> nonconforming status contentType ->
  exists reported l,
    log (onStart closes now status statusText contentType responseHeaders s)
    = log s ++ (CONNECTING, GlobalClose)
        :: (CONNECTING,
            DispatchEvent (ConnectionEvent (str "error") status reported responseHeaders))
        :: l
    /\ (status = 200 -> reported = statusText)
    /\ (status <> 200 ->
        tidy reported = true
        /\ visible reported = visible statusText
        /\ (tidy statusText = true -> reported = statusText)).
Proof.
  intros Hc Hn.
  rewrite (onStart_rejected closes now status statusText contentType responseHeaders s Hc Hn).
  unfold rejection_event.
  set (ev := ConnectionEvent (str "error") status (reported_statusText status statusText)
               responseHeaders).
  exists (reported_statusText status statusText).
  unfold dispatchEvent.
  destruct (calls_emit_listeners closes (DispatchEvent ev) (emit GlobalClose s))
    as (l1 & L1 & _).
  set (s1 := run_listeners closes (emit (DispatchEvent ev) (emit GlobalClose s))) in *.
  assert (L2 : listened s1 (fire closes onerror ev s1)) by apply listened_fire.
  destruct L2 as (l2 & _ & Hl2).
  assert (E2 : log (fire closes onerror ev s1) = log s1 ++ l2)
    by (destruct Hl2 as [-> | [-> _]]; reflexivity).
  eexists. split.
  - unfold emit at 1. cbn [log set_log]. rewrite E2, L1.
    unfold emit at 1. cbn [log set_log currentState].
    change (currentState (emit GlobalClose s)) with (currentState s). rewrite Hc.
    rewrite <- !app_assoc. cbn [app]. reflexivity.
  - unfold reported_statusText. split.
    + intros ->. reflexivity.
    + intros Hs. apply Z.eqb_neq in Hs. rewrite Hs. unfold tidy, collapse_ws.
      split; [apply collapse_ws_from_tidy|].
      split; [apply collapse_ws_from_visible|apply collapse_ws_from_fixed].
Qed.

Lemma rejected_status_text_is_one_line_witness :
  exists reported l,
    log (onStart never 1 404 (str "Not" ++ [9; 10] ++ str "Found") None [] connecting)
    = log connecting ++ (CONNECTING, GlobalClose)
        :: (CONNECTING, DispatchEvent (ConnectionEvent (str "error") 404 reported []))
        :: l
    /\ (404 = 200 -> reported = str "Not" ++ [9; 10] ++ str "Found")
    /\ (404 <> 200 ->
        tidy reported = true
        /\ visible reported = visible (str "Not" ++ [9; 10] ++ str "Found")
        /\ (tidy (str "Not" ++ [9; 10] ++ str "Found") = true ->
            reported = str "Not" ++ [9; 10] ++ str "Found")).
Proof.
  apply (rejected_status_text_is_one_line never 1 404 (str "Not" ++ [9; 10] ++ str "Found")
           None [] connecting); reflexivity.
Defined.
